(** * MACI: the off-chain state registry and the proof orchestration service

    A shallow embedding of [core/ts/MaciState.ts] (class [MaciState]) and of
    the coordinator's [ProofGeneratorService.generate].

    JavaScript objects are mutable and shared by reference, so a
    [MaciState] lives in a heap: the instance, its [IncrementalQuinTree],
    its [stateLeaves] array and its [polls] array are four separate heap
    objects, the instance holding the addresses of the other three.  Every
    method is a heap transformer that returns a value or throws; what a
    method did to the heap before it threw stays done. *)

From Stdlib Require Import ZArith Lia Ascii String DecimalString DecimalZ DecimalPos.
From stdpp Require Import gmap list strings.

Local Open Scope nat_scope.

(** ** Results and exceptions *)

(** The members of the coordinator's [ErrorCodes] that [generate] throws. *)
Inductive ErrorCodes :=
  | POLL_NOT_FOUND
  | NOT_MERGED_STATE_TREE
  | NOT_MERGED_MESSAGE_TREE
  | PRIVATE_KEY_MISMATCH.

(** What a [throw] carries.  [TypeError] is the engine's own error on a
    method call through [null]; [CapacityExceeded] is the accumulator's;
    [ServiceError c] is [new Error(ErrorCodes.c)]; [External] stands for any
    failure raised inside a collaborator. *)
Inductive Error :=
  | TypeError
  | CapacityExceeded
  | ServiceError (c : ErrorCodes)
  | External (msg : string).

Inductive Res (A : Type) :=
  | Ok (a : A)
  | Err (e : Error).
Arguments Ok {A} a.
Arguments Err {A} e.

Definition res_bind {A B} (r : Res A) (f : A -> Res B) : Res B :=
  match r with
  | Ok a => f a
  | Err e => Err e
  end.

(** [xs.map(f)] for an [f] that may throw: stops at the first exception. *)
Fixpoint mapRes {A B} (f : A -> Res B) (xs : list A) : Res (list B) :=
  match xs with
  | [] => Ok []
  | x :: xs' =>
      res_bind (f x) (fun y =>
      res_bind (mapRes f xs') (fun ys => Ok (y :: ys)))
  end.

(** ** JavaScript numbers and strings, as far as [toJSON]/[fromJSON] use them *)

(** A [number] as [MaciState] comes to hold one: [NaN] (what
    [Number.parseInt] gives when nothing parses) or a double with an
    integer value.  [Num z] is the double nearest to the integer [z]: [z]
    itself up to [Number.MAX_SAFE_INTEGER], and [z] rounded to 53
    significant bits beyond ([Number.parseInt] and [Number(bigint)] round
    so).  Fractions are not modelled: nothing in the modelled code
    produces one. *)
Inductive JsNumber :=
  | NaN
  | Num (z : Z).

(** [Number.MAX_SAFE_INTEGER] *)
Definition MAX_SAFE_INTEGER : Z := 2 ^ 53 - 1.

(** [Number.isSafeInteger] on an integer. *)
Definition isSafeInteger (z : Z) : bool := (Z.abs z <=? MAX_SAFE_INTEGER)%Z.

(** The double nearest to the natural number [n], ties going to the even
    mantissa; [None] is [Infinity]. *)
Definition nearest_double (n : Z) : option Z :=
  let b := Z.log2 n in
  if (b <=? 52)%Z then Some n else
  let shift := (b - 52)%Z in
  let q := Z.shiftr n shift in
  let r := Z.land n (Z.ones shift) in
  let half := Z.shiftl 1 (shift - 1) in
  let q' := if (half <? r)%Z || ((r =? half)%Z && Z.odd q) then (q + 1)%Z else q in
  let x := Z.shiftl q' shift in
  if (2 ^ 1024 <=? x)%Z then None else Some x.

(** The decimal digits of a natural number. *)
Definition digits (n : Z) : string := NilZero.string_of_uint (N.to_uint (Z.to_N n)).

(** Whether [s] has [k] digits and [s * 10^e] is read back as the double
    [x]. *)
Definition reads_back (x : Z) (k : nat) (e : Z) (s : Z) : bool :=
  (10 ^ Z.of_nat (k - 1) <=? s)%Z && (s <? 10 ^ Z.of_nat k)%Z &&
  match nearest_double (s * 10 ^ e) with
  | Some y => (y =? x)%Z
  | None => false
  end.

(** The [k]-digit [s] with [s * 10^(n-k)] read back as [x]: the one
    closest to [x] if there are several, the even one of two as close. *)
Definition digits_at (x : Z) (n k : nat) : option Z :=
  let e := Z.of_nat (n - k) in
  let lo := (x / 10 ^ e)%Z in
  let hi := (lo + 1)%Z in
  match reads_back x k e lo, reads_back x k e hi with
  | true, true =>
      let below := (x - lo * 10 ^ e)%Z in
      let above := (hi * 10 ^ e - x)%Z in
      if (below <? above)%Z then Some lo
      else if (above <? below)%Z then Some hi
      else if Z.even lo then Some lo else Some hi
  | true, false => Some lo
  | false, true => Some hi
  | false, false => None
  end.

(** The fewest digits that are read back as the double [x], which has
    [nd] digits: [(s, k, n)] with [s] of [k] digits, [s * 10^(n-k)] read
    back as [x] and [k] least, tried from [k] on.  Seventeen digits tell
    any two doubles apart; the digits of [x] itself always do. *)
Fixpoint shortest (x : Z) (nd : nat) (k fuel : nat) : Z * nat * nat :=
  match fuel with
  | O => (x, nd, nd)
  | S fuel' =>
      if k <=? nd then
        match digits_at x nd k with
        | Some s => (s, k, nd)
        | None =>
            match digits_at x (S nd) k with
            | Some s => (s, k, S nd)
            | None => shortest x nd (S k) fuel'
            end
        end
      else (x, nd, nd)
  end.

(** [Number::toString] on a double [x] with an integer value beyond
    [MAX_SAFE_INTEGER]: the fewest digits that tell [x] apart, followed by
    zeros while the number has at most 21 digits, and in exponent form
    from [1e21] on. *)
Definition big_text (x : Z) : string :=
  let '(s, k, n) := shortest x (String.length (digits x)) 1 17 in
  let ds := digits s in
  if n <=? 21 then ds +:+ String.concat "" (replicate (n - k) "0")
  else
    match ds with
    | String c rest =>
        (if k =? 1 then String c EmptyString else String c ("." +:+ rest))
        +:+ "e+" +:+ digits (Z.of_nat (n - 1))
    | EmptyString => ds
    end.

(** [ToBoolean] on a number: [0] and [NaN] are falsy. *)
Definition truthy (n : JsNumber) : bool :=
  match n with
  | NaN => false
  | Num z => negb (z =? 0)%Z
  end.

(** [n.toString()]: a safe integer is printed digit by digit; beyond,
    the double nearest to [z] is printed, [big_text]. *)
Definition Number_toString (n : JsNumber) : string :=
  match n with
  | NaN => "NaN"
  | Num z =>
      if isSafeInteger z then NilZero.string_of_int (Z.to_int z)
      else
        match nearest_double (Z.abs z) with
        | Some x => (if (z <? 0)%Z then "-" else "") +:+ big_text x
        | None => if (z <? 0)%Z then "-Infinity" else "Infinity"
        end
  end.

(** The white space [parseInt] skips (the part of it that is ASCII). *)
Definition is_space (c : ascii) : bool :=
  let n := nat_of_ascii c in
  (n =? 9) || (n =? 10) || (n =? 11) || (n =? 12) || (n =? 13) || (n =? 32).

Fixpoint skip_space (s : string) : string :=
  match s with
  | String c s' => if is_space c then skip_space s' else s
  | EmptyString => s
  end.

Definition digit_of (c : ascii) : option N :=
  let n := N_of_ascii c in
  if ((48 <=? n) && (n <=? 57))%N then Some (n - 48)%N else None.

(** Reads the longest prefix of decimal digits; [None] when it is empty. *)
Fixpoint scan_digits (s : string) (acc : option N) : option N :=
  match s with
  | String c s' =>
      match digit_of c with
      | Some d => scan_digits s' (Some (10 * default 0%N acc + d)%N)
      | None => acc
      end
  | EmptyString => acc
  end.

(** [Number.parseInt(s, 10)]: leading white space, an optional sign, then
    the longest run of digits; [NaN] if there is no digit. *)
Definition parseInt (s : string) : JsNumber :=
  let s1 := skip_space s in
  let '(neg, s2) :=
    match s1 with
    | String c r =>
        if Ascii.eqb c "-" then (true, r)
        else if Ascii.eqb c "+" then (false, r)
        else (false, s1)
    | EmptyString => (false, s1)
    end in
  match scan_digits s2 None with
  | Some n => Num (if neg then - Z.of_N n else Z.of_N n)
  | None => NaN
  end.

(** ** The collaborators outside this repository part *)

Definition loc := nat.

(** The batch sizes object literal that [deployPoll] builds. *)
Record BatchSizes := {
  messageBatchSize : nat;
  subsidyBatchSize : nat;
  tallyBatchSize : nat;
}.

(** [maci-domainobjs]: keys and state leaves.  Only their signatures are
    used by [MaciState] and by the service; they are parameters here.
    Nothing in the modelled code assigns to a field of a leaf, so a leaf is
    a value. *)
Class DomainObjs := {
  PubKey : Type;
  PrivKey : Type;
  Keypair : Type;
  StateLeaf : Type;
  JsonStateLeaf : Type;
  (* new PubKey([x, y]) *)
  PubKey_new : Z -> Z -> Res PubKey;
  PubKey_equals : PubKey -> PubKey -> bool;
  PrivKey_deserialize : string -> Res PrivKey;
  (* new Keypair(privKey) *)
  Keypair_new : PrivKey -> Keypair;
  pubKey : Keypair -> PubKey;
  (* new StateLeaf(pubKey, voiceCreditBalance, timestamp) *)
  StateLeaf_new : PubKey -> Z -> Z -> StateLeaf;
  StateLeaf_hash : StateLeaf -> Z;
  StateLeaf_copy : StateLeaf -> StateLeaf;
  StateLeaf_equals : StateLeaf -> StateLeaf -> bool;
  StateLeaf_toJSON : StateLeaf -> JsonStateLeaf;
  StateLeaf_fromJSON : JsonStateLeaf -> Res StateLeaf;
  blankStateLeaf : StateLeaf;
  blankStateLeafHash : Z;
}.

(** [./Poll] and [./utils/types]: a poll is built from the address of the
    [MaciState] that owns it ([this] in [deployPoll], the fresh instance in
    [fromJSON]).  [Poll_equals] takes the other poll as the array holds it,
    [None] being [null]. *)
Class PollImpl `{DomainObjs} := {
  Poll : Type;
  JsonPoll : Type;
  TreeDepths : Type;
  MaxValues : Type;
  intStateTreeDepth : TreeDepths -> nat;
  Poll_new : Z -> Keypair -> TreeDepths -> BatchSizes -> MaxValues -> loc -> Poll;
  Poll_copy : Poll -> Poll;
  Poll_equals : Poll -> option Poll -> Res bool;
  Poll_toJSON : Poll -> JsonPoll;
  Poll_fromJSON : JsonPoll -> loc -> Res Poll;
}.

(** Modelled from the spec: [STATE_TREE_ARITY] of [./utils/constants] is
    missing; the state tree is the quinary tree ("fixed-arity", [hash5],
    [IncrementalQuinTree]), so the arity is five. *)
Definition STATE_TREE_ARITY : nat := 5.

(** ** The accumulator *)

(** Modelled from the spec: [IncrementalQuinTree] of [maci-crypto] is
    missing.  The spec has it as a fixed-arity, fixed-depth, append-only
    tree: here its configuration and the log of inserted leaves, in
    insertion order.  (The hash function given to the constructor is always
    [hash5]; the engine never reads the root.) *)
Record IncrementalQuinTree := {
  depth : nat;
  zeroValue : Z;
  arity : nat;
  leaves : list Z;
}.

Definition IncrementalQuinTree_new (d : nat) (zero : Z) (a : nat) : IncrementalQuinTree :=
  {| depth := d; zeroValue := zero; arity := a; leaves := [] |}.

Definition capacity (t : IncrementalQuinTree) : nat := arity t ^ depth t.

(** Modelled from the spec: [insert] appends the next leaf, and "insertion
    beyond configured depth" fails with [CapacityExceeded] rather than
    overflow. *)
Definition insert (t : IncrementalQuinTree) (value : Z) : Res IncrementalQuinTree :=
  if length (leaves t) <? capacity t
  then Ok {| depth := depth t; zeroValue := zeroValue t; arity := arity t;
             leaves := leaves t ++ [value] |}
  else Err CapacityExceeded.

(** ** The heap *)

(** A [MaciState] instance.  [polls], [stateTree] and [stateLeaves] hold the
    addresses of the array and tree objects; the two optional fields are
    [None] while [undefined]. *)
Record MaciState := {
  polls : loc;
  stateTree : loc;
  stateLeaves : loc;
  stateTreeDepth : nat;
  numSignUps : nat;
  pollBeingProcessed : option bool;
  currentPollBeingProcessed : option JsNumber;
}.

Definition set_polls (a : loc) (s : MaciState) : MaciState :=
  {| polls := a; stateTree := stateTree s; stateLeaves := stateLeaves s;
     stateTreeDepth := stateTreeDepth s; numSignUps := numSignUps s;
     pollBeingProcessed := pollBeingProcessed s;
     currentPollBeingProcessed := currentPollBeingProcessed s |}.

Definition set_stateLeaves (a : loc) (s : MaciState) : MaciState :=
  {| polls := polls s; stateTree := stateTree s; stateLeaves := a;
     stateTreeDepth := stateTreeDepth s; numSignUps := numSignUps s;
     pollBeingProcessed := pollBeingProcessed s;
     currentPollBeingProcessed := currentPollBeingProcessed s |}.

Definition set_numSignUps (n : nat) (s : MaciState) : MaciState :=
  {| polls := polls s; stateTree := stateTree s; stateLeaves := stateLeaves s;
     stateTreeDepth := stateTreeDepth s; numSignUps := n;
     pollBeingProcessed := pollBeingProcessed s;
     currentPollBeingProcessed := currentPollBeingProcessed s |}.

Definition set_pollBeingProcessed (b : option bool) (s : MaciState) : MaciState :=
  {| polls := polls s; stateTree := stateTree s; stateLeaves := stateLeaves s;
     stateTreeDepth := stateTreeDepth s; numSignUps := numSignUps s;
     pollBeingProcessed := b;
     currentPollBeingProcessed := currentPollBeingProcessed s |}.

Definition set_currentPollBeingProcessed (n : option JsNumber) (s : MaciState) : MaciState :=
  {| polls := polls s; stateTree := stateTree s; stateLeaves := stateLeaves s;
     stateTreeDepth := stateTreeDepth s; numSignUps := numSignUps s;
     pollBeingProcessed := pollBeingProcessed s;
     currentPollBeingProcessed := n |}.

(** The serialised form, [IJsonMaciState]. *)
Record IJsonMaciState `{PollImpl} := {
  json_stateTreeDepth : nat;
  json_polls : list JsonPoll;
  json_stateLeaves : list JsonStateLeaf;
  json_pollBeingProcessed : bool;
  json_currentPollBeingProcessed : string;
  json_numSignUps : nat;
}.

Section Engine.
Context {D : DomainObjs} {P : PollImpl}.

(** One address space per class of object: objects of different classes
    are never the same object. *)
Record Heap := {
  states : gmap loc MaciState;
  trees : gmap loc IncrementalQuinTree;
  leafArrays : gmap loc (list StateLeaf);
  pollArrays : gmap loc (list (option Poll));
}.

Definition empty_heap : Heap :=
  {| states := ∅; trees := ∅; leafArrays := ∅; pollArrays := ∅ |}.

(** A computation on the heap that returns or throws.  The heap after a
    throw is the heap as the computation left it. *)
Definition M (A : Type) : Type := Heap -> Res A * Heap.

Definition ret {A} (a : A) : M A := fun h => (Ok a, h).
Definition throw {A} (e : Error) : M A := fun h => (Err e, h).
Definition lift {A} (r : Res A) : M A := fun h => (r, h).
Definition bind {A B} (m : M A) (f : A -> M B) : M B :=
  fun h =>
    match m h with
    | (Ok a, h') => f a h'
    | (Err e, h') => (Err e, h')
    end.

Notation "'let*' x := m 'in' k" := (bind m (fun x => k))
  (at level 10, x name, m at level 100, k at level 200, only parsing).
Notation "m ;;; k" := (bind m (fun _ => k))
  (at level 100, k at level 200, only parsing).

(** *** Allocation, reads and writes *)

Definition with_states (m : gmap loc MaciState) (h : Heap) : Heap :=
  {| states := m; trees := trees h; leafArrays := leafArrays h; pollArrays := pollArrays h |}.

Definition with_trees (m : gmap loc IncrementalQuinTree) (h : Heap) : Heap :=
  {| states := states h; trees := m; leafArrays := leafArrays h; pollArrays := pollArrays h |}.

Definition with_leafArrays (m : gmap loc (list StateLeaf)) (h : Heap) : Heap :=
  {| states := states h; trees := trees h; leafArrays := m; pollArrays := pollArrays h |}.

Definition with_pollArrays (m : gmap loc (list (option Poll))) (h : Heap) : Heap :=
  {| states := states h; trees := trees h; leafArrays := leafArrays h; pollArrays := m |}.

(** [new]: the object gets an address no object of its class has. *)
Definition new_state (s : MaciState) : M loc := fun h =>
  let l := fresh (dom (states h)) in
  (Ok l, with_states (<[l := s]> (states h)) h).

Definition new_tree (t : IncrementalQuinTree) : M loc := fun h =>
  let l := fresh (dom (trees h)) in
  (Ok l, with_trees (<[l := t]> (trees h)) h).

Definition new_leafArray (xs : list StateLeaf) : M loc := fun h =>
  let l := fresh (dom (leafArrays h)) in
  (Ok l, with_leafArrays (<[l := xs]> (leafArrays h)) h).

Definition new_pollArray (xs : list (option Poll)) : M loc := fun h =>
  let l := fresh (dom (pollArrays h)) in
  (Ok l, with_pollArrays (<[l := xs]> (pollArrays h)) h).

(** Reading through an address that holds no such object cannot happen in
    a typed program; the model makes it a [TypeError]. *)
Definition get_state (l : loc) : M MaciState := fun h =>
  match states h !! l with
  | Some s => (Ok s, h)
  | None => (Err TypeError, h)
  end.

Definition get_tree (l : loc) : M IncrementalQuinTree := fun h =>
  match trees h !! l with
  | Some t => (Ok t, h)
  | None => (Err TypeError, h)
  end.

Definition get_leafArray (l : loc) : M (list StateLeaf) := fun h =>
  match leafArrays h !! l with
  | Some xs => (Ok xs, h)
  | None => (Err TypeError, h)
  end.

Definition get_pollArray (l : loc) : M (list (option Poll)) := fun h =>
  match pollArrays h !! l with
  | Some xs => (Ok xs, h)
  | None => (Err TypeError, h)
  end.

Definition put_state (l : loc) (s : MaciState) : M unit := fun h =>
  (Ok tt, with_states (<[l := s]> (states h)) h).

Definition put_tree (l : loc) (t : IncrementalQuinTree) : M unit := fun h =>
  (Ok tt, with_trees (<[l := t]> (trees h)) h).

Definition put_leafArray (l : loc) (xs : list StateLeaf) : M unit := fun h =>
  (Ok tt, with_leafArrays (<[l := xs]> (leafArrays h)) h).

Definition put_pollArray (l : loc) (xs : list (option Poll)) : M unit := fun h =>
  (Ok tt, with_pollArrays (<[l := xs]> (pollArrays h)) h).

(** [this.f = ...] on a [MaciState] field. *)
Definition update_state (this : loc) (f : MaciState -> MaciState) : M unit :=
  let* s := get_state this in
  put_state this (f s).

(** [tree.insert(value)] on the tree object at [l]. *)
Definition tree_insert (l : loc) (value : Z) : M unit :=
  let* t := get_tree l in
  let* t' := lift (insert t value) in
  put_tree l t'.

(** [array.push(x)]: appends in place and returns the new length. *)
Definition push_leaf (l : loc) (x : StateLeaf) : M nat :=
  let* xs := get_leafArray l in
  put_leafArray l (xs ++ [x]) ;;;
  ret (length (xs ++ [x])).

Definition push_poll (l : loc) (x : option Poll) : M nat :=
  let* xs := get_pollArray l in
  put_pollArray l (xs ++ [x]) ;;;
  ret (length (xs ++ [x])).

(** ** class MaciState *)

(** [new MaciState(stateTreeDepth)]: the field initialisers ([polls = []],
    [stateLeaves = []], [numSignUps = 0]), then the constructor body. *)
Definition MaciState_new (depth0 : nat) : M loc :=
  let* pollsArr := new_pollArray [] in
  let* leavesArr := new_leafArray [] in
  let* tree := new_tree (IncrementalQuinTree_new depth0 blankStateLeafHash STATE_TREE_ARITY) in
  let* this := new_state {| polls := pollsArr; stateTree := tree; stateLeaves := leavesArr;
                            stateTreeDepth := depth0; numSignUps := 0;
                            pollBeingProcessed := None;
                            currentPollBeingProcessed := None |} in
  let* s := get_state this in
  push_leaf (stateLeaves s) blankStateLeaf ;;;
  tree_insert (stateTree s) blankStateLeafHash ;;;
  update_state this (fun s => set_numSignUps (numSignUps s + 1) s) ;;;
  ret this.

(** [signUp(pubKey, initialVoiceCreditBalance, timestamp)] *)
Definition signUp (this : loc) (pk : PubKey) (initialVoiceCreditBalance timestamp : Z) : M nat :=
  update_state this (fun s => set_numSignUps (numSignUps s + 1) s) ;;;
  let stateLeaf := StateLeaf_new pk initialVoiceCreditBalance timestamp in
  let hash := StateLeaf_hash stateLeaf in
  let* s := get_state this in
  tree_insert (stateTree s) hash ;;;
  let* n := push_leaf (stateLeaves s) (StateLeaf_copy stateLeaf) in
  ret (n - 1).

(** [deployPoll(pollEndTimestamp, maxValues, treeDepths, messageBatchSize,
    coordinatorKeypair)] *)
Definition deployPoll (this : loc) (pollEndTimestamp : Z) (maxValues : MaxValues)
    (treeDepths : TreeDepths) (messageBatchSize0 : nat) (coordinatorKeypair : Keypair) : M nat :=
  let poll :=
    Poll_new pollEndTimestamp coordinatorKeypair treeDepths
      {| messageBatchSize := messageBatchSize0;
         subsidyBatchSize := STATE_TREE_ARITY ^ intStateTreeDepth treeDepths;
         tallyBatchSize := STATE_TREE_ARITY ^ intStateTreeDepth treeDepths |}
      maxValues this in
  let* s := get_state this in
  let* n := push_poll (polls s) (Some poll) in
  ret (n - 1).

(** [deployNullPoll()] *)
Definition deployNullPoll (this : loc) : M unit :=
  let* s := get_state this in
  push_poll (polls s) None ;;;
  ret tt.

(** [x.copy()] on an element of [polls]: a method call on [null] throws. *)
Definition poll_copy (x : option Poll) : Res (option Poll) :=
  match x with
  | Some p => Ok (Some (Poll_copy p))
  | None => Err TypeError
  end.

(** [copy()] *)
Definition copy (this : loc) : M loc :=
  let* s := get_state this in
  let* copied := MaciState_new (stateTreeDepth s) in
  let* xs := get_leafArray (stateLeaves s) in
  let* leavesArr := new_leafArray (map StateLeaf_copy xs) in
  update_state copied (set_stateLeaves leavesArr) ;;;
  let* ps := get_pollArray (polls s) in
  let* ps' := lift (mapRes poll_copy ps) in
  let* pollsArr := new_pollArray ps' in
  update_state copied (set_polls pollsArr) ;;;
  ret copied.

(** The first loop of [equals]: [Ok true] when it runs to the end,
    [Ok false] when it returns [false] early. *)
Fixpoint polls_loop (ps : list (option Poll)) (i : nat) (mpolls : list (option Poll)) : Res bool :=
  match ps with
  | [] => Ok true
  | None :: _ => Err TypeError
  | Some p :: rest =>
      res_bind (Poll_equals p (mjoin (mpolls !! i))) (fun b =>
      if b then polls_loop rest (S i) mpolls else Ok false)
  end.

(** The second loop of [equals].  [m.stateLeaves[i]] is in range, the
    lengths having been compared. *)
Fixpoint leaves_loop (ls : list StateLeaf) (i : nat) (mleaves : list StateLeaf) : Res bool :=
  match ls with
  | [] => Ok true
  | l :: rest =>
      match mleaves !! i with
      | Some l' => if StateLeaf_equals l l' then leaves_loop rest (S i) mleaves else Ok false
      | None => Err TypeError
      end
  end.

(** [equals(m)] *)
Definition equals (this m : loc) : M bool :=
  let* s := get_state this in
  let* o := get_state m in
  let* ps := get_pollArray (polls s) in
  let* mpolls := get_pollArray (polls o) in
  let* ls := get_leafArray (stateLeaves s) in
  let* mleaves := get_leafArray (stateLeaves o) in
  let result :=
    (stateTreeDepth s =? stateTreeDepth o) &&
    (length ps =? length mpolls) &&
    (length ls =? length mleaves) in
  if negb result then ret false else
  let* b := lift (polls_loop ps 0 mpolls) in
  if negb b then ret false else
  lift (leaves_loop ls 0 mleaves).

(** [poll.toJSON()] on an element of [polls]. *)
Definition poll_toJSON (x : option Poll) : Res JsonPoll :=
  match x with
  | Some p => Ok (Poll_toJSON p)
  | None => Err TypeError
  end.

(** [toJSON()] *)
Definition toJSON (this : loc) : M IJsonMaciState :=
  let* s := get_state this in
  let* ps := get_pollArray (polls s) in
  let* jps := lift (mapRes poll_toJSON ps) in
  let* ls := get_leafArray (stateLeaves s) in
  ret {| json_stateTreeDepth := stateTreeDepth s;
         json_polls := jps;
         json_stateLeaves := map StateLeaf_toJSON ls;
         json_pollBeingProcessed := default false (pollBeingProcessed s);
         json_currentPollBeingProcessed :=
           match currentPollBeingProcessed s with
           | Some n => if truthy n then Number_toString n else ""
           | None => ""
           end;
         json_numSignUps := numSignUps s |}.

(** The loop of [fromJSON] that re-creates the state tree, over
    [json.stateLeaves[1..]]. *)
Fixpoint reinsert (maciState : loc) (js : list JsonStateLeaf) : M unit :=
  match js with
  | [] => ret tt
  | j :: rest =>
      let* leaf := lift (StateLeaf_fromJSON j) in
      let leafHash := StateLeaf_hash leaf in
      let* s := get_state maciState in
      tree_insert (stateTree s) leafHash ;;;
      reinsert maciState rest
  end.

(** [MaciState.fromJSON(json)] *)
Definition fromJSON (json : IJsonMaciState) : M loc :=
  let* maciState := MaciState_new (json_stateTreeDepth json) in
  let* ls := lift (mapRes StateLeaf_fromJSON (json_stateLeaves json)) in
  let* leavesArr := new_leafArray ls in
  update_state maciState (set_stateLeaves leavesArr) ;;;
  update_state maciState (set_pollBeingProcessed (Some (json_pollBeingProcessed json))) ;;;
  update_state maciState
    (set_currentPollBeingProcessed (Some (parseInt (json_currentPollBeingProcessed json)))) ;;;
  update_state maciState (set_numSignUps (json_numSignUps json)) ;;;
  reinsert maciState (drop 1 (json_stateLeaves json)) ;;;
  let* ps := lift (mapRes (fun jsonPoll => Poll_fromJSON jsonPoll maciState) (json_polls json)) in
  let* pollsArr := new_pollArray (map Some ps) in
  update_state maciState (set_polls pollsArr) ;;;
  ret maciState.

End Engine.

(** ** The proof generator service *)

(** [String.prototype.toLowerCase], on ASCII. *)
Definition lower (c : ascii) : ascii :=
  let n := nat_of_ascii c in
  if (65 <=? n) && (n <=? 90) then ascii_of_nat (n + 32) else c.

Fixpoint toLowerCase (s : string) : string :=
  match s with
  | String c s' => String (lower c) (toLowerCase s')
  | EmptyString => EmptyString
  end.

(** [ZeroAddress] of ethers. *)
Definition ZeroAddress : string := "0x0000000000000000000000000000000000000000".

(** The contracts [deployment.getContract] is asked for. *)
Inductive EContracts :=
  | EContracts_MACI
  | EContracts_Poll
  | EContracts_AccQueue.

(** Handles on the objects the collaborators hand out. *)
Definition Contract := nat.
Definition Signer := nat.
Definition PollHandle := nat.
Definition ProofGeneratorHandle := nat.
Definition Proofs := list string.
Definition TallyData := string.
Definition ZkeyFilePaths := string.

Record IGenerateArgs := {
  poll : nat;
  maciContractAddress : string;
  tallyContractAddress : string;
  useQuadraticVoting : bool;
  encryptedCoordinatorPrivateKey : string;
  startBlock : option nat;
  endBlock : option nat;
  blocksPerBatch : option nat;
}.

Record IGenerateData := {
  processProofs : Proofs;
  tallyProofs : Proofs;
  tallyData : TallyData;
}.

Section Service.
Context {D : DomainObjs}.

(** Every call [generate] makes on a collaborator, indexed by the type of
    what the call gives back. *)
Inductive Call : Type -> Type :=
  | Deployment_getContract (name : EContracts) (address : string) : Call Contract
  | Deployment_getDeployer : Call Signer
  | MACI_polls (maciContract : Contract) (pollId : nat) : Call string
  | Poll_extContracts (pollContract : Contract) : Call string
  | Poll_coordinatorPubKey (pollContract : Contract) : Call (Z * Z)
  | Poll_stateMerged (pollContract : Contract) : Call bool
  | Poll_treeDepths (pollContract : Contract) : Call (list Z)
  | AccQueue_getMainRoot (messageAq : Contract) (depthArg : string) : Call Z
  | FileService_getPrivateKey : Call string
  | CryptoService_decrypt (privateKey ciphertext : string) : Call string
  | ProofGenerator_prepareState
      (maciContract pollContract messageAq : Contract)
      (maciPrivateKey : PrivKey) (coordinatorKeypair : Keypair)
      (pollId : nat) (signer : Signer)
      (startBlock0 endBlock0 blocksPerBatch0 : option nat) : Call (gmap Z PollHandle)
  | FileService_getZkeyFilePaths (envName : string) (useQuadraticVoting0 : bool) : Call ZkeyFilePaths
  | ProofGenerator_new
      (foundPoll : PollHandle) (maciContractAddress0 tallyContractAddress0 : string)
      (tally mp : ZkeyFilePaths) (useQuadraticVoting0 : bool) : Call ProofGeneratorHandle
  | ProofGenerator_generateMpProofs (pg : ProofGeneratorHandle) : Call Proofs
  | ProofGenerator_generateTallyProofs (pg : ProofGeneratorHandle) : Call (Proofs * TallyData).

(** What a run leaves behind: the calls in the order they were made, each
    with its outcome, and the lines given to [logger.error]. *)
Inductive Event :=
  | ECall {A : Type} (c : Call A) (r : Res A)
  | ELog (code : ErrorCodes) (text : string).

(** The world outside: the outcome of a call, which may depend on all that
    happened before it. *)
Definition World := list Event -> forall A, Call A -> Res A.

(** A computation of the service: it reads the world, extends the trace,
    and returns or throws. *)
Definition Svc (A : Type) : Type := World -> list Event -> Res A * list Event.

Definition sret {A} (a : A) : Svc A := fun _ tr => (Ok a, tr).
Definition sthrow {A} (e : Error) : Svc A := fun _ tr => (Err e, tr).
Definition slift {A} (r : Res A) : Svc A := fun _ tr => (r, tr).
Definition sbind {A B} (m : Svc A) (f : A -> Svc B) : Svc B :=
  fun w tr =>
    match m w tr with
    | (Ok a, tr') => f a w tr'
    | (Err e, tr') => (Err e, tr')
    end.

(** [await c] *)
Definition call {A} (c : Call A) : Svc A := fun w tr =>
  let r := w tr A c in (r, tr ++ [ECall c r]).

(** [await Promise.all([c1, c2])]: both calls are made before either is
    awaited.  Which rejection wins when both reject is a matter of timing;
    the model takes the first in array order. *)
Definition call_all2 {A B} (c1 : Call A) (c2 : Call B) : Svc (A * B) := fun w tr =>
  let r1 := w tr A c1 in
  let tr1 := tr ++ [ECall c1 r1] in
  let r2 := w tr1 B c2 in
  let tr2 := tr1 ++ [ECall c2 r2] in
  match r1, r2 with
  | Ok a, Ok b => (Ok (a, b), tr2)
  | Err e, _ => (Err e, tr2)
  | _, Err e => (Err e, tr2)
  end.

(** [this.logger.error(...)] *)
Definition logger_error (code : ErrorCodes) (text : string) : Svc unit := fun _ tr =>
  (Ok tt, tr ++ [ELog code text]).

Notation "'let*' x := m 'in' k" := (sbind m (fun x => k))
  (at level 10, x name, m at level 100, k at level 200, only parsing).
Notation "m ;;; k" := (sbind m (fun _ => k))
  (at level 100, k at level 200, only parsing).

(** [Number(depths[2])]: [undefined] becomes [NaN]. *)
Definition Number_of_index (depths : list Z) (i : nat) : JsNumber :=
  match depths !! i with
  | Some z => Num z
  | None => NaN
  end.

(** [ProofGeneratorService.generate] *)
Definition generate (args : IGenerateArgs) : Svc IGenerateData :=
  let* maciContract := call (Deployment_getContract EContracts_MACI (maciContractAddress args)) in
  let* signer := call Deployment_getDeployer in
  let* pollAddress := call (MACI_polls maciContract (poll args)) in
  if String.eqb (toLowerCase pollAddress) (toLowerCase ZeroAddress) then
    logger_error POLL_NOT_FOUND "Poll not found" ;;;
    sthrow (ServiceError POLL_NOT_FOUND)
  else
  let* pollContract := call (Deployment_getContract EContracts_Poll pollAddress) in
  let* ext := call_all2 (Poll_extContracts pollContract) (Poll_coordinatorPubKey pollContract) in
  let messageAqAddress := fst ext in
  let coordinatorPublicKey := snd ext in
  let* messageAq := call (Deployment_getContract EContracts_AccQueue messageAqAddress) in
  let* isStateAqMerged := call (Poll_stateMerged pollContract) in
  if negb isStateAqMerged then
    logger_error NOT_MERGED_STATE_TREE "state tree is not merged" ;;;
    sthrow (ServiceError NOT_MERGED_STATE_TREE)
  else
  let* depths := call (Poll_treeDepths pollContract) in
  let messageTreeDepth := Number_of_index depths 2 in
  let* mainRoot := call (AccQueue_getMainRoot messageAq (Number_toString messageTreeDepth)) in
  (* mainRoot.toString() === "0" *)
  if (mainRoot =? 0)%Z then
    logger_error NOT_MERGED_MESSAGE_TREE "message tree is not merged" ;;;
    sthrow (ServiceError NOT_MERGED_MESSAGE_TREE)
  else
  let* privateKey := call FileService_getPrivateKey in
  let* plain := call (CryptoService_decrypt privateKey (encryptedCoordinatorPrivateKey args)) in
  let* maciPrivateKey := slift (PrivKey_deserialize plain) in
  let coordinatorKeypair := Keypair_new maciPrivateKey in
  let* publicKey := slift (PubKey_new (fst coordinatorPublicKey) (snd coordinatorPublicKey)) in
  if negb (PubKey_equals (pubKey coordinatorKeypair) publicKey) then
    logger_error PRIVATE_KEY_MISMATCH "wrong private key" ;;;
    sthrow (ServiceError PRIVATE_KEY_MISMATCH)
  else
  let* maciState :=
    call (ProofGenerator_prepareState maciContract pollContract messageAq
            maciPrivateKey coordinatorKeypair (poll args) signer
            (startBlock args) (endBlock args) (blocksPerBatch args)) in
  match maciState !! Z.of_nat (poll args) with
  | None =>
      logger_error POLL_NOT_FOUND "Poll not found in maci state" ;;;
      sthrow (ServiceError POLL_NOT_FOUND)
  | Some foundPoll =>
      let* tally := call (FileService_getZkeyFilePaths "COORDINATOR_TALLY_ZKEY_NAME"
                            (useQuadraticVoting args)) in
      let* mp := call (FileService_getZkeyFilePaths "COORDINATOR_MESSAGE_PROCESS_ZKEY_NAME"
                         (useQuadraticVoting args)) in
      let* proofGenerator :=
        call (ProofGenerator_new foundPoll (maciContractAddress args)
                (tallyContractAddress args) tally mp (useQuadraticVoting args)) in
      let* processProofs0 := call (ProofGenerator_generateMpProofs proofGenerator) in
      let* tallied := call (ProofGenerator_generateTallyProofs proofGenerator) in
      sret {| processProofs := processProofs0;
              tallyProofs := fst tallied;
              tallyData := snd tallied |}
  end.

(** The calls that reach the proof backend. *)
Definition is_backend_call (e : Event) : bool :=
  match e with
  | ECall (ProofGenerator_new _ _ _ _ _ _) _ => true
  | ECall (ProofGenerator_generateMpProofs _) _ => true
  | ECall (ProofGenerator_generateTallyProofs _) _ => true
  | _ => false
  end.

(** The call that scans the chain's events to rebuild the state. *)
Definition is_event_scan (e : Event) : bool :=
  match e with
  | ECall (ProofGenerator_prepareState _ _ _ _ _ _ _ _ _ _) _ => true
  | _ => false
  end.

(** [e] is the poll contract answering [stateMerged()] with [b]. *)
Definition state_merged_reported (b : bool) (e : Event) : bool :=
  match e with
  | ECall c r =>
      match c in Call A return Res A -> bool with
      | Poll_stateMerged _ => fun r =>
          match r with
          | Ok b' => Bool.eqb b b'
          | Err _ => false
          end
      | _ => fun _ => false
      end r
  | ELog _ _ => false
  end.

(** The plaintext [e] carries, if [e] is [cryptoService.decrypt] returning. *)
Definition decrypted (e : Event) : option string :=
  match e with
  | ECall c r =>
      match c in Call A return Res A -> option string with
      | CryptoService_decrypt _ _ => fun r =>
          match r with
          | Ok plain => Some plain
          | Err _ => None
          end
      | _ => fun _ => None
      end r
  | ELog _ _ => None
  end.

(** The key [e] carries, if [e] is the poll contract answering
    [coordinatorPubKey()]. *)
Definition committed_key (e : Event) : option (Z * Z) :=
  match e with
  | ECall c r =>
      match c in Call A return Res A -> option (Z * Z) with
      | Poll_coordinatorPubKey _ => fun r =>
          match r with
          | Ok xy => Some xy
          | Err _ => None
          end
      | _ => fun _ => None
      end r
  | ELog _ _ => None
  end.

(** The address [e] carries, if [e] is the MACI contract answering
    [polls(poll)]. *)
Definition poll_address (e : Event) : option string :=
  match e with
  | ECall c r =>
      match c in Call A return Res A -> option string with
      | MACI_polls _ _ => fun r =>
          match r with
          | Ok a => Some a
          | Err _ => None
          end
      | _ => fun _ => None
      end r
  | ELog _ _ => None
  end.

(** The root [e] carries, if [e] is the message accumulator answering
    [getMainRoot]. *)
Definition main_root (e : Event) : option Z :=
  match e with
  | ECall c r =>
      match c in Call A return Res A -> option Z with
      | AccQueue_getMainRoot _ _ => fun r =>
          match r with
          | Ok z => Some z
          | Err _ => None
          end
      | _ => fun _ => None
      end r
  | ELog _ _ => None
  end.

(** The state [e] carries, if [e] is [ProofGenerator.prepareState]
    returning. *)
Definition prepared (e : Event) : option (gmap Z PollHandle) :=
  match e with
  | ECall c r =>
      match c in Call A return Res A -> option (gmap Z PollHandle) with
      | ProofGenerator_prepareState _ _ _ _ _ _ _ _ _ _ => fun r =>
          match r with
          | Ok st => Some st
          | Err _ => None
          end
      | _ => fun _ => None
      end r
  | ELog _ _ => None
  end.

(** The calls that read the coordinator's private key from its file or
    decrypt it. *)
Definition is_key_use (e : Event) : bool :=
  match e with
  | ECall FileService_getPrivateKey _ => true
  | ECall (CryptoService_decrypt _ _) _ => true
  | _ => false
  end.

(** The error [e] carries, if [e] is a call that was rejected. *)
Definition rejected (e : Event) : option Error :=
  match e with
  | ECall _ (Err x) => Some x
  | _ => None
  end.

(** The code [e] carries, if [e] is a line given to [logger.error]. *)
Definition logged (e : Event) : option ErrorCodes :=
  match e with
  | ELog code _ => Some code
  | ECall _ _ => None
  end.

(** What the [ProofGenerator] is made of, if [e] is its construction: the
    poll, the two addresses and the voting mode. *)
Definition generator_made (e : Event) : option (PollHandle * string * string * bool) :=
  match e with
  | ECall (ProofGenerator_new foundPoll maci tally _ _ qv) _ => Some (foundPoll, maci, tally, qv)
  | _ => None
  end.

(** The proofs [e] carries, if [e] is [generateMpProofs] returning. *)
Definition mp_proofs (e : Event) : option Proofs :=
  match e with
  | ECall c r =>
      match c in Call A return Res A -> option Proofs with
      | ProofGenerator_generateMpProofs _ => fun r =>
          match r with
          | Ok ps => Some ps
          | Err _ => None
          end
      | _ => fun _ => None
      end r
  | ELog _ _ => None
  end.

(** The proofs and the tally [e] carries, if [e] is [generateTallyProofs]
    returning. *)
Definition tally_proofs (e : Event) : option (Proofs * TallyData) :=
  match e with
  | ECall c r =>
      match c in Call A return Res A -> option (Proofs * TallyData) with
      | ProofGenerator_generateTallyProofs _ => fun r =>
          match r with
          | Ok pt => Some pt
          | Err _ => None
          end
      | _ => fun _ => None
      end r
  | ELog _ _ => None
  end.

(** What the event scan was given, if [e] is the call of [prepareState]:
    the private key, the keypair, the poll id, the signer and the three
    block options. *)
Definition scan_args (e : Event) :
    option (PrivKey * Keypair * nat * Signer * (option nat * option nat * option nat)) :=
  match e with
  | ECall (ProofGenerator_prepareState _ _ _ sk kp pollId signer sb eb bpb) _ =>
      Some (sk, kp, pollId, signer, (sb, eb, bpb))
  | _ => None
  end.

(** The signer [e] carries, if [e] is [getDeployer] returning. *)
Definition deployer (e : Event) : option Signer :=
  match e with
  | ECall c r =>
      match c in Call A return Res A -> option Signer with
      | Deployment_getDeployer => fun r =>
          match r with
          | Ok s => Some s
          | Err _ => None
          end
      | _ => fun _ => None
      end r
  | ELog _ _ => None
  end.

End Service.

(** ** Observing a [MaciState] and driving it *)

Section Driving.
Context {D : DomainObjs} {P : PollImpl}.

(** All that can be read through a [MaciState] instance: its own fields and
    the contents of the tree and the two arrays it points to. *)
Record View := {
  view_state : MaciState;
  view_tree : IncrementalQuinTree;
  view_leaves : list StateLeaf;
  view_polls : list (option Poll);
}.

Definition view (h : Heap) (this : loc) : option View :=
  s ← states h !! this;
  t ← trees h !! stateTree s;
  ls ← leafArrays h !! stateLeaves s;
  ps ← pollArrays h !! polls s;
  Some {| view_state := s; view_tree := t; view_leaves := ls; view_polls := ps |}.

(** The mutating methods of the class, as a client calls them. *)
Inductive Op :=
  | OpSignUp (pk : PubKey) (initialVoiceCreditBalance timestamp : Z)
  | OpDeployPoll (pollEndTimestamp : Z) (maxValues : MaxValues) (treeDepths : TreeDepths)
      (messageBatchSize0 : nat) (coordinatorKeypair : Keypair)
  | OpDeployNullPoll.

(** One call; the heap afterwards, whether the call returned or threw. *)
Definition exec_op (this : loc) (o : Op) (h : Heap) : Heap :=
  match o with
  | OpSignUp pk b t => snd (signUp this pk b t h)
  | OpDeployPoll e mv td mbs kp => snd (deployPoll this e mv td mbs kp h)
  | OpDeployNullPoll => snd (deployNullPoll this h)
  end.

Definition exec_ops (this : loc) (os : list Op) (h : Heap) : Heap :=
  foldl (fun h o => exec_op this o h) h os.

Definition is_null_deploy (o : Op) : bool :=
  match o with
  | OpDeployNullPoll => true
  | _ => false
  end.

(** [N] calls of [signUp] in a row, collecting what they return. *)
Fixpoint signUps (this : loc) (args : list (PubKey * Z * Z)) : M (list nat) :=
  match args with
  | [] => ret []
  | (pk, b, t) :: rest =>
      bind (signUp this pk b t) (fun i =>
      bind (signUps this rest) (fun js => ret (i :: js)))
  end.

(** The leaf a sign-up creates and the leaf it stores. *)
Definition leaf_of (a : PubKey * Z * Z) : StateLeaf :=
  StateLeaf_new a.1.1 a.1.2 a.2.

(** [tree.insert(v)] when there is room. *)
Definition tree_push (t : IncrementalQuinTree) (v : Z) : IncrementalQuinTree :=
  {| depth := depth t; zeroValue := zeroValue t; arity := arity t; leaves := leaves t ++ [v] |}.

(** The tree of a new instance: the blank leaf's hash and nothing else. *)
Definition seeded_tree (d : nat) : IncrementalQuinTree :=
  {| depth := d; zeroValue := blankStateLeafHash; arity := STATE_TREE_ARITY;
     leaves := [blankStateLeafHash] |}.

(** The heap a constructor call leaves. *)
Definition heap_after_new (d : nat) (h : Heap) : Heap :=
  {| states := <[fresh (dom (states h)) :=
        {| polls := fresh (dom (pollArrays h)); stateTree := fresh (dom (trees h));
           stateLeaves := fresh (dom (leafArrays h));
           stateTreeDepth := d; numSignUps := 1;
           pollBeingProcessed := None; currentPollBeingProcessed := None |}]> (states h);
     trees := <[fresh (dom (trees h)) := seeded_tree d]> (trees h);
     leafArrays := <[fresh (dom (leafArrays h)) := [blankStateLeaf]]> (leafArrays h);
     pollArrays := <[fresh (dom (pollArrays h)) := []]> (pollArrays h) |}.

(** The heap [copy] and [fromJSON] leave when they return: the instance the
    constructor made, with fresh arrays in place of the constructor's. *)
Definition heap_built (h : Heap) (d num : nat) (pbp : option bool) (cpbp : option JsNumber)
    (t : IncrementalQuinTree) (ls : list StateLeaf) (ps : list (option Poll)) : Heap :=
  let pl := fresh (dom (pollArrays h)) in
  let ll := fresh (dom (leafArrays h)) in
  let la := fresh (dom (<[ll := [blankStateLeaf]]> (leafArrays h))) in
  let pa := fresh (dom (<[pl := []]> (pollArrays h))) in
  {| states := <[fresh (dom (states h)) :=
        {| polls := pa; stateTree := fresh (dom (trees h)); stateLeaves := la;
           stateTreeDepth := d; numSignUps := num;
           pollBeingProcessed := pbp; currentPollBeingProcessed := cpbp |}]> (states h);
     trees := <[fresh (dom (trees h)) := t]> (trees h);
     leafArrays := <[la := ls]> (<[ll := [blankStateLeaf]]> (leafArrays h));
     pollArrays := <[pa := ps]> (<[pl := []]> (pollArrays h)) |}.

(** What the re-insertion loop of [fromJSON] does to the tree. *)
Fixpoint insert_all (t : IncrementalQuinTree) (js : list JsonStateLeaf) : Res IncrementalQuinTree :=
  match js with
  | [] => Ok t
  | j :: rest =>
      res_bind (StateLeaf_fromJSON j) (fun leaf =>
      res_bind (insert t (StateLeaf_hash leaf)) (fun t' => insert_all t' rest))
  end.

(** What [toJSON] writes for [currentPollBeingProcessed]. *)
Definition current_poll_field (n : option JsNumber) : string :=
  match n with
  | Some n => if truthy n then Number_toString n else ""
  | None => ""
  end.

(** The record [toJSON] returns for an instance seen as [v], its polls
    serialised as [jps]. *)
Definition json_of (v : View) (jps : list JsonPoll) : IJsonMaciState :=
  {| json_stateTreeDepth := stateTreeDepth (view_state v);
     json_polls := jps;
     json_stateLeaves := map StateLeaf_toJSON (view_leaves v);
     json_pollBeingProcessed := default false (pollBeingProcessed (view_state v));
     json_currentPollBeingProcessed := current_poll_field (currentPollBeingProcessed (view_state v));
     json_numSignUps := numSignUps (view_state v) |}.

(** [this.polls[i].equals(m.polls[i])] returned [true]. *)
Definition poll_equal (p q : option Poll) : Prop :=
  exists p', p = Some p' /\ Poll_equals p' q = Ok true.

(** The leaves fit the tree the instance was built for. *)
Definition within_capacity (v : View) : Prop :=
  length (view_leaves v) <= STATE_TREE_ARITY ^ stateTreeDepth (view_state v).

(** What holds of an instance however it was driven: the leaves it lists
    are no more than the leaves in its tree, which are no more than the
    tree can hold. *)
Definition tree_covers (v : View) : Prop :=
  length (view_leaves v) <= length (leaves (view_tree v)) /\
  length (leaves (view_tree v)) <= capacity (view_tree v) /\
  capacity (view_tree v) = STATE_TREE_ARITY ^ stateTreeDepth (view_state v).

(** What one call of a mutator does to the instance it is called on, as
    the instance reads before and after: [signUp] counts first and then
    appends to the tree and to [stateLeaves], unless the tree throws;
    the two deployments append to [polls]. *)
Definition after_op (this : loc) (o : Op) (v : View) : View :=
  match o with
  | OpSignUp pk b t =>
      if length (leaves (view_tree v)) <? capacity (view_tree v) then
        {| view_state := set_numSignUps (numSignUps (view_state v) + 1) (view_state v);
           view_tree := tree_push (view_tree v) (StateLeaf_hash (StateLeaf_new pk b t));
           view_leaves := view_leaves v ++ [StateLeaf_copy (StateLeaf_new pk b t)];
           view_polls := view_polls v |}
      else
        {| view_state := set_numSignUps (numSignUps (view_state v) + 1) (view_state v);
           view_tree := view_tree v;
           view_leaves := view_leaves v;
           view_polls := view_polls v |}
  | OpDeployPoll e mv td mbs kp =>
      {| view_state := view_state v;
         view_tree := view_tree v;
         view_leaves := view_leaves v;
         view_polls := view_polls v ++ [Some (Poll_new e kp td
            {| messageBatchSize := mbs;
               subsidyBatchSize := STATE_TREE_ARITY ^ intStateTreeDepth td;
               tallyBatchSize := STATE_TREE_ARITY ^ intStateTreeDepth td |} mv this)] |}
  | OpDeployNullPoll =>
      {| view_state := view_state v;
         view_tree := view_tree v;
         view_leaves := view_leaves v;
         view_polls := view_polls v ++ [None] |}
  end.

(** The calls that count a sign-up. *)
Definition is_signUp (o : Op) : bool :=
  match o with
  | OpSignUp _ _ _ => true
  | _ => false
  end.

(** What a processing index that is undefined, [NaN] or a safe integer
    reads as after [toJSON] and [fromJSON]: an index that is not zero
    survives, anything else comes back as [NaN]. *)
Definition reread (n : option JsNumber) : JsNumber :=
  match n with
  | Some (Num z) => if (z =? 0)%Z then NaN else Num z
  | _ => NaN
  end.

(** The processing indices the round trip is stated for: [undefined],
    [NaN], or an integer that a double holds exactly
    ([Number.isSafeInteger]); a poll's index is one. *)
Definition exact_index (n : option JsNumber) : bool :=
  match n with
  | Some (Num z) => isSafeInteger z
  | _ => true
  end.

(** The calls that take a slot in [polls]. *)
Definition is_deploy (o : Op) : bool :=
  match o with
  | OpSignUp _ _ _ => false
  | _ => true
  end.

(** A heap in which every instance points to objects that exist, no two
    instances share a tree or an array, and every tree was built for its
    instance. *)
Record heap_wf (h : Heap) : Prop := {
  wf_tree : forall l s, states h !! l = Some s ->
      exists t, trees h !! stateTree s = Some t /\
                depth t = stateTreeDepth s /\ arity t = STATE_TREE_ARITY;
  wf_leaves : forall l s, states h !! l = Some s -> is_Some (leafArrays h !! stateLeaves s);
  wf_polls : forall l s, states h !! l = Some s -> is_Some (pollArrays h !! polls s);
  wf_sep : forall l1 l2 s1 s2, states h !! l1 = Some s1 -> states h !! l2 = Some s2 ->
      l1 <> l2 ->
      stateTree s1 <> stateTree s2 /\ stateLeaves s1 <> stateLeaves s2 /\ polls s1 <> polls s2;
}.

End Driving.

(** ** A small instance of the collaborators, to run the model on *)

Module Toy.

Definition leaf : Type := (Z * Z) * Z * Z.

Definition leaf_eqb (a b : leaf) : bool :=
  (a.1.1.1 =? b.1.1.1)%Z && (a.1.1.2 =? b.1.1.2)%Z && (a.1.2 =? b.1.2)%Z && (a.2 =? b.2)%Z.

Definition leaf_hash (a : leaf) : Z :=
  (1 + a.1.1.1 + 7 * a.1.1.2 + 49 * a.1.2 + 343 * a.2)%Z.

#[export] Instance domainobjs : DomainObjs := {|
  PubKey := Z * Z;
  PrivKey := Z;
  Keypair := Z;
  StateLeaf := leaf;
  JsonStateLeaf := leaf;
  PubKey_new := fun x y => Ok (x, y);
  PubKey_equals := fun a b => (a.1 =? b.1)%Z && (a.2 =? b.2)%Z;
  PrivKey_deserialize := fun s =>
    if String.eqb s "" then Err (External "empty key")
    else Ok (Z.of_nat (String.length s));
  Keypair_new := fun sk => sk;
  pubKey := fun kp => (kp, (2 * kp)%Z);
  StateLeaf_new := fun pk b t => (pk, b, t);
  StateLeaf_hash := leaf_hash;
  StateLeaf_copy := fun l => l;
  StateLeaf_equals := leaf_eqb;
  StateLeaf_toJSON := fun l => l;
  StateLeaf_fromJSON := fun j => Ok j;
  blankStateLeaf := ((0, 0), 0, 0)%Z;
  blankStateLeafHash := 1%Z;
|}.

(** A poll that is its end time and the batch size derived for it. *)
#[export] Instance pollimpl : PollImpl := {|
  Poll := Z * nat;
  JsonPoll := Z * nat;
  TreeDepths := nat;
  MaxValues := unit;
  intStateTreeDepth := fun d => d;
  Poll_new := fun e _ _ bs _ _ => (e, tallyBatchSize bs);
  Poll_copy := fun p => p;
  Poll_equals := fun p q =>
    match q with
    | Some q' => Ok ((p.1 =? q'.1)%Z && (p.2 =? q'.2))
    | None => Err TypeError
    end;
  Poll_toJSON := fun p => p;
  Poll_fromJSON := fun j _ => Ok j;
|}.

(** A state of depth one with one voter signed up, in an empty heap. *)
Definition one_signup : Heap :=
  snd (bind (MaciState_new 1) (fun this => signUp this (3, 4)%Z 100%Z 1%Z) empty_heap).

(** The same, and then its copy. *)
Definition one_signup_copied : Res loc * Heap := copy 0 one_signup.

(** The instance at [0] and its copy at [1], the copy marked as
    processing poll [3]. *)
Definition two_states : Heap :=
  snd (bind (update_state 1 (set_pollBeingProcessed (Some true))) (fun _ =>
       update_state 1 (set_currentPollBeingProcessed (Some (Num 3))))
         (snd one_signup_copied)).

(** A state of depth zero: its tree holds one leaf, and the blank leaf
    is in it. *)
Definition full_state : Heap := snd (MaciState_new 0 empty_heap).

(** A state of depth one, fresh. *)
Definition fresh_state : Heap := snd (MaciState_new 1 empty_heap).

(** A well-typed record whose first leaf is a voter's, not the blank one. *)
Definition no_blank_json : IJsonMaciState :=
  {| json_stateTreeDepth := 1;
     json_polls := [];
     json_stateLeaves := [((3, 4), 100, 1)%Z];
     json_pollBeingProcessed := false;
     json_currentPollBeingProcessed := "";
     json_numSignUps := 1 |}.

(** What [toJSON] writes for [one_signup]. *)
Definition one_signup_json : IJsonMaciState :=
  {| json_stateTreeDepth := 1;
     json_polls := [];
     json_stateLeaves := [((0, 0), 0, 0)%Z; ((3, 4), 100, 1)%Z];
     json_pollBeingProcessed := false;
     json_currentPollBeingProcessed := "";
     json_numSignUps := 2 |}.

(** A state of depth one with a null poll deployed. *)
Definition null_poll_state : Heap := snd (deployNullPoll 0 fresh_state).

(** One sign-up and one poll. *)
Definition some_ops : list Op :=
  [OpSignUp (3, 4)%Z 100%Z 1%Z; OpDeployPoll 1000%Z tt 1 5 9%Z].

(** A world for [generate]: every call answers; the poll contract reports
    [merged] and commits to the key [onchain]; decryption gives back the
    ciphertext. *)
Definition world (merged : bool) (onchain : Z * Z) : World :=
  fun _ A c =>
    match c in Call A return Res A with
    | Deployment_getContract name _ =>
        Ok match name with
           | EContracts_MACI => 1
           | EContracts_Poll => 2
           | EContracts_AccQueue => 3
           end
    | Deployment_getDeployer => Ok 7
    | MACI_polls _ _ => Ok "0x00000000000000000000000000000000000000Aa"
    | Poll_extContracts _ => Ok "0x00000000000000000000000000000000000000Bb"
    | Poll_coordinatorPubKey _ => Ok onchain
    | Poll_stateMerged _ => Ok merged
    | Poll_treeDepths _ => Ok [1; 2; 2; 2]%Z
    | AccQueue_getMainRoot _ _ => Ok 99%Z
    | FileService_getPrivateKey => Ok "rsa"
    | CryptoService_decrypt _ ciphertext => Ok ciphertext
    | ProofGenerator_prepareState _ _ _ _ _ _ _ _ _ _ => Ok {[0%Z := 5]}
    | FileService_getZkeyFilePaths envName _ => Ok envName
    | ProofGenerator_new _ _ _ _ _ _ => Ok 11
    | ProofGenerator_generateMpProofs _ => Ok ["mp"]
    | ProofGenerator_generateTallyProofs _ => Ok (["tally"], "data")
    end.

Definition args : IGenerateArgs :=
  {| poll := 0;
     maciContractAddress := "0x00000000000000000000000000000000000000Cc";
     tallyContractAddress := "0x00000000000000000000000000000000000000Dd";
     useQuadraticVoting := true;
     encryptedCoordinatorPrivateKey := "5";
     startBlock := Some 0;
     endBlock := Some 100;
     blocksPerBatch := Some 50 |}.

(** [world true (1, 2)], but for the poll address the MACI contract
    reports, the root the message accumulator reports, the polls of the
    rebuilt state, and the outcome of reading the key file. *)
Definition world_with (address : string) (root : Z) (found : gmap Z PollHandle)
    (keyFile : Res string) : World :=
  fun tr A c =>
    match c in Call A return Res A with
    | MACI_polls _ _ => Ok address
    | AccQueue_getMainRoot _ _ => Ok root
    | ProofGenerator_prepareState _ _ _ _ _ _ _ _ _ _ => Ok found
    | FileService_getPrivateKey => keyFile
    | c' => world true (1, 2)%Z tr _ c'
    end.


(** What [toJSON] writes for the copy in [two_states]. *)
Definition processing_json : IJsonMaciState :=
  {| json_stateTreeDepth := 1;
     json_polls := [];
     json_stateLeaves := [((0, 0), 0, 0)%Z; ((3, 4), 100, 1)%Z];
     json_pollBeingProcessed := true;
     json_currentPollBeingProcessed := "3";
     json_numSignUps := 1 |}.

(** A record of depth zero with two leaves: one more than a tree of that
    depth holds. *)
Definition overfull_json : IJsonMaciState :=
  {| json_stateTreeDepth := 0;
     json_polls := [];
     json_stateLeaves := [((0, 0), 0, 0)%Z; ((3, 4), 100, 1)%Z];
     json_pollBeingProcessed := false;
     json_currentPollBeingProcessed := "";
     json_numSignUps := 2 |}.










End Toy.

(** ** A poll, as far as the spec describes one *)

Module SpecPoll.
Section Model.
Context {D : DomainObjs}.

(** Modelled from the spec: [TreeDepths] of [./utils/types], which is not
    under src: "treeDepths: {state, intermediateState, message}"
    (section 3).  [deployPoll] reads the second as [intStateTreeDepth]. *)
Record tree_depths := {
  state : nat;
  intermediateState : nat;
  message : nat;
}.

(** Modelled from the spec: [MaxValues] of [./utils/types], which is not
    under src.  The spec names the field only; [deployPoll]'s comment calls
    it "the maximum number of values for each vote option". *)
Definition max_values := nat.

(** Modelled from the spec: class [Poll] of [./Poll], which is not under
    src.  Section 3 gives its fields: "{ endTimestamp, coordinatorKeypair
    (public key always known; private key only held by coordinator
    process), treeDepths, batchSizes, maxValues, owningState: non-owning
    back-reference }".  A poll read back from a record holds no keypair
    ([None]), see [of_record].  What a poll does with messages is "a
    related but separately specified component" and is left out: a poll
    that was only deployed has none. *)
Record poll := {
  endTimestamp : Z;
  coordinatorKeypair : option Keypair;
  treeDepths : tree_depths;
  batchSizes : BatchSizes;
  maxValues : max_values;
  owningState : loc;
}.

(** Modelled from the spec: the record of a poll, "each poll serialized
    recursively with its own tree/state fields" (section 6).  The keypair
    is not among them: the private key is "only held by coordinator
    process". *)
Record record := {
  record_endTimestamp : Z;
  record_treeDepths : tree_depths;
  record_batchSizes : BatchSizes;
  record_maxValues : max_values;
}.

(** [new Poll(pollEndTimestamp, coordinatorKeypair, treeDepths,
    batchSizes, maxValues, maciState)], as [deployPoll] calls it. *)
Definition new (e : Z) (kp : Keypair) (td : tree_depths) (bs : BatchSizes)
    (mv : max_values) (ref : loc) : poll :=
  {| endTimestamp := e; coordinatorKeypair := Some kp; treeDepths := td;
     batchSizes := bs; maxValues := mv; owningState := ref |}.

(** Modelled from the spec: "every poll deep-copied".  A poll of the model
    is a value, so its copy is the poll. *)
Definition clone (p : poll) : poll := p.

Definition tree_depths_eqb (a b : tree_depths) : bool :=
  (state a =? state b) && (intermediateState a =? intermediateState b) &&
  (message a =? message b).

Definition batch_sizes_eqb (a b : BatchSizes) : bool :=
  (messageBatchSize a =? messageBatchSize b) &&
  (subsidyBatchSize a =? subsidyBatchSize b) &&
  (tallyBatchSize a =? tallyBatchSize b).

(** Two keypairs are compared by their public keys; a poll without a
    keypair agrees only with another without one. *)
Definition keypair_eqb (a b : option Keypair) : bool :=
  match a, b with
  | Some x, Some y => PubKey_equals (pubKey x) (pubKey y)
  | None, None => true
  | _, _ => false
  end.

(** Modelled from the spec: "each poll's own equality", structural, over
    the fields a poll owns; the back-reference is "non-owning" and is not
    compared.  Reading a field of [null] throws. *)
Definition same (p : poll) (q : option poll) : Res bool :=
  match q with
  | None => Err TypeError
  | Some q' =>
      Ok ((endTimestamp p =? endTimestamp q')%Z &&
          keypair_eqb (coordinatorKeypair p) (coordinatorKeypair q') &&
          tree_depths_eqb (treeDepths p) (treeDepths q') &&
          batch_sizes_eqb (batchSizes p) (batchSizes q') &&
          (maxValues p =? maxValues q'))
  end.

Definition to_record (p : poll) : record :=
  {| record_endTimestamp := endTimestamp p;
     record_treeDepths := treeDepths p;
     record_batchSizes := batchSizes p;
     record_maxValues := maxValues p |}.

(** Modelled from the spec: [Poll.fromJSON(jsonPoll, maciState)], as
    [MaciState.fromJSON] calls it, builds the poll from the record and
    binds it to the owning state; the record has no keypair to give it. *)
Definition of_record (j : record) (ref : loc) : Res poll :=
  Ok {| endTimestamp := record_endTimestamp j;
        coordinatorKeypair := None;
        treeDepths := record_treeDepths j;
        batchSizes := record_batchSizes j;
        maxValues := record_maxValues j;
        owningState := ref |}.

Definition pollimpl : PollImpl :=
  Build_PollImpl D poll record tree_depths max_values
    intermediateState new clone same to_record of_record.

End Model.




End SpecPoll.

(** * Properties *)

(** *** Printing a number and parsing it back *)

Lemma scan_digits_acc d : forall p : positive,
  scan_digits (NilEmpty.string_of_uint d) (Some (N.pos p)) = Some (N.pos (Pos.of_uint_acc d p)).
Proof.
  induction d; intros p; simpl; try reflexivity;
    rewrite <- IHd; do 2 f_equal; lia.
Qed.

Lemma scan_digits_zero d :
  scan_digits (NilEmpty.string_of_uint d) (Some 0%N) = Some (Pos.of_uint d).
Proof.
  induction d; simpl; try reflexivity; try exact IHd; apply scan_digits_acc.
Qed.

Lemma scan_digits_uint d :
  d <> Decimal.Nil ->
  scan_digits (NilEmpty.string_of_uint d) None = Some (Pos.of_uint d).
Proof.
  destruct d; intros Hd; simpl; try congruence;
    first [apply scan_digits_zero | apply scan_digits_acc].
Qed.

Lemma parseInt_uint d :
  d <> Decimal.Nil ->
  parseInt (NilEmpty.string_of_uint d) = Num (Z.of_N (Pos.of_uint d)).
Proof.
  intros Hd. pose proof (scan_digits_uint d Hd) as Hscan.
  unfold parseInt. destruct d; try congruence; simpl in *; rewrite Hscan; reflexivity.
Qed.

Lemma parseInt_neg_uint d :
  d <> Decimal.Nil ->
  parseInt (String "-" (NilEmpty.string_of_uint d)) = Num (- Z.of_N (Pos.of_uint d)).
Proof.
  intros Hd. unfold parseInt. simpl. rewrite (scan_digits_uint d Hd). reflexivity.
Qed.

Lemma string_of_uint_nonnil d :
  d <> Decimal.Nil -> NilZero.string_of_uint d = NilEmpty.string_of_uint d.
Proof. destruct d; intros Hd; [congruence | reflexivity ..]. Qed.

Lemma parseInt_toString z :
  isSafeInteger z = true -> parseInt (Number_toString (Num z)) = Num z.
Proof.
  intros Hsafe. unfold Number_toString. rewrite Hsafe. clear Hsafe.
  destruct z as [|p|p]; simpl.
  - reflexivity.
  - rewrite string_of_uint_nonnil by apply Unsigned.to_uint_nonnil.
    rewrite parseInt_uint by apply Unsigned.to_uint_nonnil.
    rewrite Unsigned.of_to. reflexivity.
  - rewrite string_of_uint_nonnil by apply Unsigned.to_uint_nonnil.
    rewrite parseInt_neg_uint by apply Unsigned.to_uint_nonnil.
    rewrite Unsigned.of_to. reflexivity.
Qed.


Section Facts.
Context {D : DomainObjs} {P : PollImpl}.

Lemma fresh_None {A} (m : gmap loc A) : m !! fresh (dom m) = None.
Proof. apply not_elem_of_dom, is_fresh. Qed.

Lemma fresh_ne {A} (m : gmap loc A) l : is_Some (m !! l) -> l <> fresh (dom m).
Proof. intros [x Hx] ->. rewrite fresh_None in Hx. discriminate. Qed.

Lemma arity_pow_pos d : 0 < STATE_TREE_ARITY ^ d.
Proof. unfold STATE_TREE_ARITY. induction d; simpl; lia. Qed.

Ltac munfold :=
  cbv [bind ret lift throw update_state tree_insert push_leaf push_poll
    get_state get_tree get_leafArray get_pollArray
    put_state put_tree put_leafArray put_pollArray
    new_state new_tree new_leafArray new_pollArray
    with_states with_trees with_leafArrays with_pollArrays]; simpl.

Ltac hstep :=
  first
    [ rewrite lookup_insert_eq
    | match goal with
      | H : ?m !! ?l = Some _ |- context [?m !! ?l] => rewrite H
      | H : ?m !! ?l = None |- context [?m !! ?l] => rewrite H
      end ]; simpl.

Lemma MaciState_new_eq d h :
  MaciState_new d h = (Ok (fresh (dom (states h))), heap_after_new d h).
Proof.
  unfold MaciState_new. munfold. repeat hstep.
  unfold insert, capacity; simpl.
  pose proof (arity_pow_pos d) as Hpos.
  destruct (0 <? STATE_TREE_ARITY ^ d) eqn:E; [|apply Nat.ltb_ge in E; lia].
  simpl. repeat hstep.
  unfold heap_after_new. f_equal. f_equal.
  - rewrite insert_insert_eq. reflexivity.
  - rewrite insert_insert_eq. reflexivity.
  - rewrite insert_insert_eq. reflexivity.
Qed.

Lemma signUp_eq this pk b ts h s t ls :
  states h !! this = Some s ->
  trees h !! stateTree s = Some t ->
  leafArrays h !! stateLeaves s = Some ls ->
  signUp this pk b ts h =
    if length (leaves t) <? capacity t then
      (Ok (length ls),
       {| states := <[this := set_numSignUps (numSignUps s + 1) s]> (states h);
          trees := <[stateTree s := tree_push t (StateLeaf_hash (StateLeaf_new pk b ts))]> (trees h);
          leafArrays := <[stateLeaves s := ls ++ [StateLeaf_copy (StateLeaf_new pk b ts)]]> (leafArrays h);
          pollArrays := pollArrays h |})
    else
      (Err CapacityExceeded, with_states (<[this := set_numSignUps (numSignUps s + 1) s]> (states h)) h).
Proof.
  intros Hs Ht Hl. unfold signUp. munfold. repeat hstep.
  unfold insert. destruct (length (leaves t) <? capacity t); simpl; [|reflexivity].
  repeat hstep. rewrite length_app. simpl. do 2 f_equal. lia.
Qed.

Lemma deployPoll_eq this e mv td mbs kp h s ps :
  states h !! this = Some s ->
  pollArrays h !! polls s = Some ps ->
  deployPoll this e mv td mbs kp h =
    (Ok (length ps),
     with_pollArrays (<[polls s := ps ++ [Some (Poll_new e kp td
        {| messageBatchSize := mbs;
           subsidyBatchSize := STATE_TREE_ARITY ^ intStateTreeDepth td;
           tallyBatchSize := STATE_TREE_ARITY ^ intStateTreeDepth td |} mv this)]]> (pollArrays h)) h).
Proof.
  intros Hs Hp. unfold deployPoll. munfold. repeat hstep.
  rewrite length_app. simpl. do 2 f_equal. lia.
Qed.

Lemma deployNullPoll_eq this h s ps :
  states h !! this = Some s ->
  pollArrays h !! polls s = Some ps ->
  deployNullPoll this h = (Ok tt, with_pollArrays (<[polls s := ps ++ [None]]> (pollArrays h)) h).
Proof.
  intros Hs Hp. unfold deployNullPoll. munfold. repeat hstep. reflexivity.
Qed.


(** *** Reading a view *)

Lemma view_Some h this v :
  view h this = Some v <->
  states h !! this = Some (view_state v) /\
  trees h !! stateTree (view_state v) = Some (view_tree v) /\
  leafArrays h !! stateLeaves (view_state v) = Some (view_leaves v) /\
  pollArrays h !! polls (view_state v) = Some (view_polls v).
Proof.
  unfold view. split.
  - intros Hv.
    destruct (states h !! this) as [s|] eqn:Hs; simpl in Hv; [|discriminate].
    destruct (trees h !! stateTree s) as [t|] eqn:Ht; simpl in Hv; [|discriminate].
    destruct (leafArrays h !! stateLeaves s) as [ls|] eqn:Hl; simpl in Hv; [|discriminate].
    destruct (pollArrays h !! polls s) as [ps|] eqn:Hp; simpl in Hv; [|discriminate].
    injection Hv as <-. simpl. auto.
  - intros (Hs & Ht & Hl & Hp). rewrite Hs. simpl. rewrite Ht. simpl.
    rewrite Hl. simpl. rewrite Hp. simpl. destruct v; reflexivity.
Qed.

Lemma view_intro h this s t ls ps :
  states h !! this = Some s ->
  trees h !! stateTree s = Some t ->
  leafArrays h !! stateLeaves s = Some ls ->
  pollArrays h !! polls s = Some ps ->
  view h this = Some {| view_state := s; view_tree := t; view_leaves := ls; view_polls := ps |}.
Proof. intros. apply view_Some. simpl. auto. Qed.

Lemma heap_wf_view h this s :
  heap_wf h -> states h !! this = Some s ->
  exists v, view h this = Some v /\ view_state v = s /\
            depth (view_tree v) = stateTreeDepth s /\ arity (view_tree v) = STATE_TREE_ARITY.
Proof.
  intros Hwf Hs.
  destruct (wf_tree h Hwf _ _ Hs) as (t & Ht & Hd & Ha).
  destruct (wf_leaves h Hwf _ _ Hs) as [ls Hl].
  destruct (wf_polls h Hwf _ _ Hs) as [ps Hp].
  eexists. split; [apply view_intro; eauto|]. simpl. auto.
Qed.

(** *** What each mutator does to the instance it is called on *)

Lemma signUp_view this pk b ts h v :
  view h this = Some v ->
  length (leaves (view_tree v)) < capacity (view_tree v) ->
  exists h',
    signUp this pk b ts h = (Ok (length (view_leaves v)), h') /\
    view h' this = Some
      {| view_state := set_numSignUps (numSignUps (view_state v) + 1) (view_state v);
         view_tree := tree_push (view_tree v) (StateLeaf_hash (StateLeaf_new pk b ts));
         view_leaves := view_leaves v ++ [StateLeaf_copy (StateLeaf_new pk b ts)];
         view_polls := view_polls v |}.
Proof.
  intros Hv Hcap. apply view_Some in Hv as (Hs & Ht & Hl & Hp).
  rewrite (signUp_eq _ _ _ _ _ _ _ _ Hs Ht Hl).
  apply Nat.ltb_lt in Hcap. rewrite Hcap.
  eexists. split; [reflexivity|].
  apply view_intro; simpl; rewrite ?lookup_insert_eq; auto.
Qed.

Lemma signUp_view_full this pk b ts h v :
  view h this = Some v ->
  capacity (view_tree v) <= length (leaves (view_tree v)) ->
  exists h',
    signUp this pk b ts h = (Err CapacityExceeded, h') /\
    view h' this = Some
      {| view_state := set_numSignUps (numSignUps (view_state v) + 1) (view_state v);
         view_tree := view_tree v;
         view_leaves := view_leaves v;
         view_polls := view_polls v |}.
Proof.
  intros Hv Hcap. apply view_Some in Hv as (Hs & Ht & Hl & Hp).
  rewrite (signUp_eq _ _ _ _ _ _ _ _ Hs Ht Hl).
  apply Nat.ltb_ge in Hcap. rewrite Hcap.
  eexists. split; [reflexivity|].
  apply view_intro; simpl; rewrite ?lookup_insert_eq; auto.
Qed.

Lemma deployPoll_view this e mv td mbs kp h v :
  view h this = Some v ->
  exists h',
    deployPoll this e mv td mbs kp h = (Ok (length (view_polls v)), h') /\
    view h' this = Some
      {| view_state := view_state v;
         view_tree := view_tree v;
         view_leaves := view_leaves v;
         view_polls := view_polls v ++ [Some (Poll_new e kp td
            {| messageBatchSize := mbs;
               subsidyBatchSize := STATE_TREE_ARITY ^ intStateTreeDepth td;
               tallyBatchSize := STATE_TREE_ARITY ^ intStateTreeDepth td |} mv this)] |}.
Proof.
  intros Hv. apply view_Some in Hv as (Hs & Ht & Hl & Hp).
  rewrite (deployPoll_eq _ _ _ _ _ _ _ _ _ Hs Hp).
  eexists. split; [reflexivity|].
  apply view_intro; simpl; rewrite ?lookup_insert_eq; auto.
Qed.

Lemma deployNullPoll_view this h v :
  view h this = Some v ->
  exists h',
    deployNullPoll this h = (Ok tt, h') /\
    view h' this = Some
      {| view_state := view_state v;
         view_tree := view_tree v;
         view_leaves := view_leaves v;
         view_polls := view_polls v ++ [None] |}.
Proof.
  intros Hv. apply view_Some in Hv as (Hs & Ht & Hl & Hp).
  rewrite (deployNullPoll_eq _ _ _ _ Hs Hp).
  eexists. split; [reflexivity|].
  apply view_intro; simpl; rewrite ?lookup_insert_eq; auto.
Qed.

Lemma MaciState_new_view d h :
  view (heap_after_new d h) (fresh (dom (states h))) = Some
    {| view_state :=
         {| polls := fresh (dom (pollArrays h)); stateTree := fresh (dom (trees h));
            stateLeaves := fresh (dom (leafArrays h));
            stateTreeDepth := d; numSignUps := 1;
            pollBeingProcessed := None; currentPollBeingProcessed := None |};
       view_tree :=
         {| depth := d; zeroValue := blankStateLeafHash; arity := STATE_TREE_ARITY;
            leaves := [blankStateLeafHash] |};
       view_leaves := [blankStateLeaf];
       view_polls := [] |}.
Proof. apply view_intro; simpl; rewrite ?lookup_insert_eq; auto. Qed.

(** Allocation leaves every object that was there as it was. *)
Lemma MaciState_new_frame d h other v :
  view h other = Some v -> view (heap_after_new d h) other = Some v.
Proof.
  intros Hv. apply view_Some in Hv as (Hs & Ht & Hl & Hp). apply view_Some.
  unfold heap_after_new; simpl.
  rewrite !lookup_insert_ne; auto using not_eq_sym, fresh_ne.
Qed.


(** *** Sign-ups in a row *)

Lemma signUps_view this args : forall h v,
  view h this = Some v ->
  length (leaves (view_tree v)) + length args <= capacity (view_tree v) ->
  exists h' v',
    signUps this args h = (Ok (seq (length (view_leaves v)) (length args)), h') /\
    view h' this = Some v' /\
    numSignUps (view_state v') = numSignUps (view_state v) + length args /\
    stateTreeDepth (view_state v') = stateTreeDepth (view_state v) /\
    leaves (view_tree v') =
      leaves (view_tree v) ++ map (fun a => StateLeaf_hash (leaf_of a)) args /\
    capacity (view_tree v') = capacity (view_tree v) /\
    view_leaves v' = view_leaves v ++ map (fun a => StateLeaf_copy (leaf_of a)) args /\
    view_polls v' = view_polls v.
Proof.
  induction args as [|[[pk b] t] args IH]; intros h v Hv Hcap; simpl in *.
  - exists h, v. rewrite !app_nil_r, Nat.add_0_r. unfold ret. auto 10.
  - destruct (signUp_view this pk b t h v Hv) as (h1 & Hrun & Hv1); [lia|].
    destruct (IH h1 _ Hv1) as (h2 & v2 & Hrun2 & Hv2 & Hn & Hd & Ht & Hc & Hl & Hp).
    { simpl. rewrite length_app. simpl. unfold capacity in *. simpl. lia. }
    simpl in *. exists h2, v2.
    unfold bind at 1. rewrite Hrun. unfold bind at 1. rewrite Hrun2.
    rewrite length_app in *. simpl in *.
    replace (length (view_leaves v) + 1) with (S (length (view_leaves v))) by lia.
    rewrite <- !app_assoc in *. simpl in *. unfold ret.
    repeat split; auto; try lia.
Qed.

(** *** Well-formed heaps *)

Lemma heap_wf_empty : heap_wf empty_heap.
Proof. split; simpl; intros; simplify_map_eq. Qed.

Lemma wf_unref_tree h a l s :
  heap_wf h -> trees h !! a = None -> states h !! l = Some s -> stateTree s <> a.
Proof.
  intros Hwf Ha Hs E. destruct (wf_tree h Hwf _ _ Hs) as (t & Ht & _). congruence.
Qed.

Lemma wf_unref_leaves h a l s :
  heap_wf h -> leafArrays h !! a = None -> states h !! l = Some s -> stateLeaves s <> a.
Proof.
  intros Hwf Ha Hs E. destruct (wf_leaves h Hwf _ _ Hs) as (t & Ht). congruence.
Qed.

Lemma wf_unref_polls h a l s :
  heap_wf h -> pollArrays h !! a = None -> states h !! l = Some s -> polls s <> a.
Proof.
  intros Hwf Ha Hs E. destruct (wf_polls h Hwf _ _ Hs) as (t & Ht). congruence.
Qed.

Lemma wf_put_leafArray h l xs :
  heap_wf h -> heap_wf (with_leafArrays (<[l := xs]> (leafArrays h)) h).
Proof.
  intros [H1 H2 H3 H4]. split; simpl; auto.
  intros l0 s Hs. destruct (decide (l = stateLeaves s)) as [->|Hne].
  - rewrite lookup_insert_eq. eauto.
  - rewrite lookup_insert_ne by done. eauto.
Qed.

Lemma wf_put_pollArray h l xs :
  heap_wf h -> heap_wf (with_pollArrays (<[l := xs]> (pollArrays h)) h).
Proof.
  intros [H1 H2 H3 H4]. split; simpl; auto.
  intros l0 s Hs. destruct (decide (l = polls s)) as [->|Hne].
  - rewrite lookup_insert_eq. eauto.
  - rewrite lookup_insert_ne by done. eauto.
Qed.

Lemma wf_put_tree h l t :
  heap_wf h ->
  (forall t0, trees h !! l = Some t0 -> depth t = depth t0 /\ arity t = arity t0) ->
  heap_wf (with_trees (<[l := t]> (trees h)) h).
Proof.
  intros [H1 H2 H3 H4] Hsame. split; simpl; auto.
  intros l0 s Hs. destruct (H1 _ _ Hs) as (t0 & Ht0 & Hd & Ha).
  destruct (decide (l = stateTree s)) as [->|Hne].
  - rewrite lookup_insert_eq. destruct (Hsame _ Ht0) as [E1 E2]. exists t. rewrite E1, E2. auto.
  - rewrite lookup_insert_ne by done. eauto.
Qed.

Lemma wf_put_state h this s' :
  heap_wf h ->
  (exists t, trees h !! stateTree s' = Some t /\
             depth t = stateTreeDepth s' /\ arity t = STATE_TREE_ARITY) ->
  is_Some (leafArrays h !! stateLeaves s') ->
  is_Some (pollArrays h !! polls s') ->
  (forall l s, l <> this -> states h !! l = Some s ->
     stateTree s <> stateTree s' /\ stateLeaves s <> stateLeaves s' /\ polls s <> polls s') ->
  heap_wf (with_states (<[this := s']> (states h)) h).
Proof.
  intros [H1 H2 H3 H4] Ht Hl Hp Hsep.
  assert (Hcases : forall l s, <[this := s']> (states h) !! l = Some s ->
            (l = this /\ s = s') \/ (l <> this /\ states h !! l = Some s)).
  { intros l s Hs. destruct (decide (this = l)) as [<-|Hne].
    - rewrite lookup_insert_eq in Hs. left. split; congruence.
    - rewrite lookup_insert_ne in Hs by done. right. split; congruence. }
  split; simpl.
  - intros l s Hs. destruct (Hcases _ _ Hs) as [[-> ->]|[Hne Hs']]; eauto.
  - intros l s Hs. destruct (Hcases _ _ Hs) as [[-> ->]|[Hne Hs']]; eauto.
  - intros l s Hs. destruct (Hcases _ _ Hs) as [[-> ->]|[Hne Hs']]; eauto.
  - intros l1 l2 s1 s2 Hs1 Hs2 Hne.
    destruct (Hcases _ _ Hs1) as [[-> ->]|[Hne1 Hs1']];
      destruct (Hcases _ _ Hs2) as [[-> ->]|[Hne2 Hs2']].
    + done.
    + destruct (Hsep l2 s2) as (? & ? & ?); auto.
    + destruct (Hsep l1 s1) as (? & ? & ?); auto.
    + eauto.
Qed.

(** Rewriting the plain fields of an instance keeps the heap well formed. *)
Lemma wf_put_state_same h this s s' :
  heap_wf h -> states h !! this = Some s ->
  stateTree s' = stateTree s -> stateLeaves s' = stateLeaves s -> polls s' = polls s ->
  stateTreeDepth s' = stateTreeDepth s ->
  heap_wf (with_states (<[this := s']> (states h)) h).
Proof.
  intros Hwf Hs E1 E2 E3 E4. apply wf_put_state; auto; rewrite ?E1, ?E2, ?E3, ?E4.
  - apply (wf_tree h Hwf _ _ Hs).
  - apply (wf_leaves h Hwf _ _ Hs).
  - apply (wf_polls h Hwf _ _ Hs).
  - intros l s0 Hne Hs0. apply (wf_sep h Hwf l this s0 s); auto.
Qed.

Ltac on_heap L :=
  match goal with |- heap_wf (_ _ ?h0) => eapply (L h0) end.

Lemma heap_after_new_wf d h : heap_wf h -> heap_wf (heap_after_new d h).
Proof.
  intros Hwf.
  pose proof (fresh_None (trees h)) as Ft.
  pose proof (fresh_None (leafArrays h)) as Fl.
  pose proof (fresh_None (pollArrays h)) as Fp.
  change (heap_after_new d h) with
    (with_states (<[fresh (dom (states h)) :=
        {| polls := fresh (dom (pollArrays h)); stateTree := fresh (dom (trees h));
           stateLeaves := fresh (dom (leafArrays h));
           stateTreeDepth := d; numSignUps := 1;
           pollBeingProcessed := None; currentPollBeingProcessed := None |}]> (states h))
      (with_trees (<[fresh (dom (trees h)) :=
        {| depth := d; zeroValue := blankStateLeafHash; arity := STATE_TREE_ARITY;
           leaves := [blankStateLeafHash] |}]> (trees h))
      (with_leafArrays (<[fresh (dom (leafArrays h)) := [blankStateLeaf]]> (leafArrays h))
      (with_pollArrays (<[fresh (dom (pollArrays h)) := []]> (pollArrays h)) h)))).
  on_heap wf_put_state.
  - on_heap wf_put_tree; [on_heap wf_put_leafArray; on_heap wf_put_pollArray; exact Hwf|].
    simpl. intros t0 Ht0. congruence.
  - simpl. rewrite lookup_insert_eq. eauto.
  - simpl. rewrite lookup_insert_eq. eauto.
  - simpl. rewrite lookup_insert_eq. eauto.
  - simpl. intros l s _ Hs. repeat split.
    + eapply wf_unref_tree; eauto.
    + eapply wf_unref_leaves; eauto.
    + eapply wf_unref_polls; eauto.
Qed.


(** *** The mutators on a well-formed heap *)

Lemma signUp_no_state this pk b ts h :
  states h !! this = None -> signUp this pk b ts h = (Err TypeError, h).
Proof. intros Hs. unfold signUp. munfold. repeat hstep. reflexivity. Qed.

Lemma deployPoll_no_state this e mv td mbs kp h :
  states h !! this = None -> deployPoll this e mv td mbs kp h = (Err TypeError, h).
Proof. intros Hs. unfold deployPoll. munfold. repeat hstep. reflexivity. Qed.

Lemma deployNullPoll_no_state this h :
  states h !! this = None -> deployNullPoll this h = (Err TypeError, h).
Proof. intros Hs. unfold deployNullPoll. munfold. repeat hstep. reflexivity. Qed.

Lemma exec_op_wf this o h : heap_wf h -> heap_wf (exec_op this o h).
Proof.
  intros Hwf. destruct (states h !! this) as [s|] eqn:Hs.
  - destruct (heap_wf_view h this s Hwf Hs) as (v & Hv & <- & Hd & Ha).
    apply view_Some in Hv as (_ & Ht & Hl & Hp).
    destruct o as [pk b ts|e mv td mbs kp|]; simpl.
    + rewrite (signUp_eq _ _ _ _ _ _ _ _ Hs Ht Hl).
      destruct (length (leaves (view_tree v)) <? capacity (view_tree v)); simpl.
      * change (heap_wf
          (with_states (<[this := set_numSignUps (numSignUps (view_state v) + 1) (view_state v)]> (states h))
          (with_trees (<[stateTree (view_state v) :=
              tree_push (view_tree v) (StateLeaf_hash (StateLeaf_new pk b ts))]> (trees h))
          (with_leafArrays (<[stateLeaves (view_state v) :=
              view_leaves v ++ [StateLeaf_copy (StateLeaf_new pk b ts)]]> (leafArrays h)) h)))).
        on_heap wf_put_state_same; eauto.
        on_heap wf_put_tree; [on_heap wf_put_leafArray; exact Hwf|].
        simpl. intros t0 Ht0. rewrite Ht in Ht0. injection Ht0 as <-. auto.
      * on_heap wf_put_state_same; eauto.
    + rewrite (deployPoll_eq _ _ _ _ _ _ _ _ _ Hs Hp). simpl.
      on_heap wf_put_pollArray. exact Hwf.
    + rewrite (deployNullPoll_eq _ _ _ _ Hs Hp). simpl.
      on_heap wf_put_pollArray. exact Hwf.
  - destruct o; simpl.
    + rewrite signUp_no_state by done. exact Hwf.
    + rewrite deployPoll_no_state by done. exact Hwf.
    + rewrite deployNullPoll_no_state by done. exact Hwf.
Qed.

Lemma exec_ops_wf this os : forall h, heap_wf h -> heap_wf (exec_ops this os h).
Proof.
  unfold exec_ops. induction os as [|o os IH]; intros h Hwf; simpl; auto using exec_op_wf.
Qed.

(** A mutator called on one instance leaves every other instance as it was. *)
Lemma exec_op_frame this other o h v :
  heap_wf h -> this <> other ->
  view h other = Some v -> view (exec_op this o h) other = Some v.
Proof.
  intros Hwf Hne Hv. destruct (states h !! this) as [s|] eqn:Hs.
  - destruct (heap_wf_view h this s Hwf Hs) as (w & Hw & <- & Hd & Ha).
    apply view_Some in Hw as (_ & Ht & Hl & Hp).
    apply view_Some in Hv as (Hs' & Ht' & Hl' & Hp').
    destruct (wf_sep h Hwf _ _ _ _ Hs Hs' Hne) as (N1 & N2 & N3).
    apply view_Some.
    destruct o as [pk b ts|e mv td mbs kp|]; simpl.
    + rewrite (signUp_eq _ _ _ _ _ _ _ _ Hs Ht Hl).
      destruct (length (leaves (view_tree w)) <? capacity (view_tree w)); simpl;
        rewrite ?lookup_insert_ne by done; auto.
    + rewrite (deployPoll_eq _ _ _ _ _ _ _ _ _ Hs Hp). simpl.
      rewrite ?lookup_insert_ne by done; auto.
    + rewrite (deployNullPoll_eq _ _ _ _ Hs Hp). simpl.
      rewrite ?lookup_insert_ne by done; auto.
  - destruct o; simpl.
    + rewrite signUp_no_state by done. exact Hv.
    + rewrite deployPoll_no_state by done. exact Hv.
    + rewrite deployNullPoll_no_state by done. exact Hv.
Qed.

Lemma exec_ops_frame this other os : forall h v,
  heap_wf h -> this <> other ->
  view h other = Some v -> view (exec_ops this os h) other = Some v.
Proof.
  unfold exec_ops. induction os as [|o os IH]; intros h v Hwf Hne Hv; simpl; auto.
  apply IH; auto using exec_op_wf, exec_op_frame.
Qed.


(** *** [equals] *)

Lemma equals_eq this m h vs vm :
  view h this = Some vs -> view h m = Some vm ->
  equals this m h =
    (if negb ((stateTreeDepth (view_state vs) =? stateTreeDepth (view_state vm)) &&
              (length (view_polls vs) =? length (view_polls vm)) &&
              (length (view_leaves vs) =? length (view_leaves vm)))
     then Ok false
     else res_bind (polls_loop (view_polls vs) 0 (view_polls vm)) (fun b =>
          if negb b then Ok false
          else leaves_loop (view_leaves vs) 0 (view_leaves vm)),
     h).
Proof.
  intros Hs Hm.
  apply view_Some in Hs as (Hs & _ & Hl & Hp).
  apply view_Some in Hm as (Hs' & _ & Hl' & Hp').
  unfold equals. munfold. repeat hstep.
  destruct (negb _); [reflexivity|].
  destruct (polls_loop _ _ _) as [[|]|]; simpl; reflexivity.
Qed.

Lemma polls_loop_true ps : forall i mpolls,
  Forall2 poll_equal ps (drop i mpolls) -> polls_loop ps i mpolls = Ok true.
Proof.
  induction ps as [|p ps IH]; intros i mpolls HF; simpl; [reflexivity|].
  inversion HF as [|p0 q ps0 qs (p' & -> & Heq) HF' E1 E2]; subst.
  assert (Hi : mpolls !! i = Some q).
  { rewrite <- (Nat.add_0_r i), <- lookup_drop, <- E2. reflexivity. }
  rewrite Hi. simpl. rewrite Heq. simpl.
  apply IH. replace (S i) with (i + 1) by lia. rewrite <- drop_drop, <- E2. exact HF'.
Qed.

Lemma leaves_loop_true ls : forall i mleaves,
  Forall2 (fun a b => StateLeaf_equals a b = true) ls (drop i mleaves) ->
  leaves_loop ls i mleaves = Ok true.
Proof.
  induction ls as [|l ls IH]; intros i mleaves HF; simpl; [reflexivity|].
  inversion HF as [|l0 q ls0 qs Heq HF' E1 E2]; subst.
  assert (Hi : mleaves !! i = Some q).
  { rewrite <- (Nat.add_0_r i), <- lookup_drop, <- E2. reflexivity. }
  rewrite Hi, Heq.
  apply IH. replace (S i) with (i + 1) by lia. rewrite <- drop_drop, <- E2. exact HF'.
Qed.


(** *** [toJSON] *)

Lemma toJSON_eq this h v :
  view h this = Some v ->
  toJSON this h = (res_bind (mapRes poll_toJSON (view_polls v)) (fun jps => Ok (json_of v jps)), h).
Proof.
  intros Hv. apply view_Some in Hv as (Hs & _ & Hl & Hp).
  unfold toJSON. munfold. repeat hstep.
  destruct (mapRes poll_toJSON (view_polls v)); simpl; [|reflexivity].
  repeat hstep. reflexivity.
Qed.

(** *** The objects a constructor call, [copy] or [fromJSON] builds *)

Lemma heap_built_view h d num pbp cpbp t ls ps :
  exists s,
    view (heap_built h d num pbp cpbp t ls ps) (fresh (dom (states h))) =
      Some {| view_state := s; view_tree := t; view_leaves := ls; view_polls := ps |} /\
    stateTreeDepth s = d /\ numSignUps s = num /\
    pollBeingProcessed s = pbp /\ currentPollBeingProcessed s = cpbp.
Proof.
  exists {| polls := fresh (dom (<[fresh (dom (pollArrays h)) := []]> (pollArrays h)));
            stateTree := fresh (dom (trees h));
            stateLeaves := fresh (dom (<[fresh (dom (leafArrays h)) := [blankStateLeaf]]>
                                        (leafArrays h)));
            stateTreeDepth := d; numSignUps := num;
            pollBeingProcessed := pbp; currentPollBeingProcessed := cpbp |}.
  split.
  - apply view_intro; simpl; rewrite ?lookup_insert_eq; reflexivity.
  - simpl. auto.
Qed.

Lemma heap_built_frame h d num pbp cpbp t ls ps other v :
  view h other = Some v -> view (heap_built h d num pbp cpbp t ls ps) other = Some v.
Proof.
  intros Hv. apply view_Some in Hv as (Hs & Ht & Hl & Hp). apply view_Some.
  unfold heap_built; simpl.
  assert (stateLeaves (view_state v) <> fresh (dom (leafArrays h))) by eauto using fresh_ne.
  assert (polls (view_state v) <> fresh (dom (pollArrays h))) by eauto using fresh_ne.
  repeat split.
  - rewrite lookup_insert_ne; eauto using not_eq_sym, fresh_ne.
  - rewrite lookup_insert_ne; eauto using not_eq_sym, fresh_ne.
  - rewrite lookup_insert_ne; [rewrite lookup_insert_ne; auto|].
    apply not_eq_sym, fresh_ne. rewrite lookup_insert_ne by auto. eauto.
  - rewrite lookup_insert_ne; [rewrite lookup_insert_ne; auto|].
    apply not_eq_sym, fresh_ne. rewrite lookup_insert_ne by auto. eauto.
Qed.

Lemma heap_built_wf h d num pbp cpbp t ls ps :
  heap_wf h -> depth t = d -> arity t = STATE_TREE_ARITY ->
  heap_wf (heap_built h d num pbp cpbp t ls ps).
Proof.
  intros Hwf Hd Ha.
  set (pl := fresh (dom (pollArrays h))).
  set (ll := fresh (dom (leafArrays h))).
  set (la := fresh (dom (<[ll := [blankStateLeaf]]> (leafArrays h)))).
  set (pa := fresh (dom (<[pl := []]> (pollArrays h)))).
  change (heap_built h d num pbp cpbp t ls ps) with
    (with_states (<[fresh (dom (states h)) :=
        {| polls := pa; stateTree := fresh (dom (trees h)); stateLeaves := la;
           stateTreeDepth := d; numSignUps := num;
           pollBeingProcessed := pbp; currentPollBeingProcessed := cpbp |}]> (states h))
      (with_trees (<[fresh (dom (trees h)) := t]> (trees h))
      (with_leafArrays (<[la := ls]> (<[ll := [blankStateLeaf]]> (leafArrays h)))
      (with_pollArrays (<[pa := ps]> (<[pl := []]> (pollArrays h))) h)))).
  on_heap wf_put_state.
  - on_heap wf_put_tree.
    + change (heap_wf
        (with_leafArrays (<[la := ls]> (leafArrays
           (with_leafArrays (<[ll := [blankStateLeaf]]> (leafArrays h))
           (with_pollArrays (<[pa := ps]> (pollArrays
              (with_pollArrays (<[pl := []]> (pollArrays h)) h)))
              (with_pollArrays (<[pl := []]> (pollArrays h)) h)))))
           (with_leafArrays (<[ll := [blankStateLeaf]]> (leafArrays h))
           (with_pollArrays (<[pa := ps]> (pollArrays
              (with_pollArrays (<[pl := []]> (pollArrays h)) h)))
              (with_pollArrays (<[pl := []]> (pollArrays h)) h))))).
      on_heap wf_put_leafArray. on_heap wf_put_leafArray.
      on_heap wf_put_pollArray. on_heap wf_put_pollArray. exact Hwf.
    + simpl. intros t0 Ht0. rewrite fresh_None in Ht0. discriminate.
  - simpl. rewrite lookup_insert_eq. eauto.
  - simpl. rewrite lookup_insert_eq. eauto.
  - simpl. rewrite lookup_insert_eq. eauto.
  - simpl. intros l s _ Hs. repeat split.
    + eapply wf_unref_tree; eauto using fresh_None.
    + intros E. destruct (wf_leaves h Hwf _ _ Hs) as [xs Hxs].
      assert (Hin : is_Some (<[ll := [blankStateLeaf]]> (leafArrays h) !! stateLeaves s)).
      { destruct (decide (ll = stateLeaves s)) as [->|Hne].
        - rewrite lookup_insert_eq. eauto.
        - rewrite lookup_insert_ne by done. eauto. }
      apply fresh_ne in Hin. fold la in Hin. congruence.
    + intros E. destruct (wf_polls h Hwf _ _ Hs) as [xs Hxs].
      assert (Hin : is_Some (<[pl := []]> (pollArrays h) !! polls s)).
      { destruct (decide (pl = polls s)) as [->|Hne].
        - rewrite lookup_insert_eq. eauto.
        - rewrite lookup_insert_ne by done. eauto. }
      apply fresh_ne in Hin. fold pa in Hin. congruence.
Qed.


Lemma lookup_after_fresh {A} (m : gmap loc A) l x y :
  m !! l = Some x -> <[fresh (dom m) := y]> m !! l = Some x.
Proof. intros H. rewrite lookup_insert_ne; eauto using not_eq_sym, fresh_ne. Qed.

(** *** [copy] *)

Lemma copy_run this h v :
  view h this = Some v ->
  match mapRes poll_copy (view_polls v) with
  | Ok ps' =>
      copy this h =
        (Ok (fresh (dom (states h))),
         heap_built h (stateTreeDepth (view_state v)) 1 None None
           (seeded_tree (stateTreeDepth (view_state v)))
           (map StateLeaf_copy (view_leaves v)) ps')
  | Err e => exists h', copy this h = (Err e, h')
  end.
Proof.
  intros Hv. apply view_Some in Hv as (Hs & _ & Hl & Hp).
  destruct (mapRes poll_copy (view_polls v)) as [ps'|e] eqn:E;
    [|eexists];
    unfold copy; unfold bind at 1; unfold get_state at 1; rewrite Hs;
    unfold bind at 1; rewrite MaciState_new_eq;
    unfold heap_after_new;
    munfold;
    rewrite (lookup_after_fresh _ _ _ _ Hl); simpl;
    rewrite lookup_insert_eq; simpl;
    rewrite (lookup_after_fresh _ _ _ _ Hp); simpl;
    rewrite E; simpl.
  - rewrite lookup_insert_eq. simpl.
    unfold heap_built, seeded_tree. simpl. rewrite !insert_insert_eq. reflexivity.
  - reflexivity.
Qed.

(** *** [fromJSON] *)

Lemma with_trees_id h l t : trees h !! l = Some t -> with_trees (<[l := t]> (trees h)) h = h.
Proof. intros H. rewrite insert_id by done. destruct h; reflexivity. Qed.

Lemma reinsert_run maciState js : forall h s t,
  states h !! maciState = Some s ->
  trees h !! stateTree s = Some t ->
  match insert_all t js with
  | Ok t' => reinsert maciState js h = (Ok tt, with_trees (<[stateTree s := t']> (trees h)) h)
  | Err e => exists h', reinsert maciState js h = (Err e, h')
  end.
Proof.
  induction js as [|j js IH]; intros h s t Hs Ht; simpl.
  - unfold ret. rewrite with_trees_id by done. reflexivity.
  - munfold. destruct (StateLeaf_fromJSON j) as [leaf|e]; simpl; [|eauto].
    repeat hstep.
    destruct (insert t (StateLeaf_hash leaf)) as [t1|e]; simpl; [|eauto].
    specialize (IH (with_trees (<[stateTree s := t1]> (trees h)) h) s t1 Hs).
    simpl in IH. rewrite lookup_insert_eq in IH. specialize (IH eq_refl).
    unfold with_trees in IH. simpl in IH.
    destruct (insert_all t1 js) as [t'|e].
    + rewrite IH. rewrite insert_insert_eq. reflexivity.
    + destruct IH as [h' ->]. eauto.
Qed.

Lemma fromJSON_cases json h :
  let d := json_stateTreeDepth json in
  let maciState := fresh (dom (states h)) in
  exists hx,
    fromJSON json h =
      match mapRes StateLeaf_fromJSON (json_stateLeaves json) with
      | Err e => (Err e, hx)
      | Ok ls =>
          match insert_all (seeded_tree d) (drop 1 (json_stateLeaves json)) with
          | Err e => (Err e, hx)
          | Ok t' =>
              match mapRes (fun jsonPoll => Poll_fromJSON jsonPoll maciState) (json_polls json) with
              | Err e => (Err e, hx)
              | Ok ps =>
                  (Ok maciState,
                   heap_built h d (json_numSignUps json)
                     (Some (json_pollBeingProcessed json))
                     (Some (parseInt (json_currentPollBeingProcessed json)))
                     t' ls (map Some ps))
              end
          end
      end.
Proof.
  intros d maciState.
  assert (Hstart : fromJSON json h =
    match mapRes StateLeaf_fromJSON (json_stateLeaves json) with
    | Err e => (Err e, heap_after_new d h)
    | Ok ls =>
        bind (reinsert maciState (drop 1 (json_stateLeaves json))) (fun _ =>
        bind (lift (mapRes (fun jsonPoll => Poll_fromJSON jsonPoll maciState) (json_polls json)))
          (fun ps =>
        bind (new_pollArray (map Some ps)) (fun pollsArr =>
        bind (update_state maciState (set_polls pollsArr)) (fun _ => ret maciState))))
        {| states := <[maciState :=
              {| polls := fresh (dom (pollArrays h)); stateTree := fresh (dom (trees h));
                 stateLeaves := fresh (dom (<[fresh (dom (leafArrays h)) := [blankStateLeaf]]>
                                             (leafArrays h)));
                 stateTreeDepth := d; numSignUps := json_numSignUps json;
                 pollBeingProcessed := Some (json_pollBeingProcessed json);
                 currentPollBeingProcessed :=
                   Some (parseInt (json_currentPollBeingProcessed json)) |}]> (states h);
           trees := <[fresh (dom (trees h)) := seeded_tree d]> (trees h);
           leafArrays :=
             <[fresh (dom (<[fresh (dom (leafArrays h)) := [blankStateLeaf]]> (leafArrays h)))
               := ls]> (<[fresh (dom (leafArrays h)) := [blankStateLeaf]]> (leafArrays h));
           pollArrays := <[fresh (dom (pollArrays h)) := []]> (pollArrays h) |}
    end).
  { unfold fromJSON. unfold bind at 1. rewrite MaciState_new_eq. fold d maciState.
    unfold bind at 1. unfold lift at 1.
    destruct (mapRes StateLeaf_fromJSON (json_stateLeaves json)) as [ls|e]; [|reflexivity].
    set (body := bind (reinsert maciState (drop 1 (json_stateLeaves json))) _).
    munfold. unfold heap_after_new. simpl. fold maciState.
    repeat hstep. rewrite !insert_insert_eq. reflexivity. }
  rewrite Hstart. clear Hstart.
  destruct (mapRes StateLeaf_fromJSON (json_stateLeaves json)) as [ls|e]; [|eauto].
  match goal with
  | |- context [bind _ _ ?h1] =>
      pose proof (reinsert_run maciState (drop 1 (json_stateLeaves json)) h1 _
                    (seeded_tree d) (lookup_insert_eq _ _ _)) as Hre;
      simpl in Hre; rewrite lookup_insert_eq in Hre; specialize (Hre eq_refl)
  end.
  unfold bind at 1.
  destruct (insert_all (seeded_tree d) (drop 1 (json_stateLeaves json))) as [t'|e].
  - rewrite Hre.
    destruct (mapRes _ (json_polls json)) as [ps|e].
    + exists h. munfold. repeat hstep.
      unfold heap_built. simpl. rewrite !insert_insert_eq. reflexivity.
    + eexists. munfold. reflexivity.
  - destruct Hre as [h' ->]. eauto.
Qed.


(** *** Maps that may throw *)

Lemma mapRes_length {A B} (f : A -> Res B) xs : forall ys,
  mapRes f xs = Ok ys -> length ys = length xs.
Proof.
  induction xs as [|x xs IH]; intros ys H; simpl in H.
  - injection H as <-. reflexivity.
  - destruct (f x) as [y|]; simpl in H; [|discriminate].
    destruct (mapRes f xs) as [ys'|]; simpl in H; [|discriminate].
    injection H as <-. simpl. f_equal. auto.
Qed.

Lemma mapRes_drop {A B} (f : A -> Res B) n : forall xs ys,
  mapRes f xs = Ok ys -> mapRes f (drop n xs) = Ok (drop n ys).
Proof.
  induction n as [|n IH]; intros xs ys H; [rewrite !drop_0; exact H|].
  destruct xs as [|x xs]; simpl in H.
  - injection H as <-. reflexivity.
  - destruct (f x) as [y|]; simpl in H; [|discriminate].
    destruct (mapRes f xs) as [ys'|] eqn:E; simpl in H; [|discriminate].
    injection H as <-. simpl. auto.
Qed.

(** Mapping a decoder over what an encoder wrote. *)
Lemma mapRes_map {A B C} (f : B -> Res C) (g : A -> B) (R : C -> A -> Prop) xs :
  (forall x, exists y, f (g x) = Ok y /\ R y x) ->
  exists ys, mapRes f (map g xs) = Ok ys /\ Forall2 R ys xs.
Proof.
  intros Hfg. induction xs as [|x xs (ys & Hys & HR)]; simpl.
  - exists []. split; [reflexivity|constructor].
  - destruct (Hfg x) as (y & Hy & Hr). rewrite Hy, Hys. simpl.
    exists (y :: ys). split; [reflexivity|constructor; assumption].
Qed.

Lemma mapRes_map_in {A B C} (f : B -> Res C) (g : A -> B) (R : C -> A -> Prop) xs :
  (forall x, In x xs -> exists y, f (g x) = Ok y /\ R y x) ->
  exists ys, mapRes f (map g xs) = Ok ys /\ Forall2 R ys xs.
Proof.
  induction xs as [|x xs IH]; intros Hfg; simpl.
  - exists []. split; [reflexivity|constructor].
  - destruct (Hfg x) as (y & Hy & Hr); [left; reflexivity|].
    destruct IH as (ys & Hys & HR); [intros x' Hx'; apply Hfg; right; exact Hx'|].
    rewrite Hy, Hys. simpl.
    exists (y :: ys). split; [reflexivity|constructor; assumption].
Qed.

Lemma mapRes_poll_toJSON ps jps :
  mapRes poll_toJSON ps = Ok jps ->
  exists qs, ps = map Some qs /\ jps = map Poll_toJSON qs.
Proof.
  revert jps. induction ps as [|p ps IH]; intros jps H; simpl in H.
  - injection H as <-. exists []. auto.
  - destruct p as [p|]; simpl in H; [|discriminate].
    destruct (mapRes poll_toJSON ps) as [jps'|]; simpl in H; [|discriminate].
    injection H as <-. destruct (IH _ eq_refl) as (qs & -> & ->).
    exists (p :: qs). auto.
Qed.

Lemma mapRes_poll_toJSON_Some qs :
  mapRes poll_toJSON (map Some qs) = Ok (map Poll_toJSON qs).
Proof. induction qs as [|q qs IH]; simpl; [|rewrite IH]; reflexivity. Qed.

(** *** The re-insertion loop *)

Lemma insert_all_ok js : forall t ls,
  mapRes StateLeaf_fromJSON js = Ok ls ->
  length (leaves t) + length js <= capacity t ->
  insert_all t js =
    Ok {| depth := depth t; zeroValue := zeroValue t; arity := arity t;
          leaves := leaves t ++ map StateLeaf_hash ls |}.
Proof.
  induction js as [|j js IH]; intros t ls Hls Hcap; simpl in *.
  - injection Hls as <-. simpl. rewrite app_nil_r. destruct t; reflexivity.
  - destruct (StateLeaf_fromJSON j) as [l|]; simpl in *; [|discriminate].
    destruct (mapRes StateLeaf_fromJSON js) as [ls'|]; simpl in *; [|discriminate].
    injection Hls as <-.
    unfold insert. destruct (length (leaves t) <? capacity t) eqn:E;
      [|apply Nat.ltb_ge in E; lia].
    simpl. rewrite (IH _ ls' eq_refl).
    + simpl. rewrite <- app_assoc. reflexivity.
    + unfold capacity in *. simpl. rewrite length_app. simpl. lia.
Qed.

Lemma insert_all_inv js : forall t t',
  insert_all t js = Ok t' ->
  exists ls, mapRes StateLeaf_fromJSON js = Ok ls /\
    t' = {| depth := depth t; zeroValue := zeroValue t; arity := arity t;
            leaves := leaves t ++ map StateLeaf_hash ls |}.
Proof.
  induction js as [|j js IH]; intros t t' H; simpl in *.
  - injection H as <-. exists []. simpl. rewrite app_nil_r. destruct t; auto.
  - destruct (StateLeaf_fromJSON j) as [l|]; simpl in *; [|discriminate].
    unfold insert in H. destruct (length (leaves t) <? capacity t); simpl in H; [|discriminate].
    destruct (IH _ _ H) as (ls & Hls & ->). rewrite Hls. simpl.
    exists (l :: ls). simpl. rewrite <- app_assoc. auto.
Qed.


(** *** What [copy] returns *)

Lemma copy_view this h c h' v :
  view h this = Some v ->
  copy this h = (Ok c, h') ->
  c = fresh (dom (states h)) /\
  (exists ps' s,
     mapRes poll_copy (view_polls v) = Ok ps' /\
     view h' c = Some {| view_state := s;
                         view_tree := seeded_tree (stateTreeDepth (view_state v));
                         view_leaves := map StateLeaf_copy (view_leaves v);
                         view_polls := ps' |} /\
     stateTreeDepth s = stateTreeDepth (view_state v) /\
     numSignUps s = 1 /\
     pollBeingProcessed s = None /\ currentPollBeingProcessed s = None) /\
  (forall other w, view h other = Some w -> view h' other = Some w) /\
  (heap_wf h -> heap_wf h').
Proof.
  intros Hv Hrun. pose proof (copy_run this h v Hv) as Hc.
  destruct (mapRes poll_copy (view_polls v)) as [ps'|e].
  - rewrite Hc in Hrun. injection Hrun as <- <-.
    split; [reflexivity|]. split; [|split].
    + destruct (heap_built_view h (stateTreeDepth (view_state v)) 1 None None
                  (seeded_tree (stateTreeDepth (view_state v)))
                  (map StateLeaf_copy (view_leaves v)) ps')
        as (s & Hs & E1 & E2 & E3 & E4).
      exists ps', s. auto 10.
    + intros other w Hw. apply heap_built_frame. exact Hw.
    + intros Hwf. apply heap_built_wf; auto.
  - destruct Hc as [hx Hc]. rewrite Hc in Hrun. discriminate.
Qed.

(** The copy is a different object from its source. *)
Lemma copy_fresh this h c h' v :
  view h this = Some v -> copy this h = (Ok c, h') -> c <> this.
Proof.
  intros Hv Hrun. destruct (copy_view _ _ _ _ _ Hv Hrun) as (-> & _).
  apply view_Some in Hv as (Hs & _). apply not_eq_sym, fresh_ne. eauto.
Qed.

(** Whatever mutators are then called on the copy, the source reads as it
    did before it was copied. *)
Lemma copy_independent this h c h' v os :
  heap_wf h ->
  view h this = Some v ->
  copy this h = (Ok c, h') ->
  view (exec_ops c os h') this = Some v.
Proof.
  intros Hwf Hv Hrun.
  pose proof (copy_fresh _ _ _ _ _ Hv Hrun) as Hne.
  destruct (copy_view _ _ _ _ _ Hv Hrun) as (_ & _ & Hframe & Hwf').
  apply exec_ops_frame; auto.
Qed.

(** And the other way round: mutating the source leaves the copy alone. *)
Lemma copy_independent_source this h c h' v vc os :
  heap_wf h ->
  view h this = Some v ->
  copy this h = (Ok c, h') ->
  view h' c = Some vc ->
  view (exec_ops this os h') c = Some vc.
Proof.
  intros Hwf Hv Hrun Hvc.
  pose proof (copy_fresh _ _ _ _ _ Hv Hrun) as Hne.
  destruct (copy_view _ _ _ _ _ Hv Hrun) as (_ & _ & Hframe & Hwf').
  apply exec_ops_frame; auto.
Qed.

(** *** Instances built by the constructor and the mutators *)

Lemma tree_covers_within v : tree_covers v -> within_capacity v.
Proof. unfold tree_covers, within_capacity. lia. Qed.

Lemma exec_op_view this o h v :
  view h this = Some v -> tree_covers v ->
  exists v', view (exec_op this o h) this = Some v' /\ tree_covers v' /\
    (is_null_deploy o = false ->
       Forall is_Some (view_polls v) -> Forall is_Some (view_polls v')).
Proof.
  intros Hv (C1 & C2 & C3). destruct o as [pk b ts|e mv td mbs kp|]; simpl.
  - destruct (Nat.lt_ge_cases (length (leaves (view_tree v))) (capacity (view_tree v)))
      as [Hlt|Hge].
    + destruct (signUp_view this pk b ts h v Hv Hlt) as (h' & -> & Hv').
      eexists. split; [exact Hv'|]. unfold tree_covers, capacity in *. simpl.
      rewrite !length_app. simpl. repeat split; auto; lia.
    + destruct (signUp_view_full this pk b ts h v Hv Hge) as (h' & -> & Hv').
      eexists. split; [exact Hv'|]. unfold tree_covers. simpl. auto.
  - destruct (deployPoll_view this e mv td mbs kp h v Hv) as (h' & -> & Hv').
    eexists. split; [exact Hv'|]. unfold tree_covers. simpl. repeat split; auto.
    intros _ HF. apply Forall_app. split; [exact HF|]. constructor; eauto.
  - destruct (deployNullPoll_view this h v Hv) as (h' & -> & Hv').
    eexists. split; [exact Hv'|]. unfold tree_covers. simpl. repeat split; auto.
    discriminate.
Qed.

Lemma exec_ops_view this os : forall h v,
  view h this = Some v -> tree_covers v ->
  exists v', view (exec_ops this os h) this = Some v' /\ tree_covers v' /\
    (forallb (fun o => negb (is_null_deploy o)) os = true ->
       Forall is_Some (view_polls v) -> Forall is_Some (view_polls v')).
Proof.
  unfold exec_ops. induction os as [|o os IH]; intros h v Hv Hc; simpl.
  - exists v. auto.
  - destruct (exec_op_view this o h v Hv Hc) as (v1 & Hv1 & Hc1 & Hn1).
    destruct (IH _ _ Hv1 Hc1) as (v2 & Hv2 & Hc2 & Hn2).
    exists v2. split; [exact Hv2|]. split; [exact Hc2|].
    intros Hall HF. apply andb_true_iff in Hall as [Ho Hos].
    apply Hn2; auto. apply Hn1; auto. destruct (is_null_deploy o); auto; discriminate.
Qed.

Lemma new_tree_covers d h :
  exists v, view (heap_after_new d h) (fresh (dom (states h))) = Some v /\
    tree_covers v /\ view_polls v = [] /\ view_leaves v = [blankStateLeaf] /\
    leaves (view_tree v) = [blankStateLeafHash] /\
    stateTreeDepth (view_state v) = d /\ numSignUps (view_state v) = 1.
Proof.
  eexists. split; [apply MaciState_new_view|].
  unfold tree_covers, capacity. simpl. pose proof (arity_pow_pos d). repeat split; auto.
Qed.


(** *** Deserialising what [toJSON] wrote *)

(** The codecs of the leaves and of the polls held give back what was
    serialised, as far as [R] and [Q] can tell. *)
Lemma fromJSON_of_toJSON_on (R : StateLeaf -> StateLeaf -> Prop) (Q : Poll -> Poll -> Prop)
    this h v qs :
  (forall l, exists l', StateLeaf_fromJSON (StateLeaf_toJSON l) = Ok l' /\ R l' l) ->
  (forall p ref, In p qs -> exists p', Poll_fromJSON (Poll_toJSON p) ref = Ok p' /\ Q p' p) ->
  view h this = Some v ->
  within_capacity v ->
  view_polls v = map Some qs ->
  exists ls' ps' t' s,
    toJSON this h = (Ok (json_of v (map Poll_toJSON qs)), h) /\
    fromJSON (json_of v (map Poll_toJSON qs)) h =
      (Ok (fresh (dom (states h))),
       heap_built h (stateTreeDepth (view_state v)) (numSignUps (view_state v))
         (Some (default false (pollBeingProcessed (view_state v))))
         (Some (parseInt (current_poll_field (currentPollBeingProcessed (view_state v)))))
         t' ls' (map Some ps')) /\
    view (heap_built h (stateTreeDepth (view_state v)) (numSignUps (view_state v))
         (Some (default false (pollBeingProcessed (view_state v))))
         (Some (parseInt (current_poll_field (currentPollBeingProcessed (view_state v)))))
         t' ls' (map Some ps')) (fresh (dom (states h))) =
      Some {| view_state := s; view_tree := t'; view_leaves := ls'; view_polls := map Some ps' |} /\
    stateTreeDepth s = stateTreeDepth (view_state v) /\
    numSignUps s = numSignUps (view_state v) /\
    pollBeingProcessed s = Some (default false (pollBeingProcessed (view_state v))) /\
    currentPollBeingProcessed s =
      Some (parseInt (current_poll_field (currentPollBeingProcessed (view_state v)))) /\
    leaves t' = blankStateLeafHash :: map StateLeaf_hash (drop 1 ls') /\
    Forall2 R ls' (view_leaves v) /\
    Forall2 Q ps' qs.
Proof.
  intros Hleaf Hpoll Hv Hcap Hqs.
  destruct (mapRes_map StateLeaf_fromJSON StateLeaf_toJSON R (view_leaves v) Hleaf)
    as (ls' & Hls & HR).
  destruct (mapRes_map_in (fun j => Poll_fromJSON j (fresh (dom (states h)))) Poll_toJSON Q qs
              (fun p => Hpoll p _)) as (ps' & Hps & HQ).
  pose proof (mapRes_length _ _ _ Hls) as Hlen. rewrite length_map in Hlen.
  assert (Hins : insert_all (seeded_tree (stateTreeDepth (view_state v)))
                   (drop 1 (map StateLeaf_toJSON (view_leaves v))) =
                 Ok {| depth := stateTreeDepth (view_state v);
                       zeroValue := blankStateLeafHash; arity := STATE_TREE_ARITY;
                       leaves := [blankStateLeafHash] ++ map StateLeaf_hash (drop 1 ls') |}).
  { apply (insert_all_ok _ (seeded_tree (stateTreeDepth (view_state v)))).
    - apply mapRes_drop. exact Hls.
    - unfold capacity. simpl. rewrite length_drop, length_map.
      unfold within_capacity in Hcap.
      pose proof (arity_pow_pos (stateTreeDepth (view_state v))). lia. }
  destruct (fromJSON_cases (json_of v (map Poll_toJSON qs)) h) as (hx & Hrun).
  simpl in Hrun. rewrite Hls, Hins, Hps in Hrun.
  destruct (heap_built_view h (stateTreeDepth (view_state v)) (numSignUps (view_state v))
              (Some (default false (pollBeingProcessed (view_state v))))
              (Some (parseInt (current_poll_field (currentPollBeingProcessed (view_state v)))))
              {| depth := stateTreeDepth (view_state v);
                 zeroValue := blankStateLeafHash; arity := STATE_TREE_ARITY;
                 leaves := [blankStateLeafHash] ++ map StateLeaf_hash (drop 1 ls') |}
              ls' (map Some ps')) as (s & Hs & E1 & E2 & E3 & E4).
  eexists ls', ps', _, s.
  split; [|split; [exact Hrun|split; [exact Hs|]]].
  - rewrite (toJSON_eq _ _ _ Hv), Hqs, mapRes_poll_toJSON_Some. reflexivity.
  - simpl. auto 10.
Qed.

(** The same, when the codec of polls gives back every poll. *)
Lemma fromJSON_of_toJSON (R : StateLeaf -> StateLeaf -> Prop) (Q : Poll -> Poll -> Prop)
    this h v :
  (forall l, exists l', StateLeaf_fromJSON (StateLeaf_toJSON l) = Ok l' /\ R l' l) ->
  (forall p ref, exists p', Poll_fromJSON (Poll_toJSON p) ref = Ok p' /\ Q p' p) ->
  view h this = Some v ->
  within_capacity v ->
  forall qs, view_polls v = map Some qs ->
  exists ls' ps' t' s,
    toJSON this h = (Ok (json_of v (map Poll_toJSON qs)), h) /\
    fromJSON (json_of v (map Poll_toJSON qs)) h =
      (Ok (fresh (dom (states h))),
       heap_built h (stateTreeDepth (view_state v)) (numSignUps (view_state v))
         (Some (default false (pollBeingProcessed (view_state v))))
         (Some (parseInt (current_poll_field (currentPollBeingProcessed (view_state v)))))
         t' ls' (map Some ps')) /\
    view (heap_built h (stateTreeDepth (view_state v)) (numSignUps (view_state v))
         (Some (default false (pollBeingProcessed (view_state v))))
         (Some (parseInt (current_poll_field (currentPollBeingProcessed (view_state v)))))
         t' ls' (map Some ps')) (fresh (dom (states h))) =
      Some {| view_state := s; view_tree := t'; view_leaves := ls'; view_polls := map Some ps' |} /\
    stateTreeDepth s = stateTreeDepth (view_state v) /\
    numSignUps s = numSignUps (view_state v) /\
    pollBeingProcessed s = Some (default false (pollBeingProcessed (view_state v))) /\
    currentPollBeingProcessed s =
      Some (parseInt (current_poll_field (currentPollBeingProcessed (view_state v)))) /\
    leaves t' = blankStateLeafHash :: map StateLeaf_hash (drop 1 ls') /\
    Forall2 R ls' (view_leaves v) /\
    Forall2 Q ps' qs.
Proof.
  intros Hleaf Hpoll Hv Hcap qs Hqs.
  apply (fromJSON_of_toJSON_on R Q this h v qs); auto.
Qed.


Lemma Forall_is_Some_map {A} (xs : list (option A)) :
  Forall is_Some xs -> exists ys, xs = map Some ys.
Proof.
  induction 1 as [|x xs [y ->] _ (ys & ->)].
  - exists []. reflexivity.
  - exists (y :: ys). reflexivity.
Qed.


Lemma mapRes_lookup {A B} (f : A -> Res B) xs : forall ys i x,
  mapRes f xs = Ok ys -> xs !! i = Some x ->
  exists y, f x = Ok y /\ ys !! i = Some y.
Proof.
  induction xs as [|x0 xs IH]; intros ys i x H Hi; [destruct i; discriminate|].
  simpl in H. destruct (f x0) as [y0|] eqn:E0; simpl in H; [|discriminate].
  destruct (mapRes f xs) as [ys'|]; simpl in H; [|discriminate].
  injection H as <-. destruct i as [|i]; simpl in *.
  - injection Hi as <-. eauto.
  - eapply IH; eauto.
Qed.

Lemma built_view (h0 : Heap) (d : nat) (os : list Op) (this : loc) (h1 : Heap) :
  MaciState_new d h0 = (Ok this, h1) ->
  exists v, view (exec_ops this os h1) this = Some v /\ tree_covers v /\
    (forallb (fun o => negb (is_null_deploy o)) os = true -> Forall is_Some (view_polls v)).
Proof.
  rewrite MaciState_new_eq. intros [= <- <-].
  destruct (new_tree_covers d h0) as (v0 & Hv0 & Hc0 & Hp0 & _).
  destruct (exec_ops_view _ os _ _ Hv0 Hc0) as (v & Hv & Hc & Hn).
  exists v. split; [exact Hv|]. split; [exact Hc|].
  intros Hall. apply Hn; auto. rewrite Hp0. constructor.
Qed.

(** Every instance the constructor and the mutators build has its leaves
    within the capacity of its tree. *)
Lemma built_within_capacity (h0 : Heap) (d : nat) (os : list Op) (this : loc) (h1 : Heap) :
  MaciState_new d h0 = (Ok this, h1) ->
  exists v, view (exec_ops this os h1) this = Some v /\ within_capacity v.
Proof.
  intros Hnew. destruct (built_view h0 d os this h1 Hnew) as (v & Hv & Hc & _).
  eauto using tree_covers_within.
Qed.

(** Every such instance still has the blank leaf first, and [toJSON]
    writes it first. *)
Lemma exec_op_first_leaf this o h v l :
  view h this = Some v -> view_leaves v !! 0 = Some l ->
  exists v', view (exec_op this o h) this = Some v' /\ view_leaves v' !! 0 = Some l.
Proof.
  intros Hv H0. destruct o as [pk b ts|e mv td mbs kp|]; simpl.
  - destruct (Nat.lt_ge_cases (length (leaves (view_tree v))) (capacity (view_tree v)))
      as [Hlt|Hge].
    + destruct (signUp_view this pk b ts h v Hv Hlt) as (h' & -> & Hv').
      eexists. split; [exact Hv'|]. simpl. apply lookup_app_l_Some. exact H0.
    + destruct (signUp_view_full this pk b ts h v Hv Hge) as (h' & -> & Hv').
      eexists. split; [exact Hv'|]. exact H0.
  - destruct (deployPoll_view this e mv td mbs kp h v Hv) as (h' & -> & Hv').
    eexists. split; [exact Hv'|]. exact H0.
  - destruct (deployNullPoll_view this h v Hv) as (h' & -> & Hv').
    eexists. split; [exact Hv'|]. exact H0.
Qed.

Lemma built_first_leaf (h0 : Heap) (d : nat) (os : list Op) (this : loc) (h1 : Heap) :
  MaciState_new d h0 = (Ok this, h1) ->
  exists v, view (exec_ops this os h1) this = Some v /\
    view_leaves v !! 0 = Some blankStateLeaf /\
    forall jps, json_stateLeaves (json_of v jps) !! 0 = Some (StateLeaf_toJSON blankStateLeaf).
Proof.
  rewrite MaciState_new_eq. intros [= <- <-].
  assert (Hgen : forall os h v, view h (fresh (dom (states h0))) = Some v ->
            view_leaves v !! 0 = Some blankStateLeaf ->
            exists v', view (exec_ops (fresh (dom (states h0))) os h)
                         (fresh (dom (states h0))) = Some v' /\
                       view_leaves v' !! 0 = Some blankStateLeaf).
  { clear os. unfold exec_ops. induction os as [|o os IH]; intros h v Hv H0; simpl; eauto.
    destruct (exec_op_first_leaf _ o _ _ _ Hv H0) as (v1 & Hv1 & H1). eauto. }
  destruct (Hgen os _ _ (MaciState_new_view d h0) eq_refl) as (v & Hv & H0).
  exists v. split; [exact Hv|]. split; [exact H0|].
  intros jps. simpl. rewrite list_lookup_fmap, H0. reflexivity.
Qed.


(** ** The claims about [MaciState] *)




(** C4 (as amended): on a freshly constructed [MaciState] whose tree has
    room for them, [N] calls of [signUp] return [1, 2, ..., N]; afterwards
    [stateLeaves] is the blank leaf followed by the copies of the new
    leaves, the tree's leaves are the blank leaf's hash followed by the
    hashes of the new leaves, both in sign-up order, and [numSignUps] is
    [N + 1]. *)
Theorem signUps_on_fresh_state (h : Heap) (d : nat) (args : list (PubKey * Z * Z)) :
  length args < STATE_TREE_ARITY ^ d ->
  exists this h1 h2 v,
    MaciState_new d h = (Ok this, h1) /\
    signUps this args h1 = (Ok (seq 1 (length args)), h2) /\
    view h2 this = Some v /\
    view_leaves v = blankStateLeaf :: map (fun a => StateLeaf_copy (leaf_of a)) args /\
    leaves (view_tree v) =
      blankStateLeafHash :: map (fun a => StateLeaf_hash (leaf_of a)) args /\
    numSignUps (view_state v) = 1 + length args.
Proof.
  intros Hroom. rewrite MaciState_new_eq.
  destruct (new_tree_covers d h) as (v0 & Hv0 & (_ & _ & Hcap) & _ & Hl0 & Ht0 & Hd0 & Hn0).
  destruct (signUps_view (fresh (dom (states h))) args _ _ Hv0)
    as (h2 & v & Hrun & Hv & Hn & _ & Ht & _ & Hl & _).
  { rewrite Hcap, Ht0, Hd0. simpl. lia. }
  rewrite Hl0 in Hrun. simpl in Hrun.
  exists (fresh (dom (states h))), (heap_after_new d h), h2, v.
  rewrite Hl, Hl0, Ht, Ht0, Hn, Hn0. auto 10.
Qed.

(** Each single call, seen on its own: it appends the copy of the new leaf
    to [stateLeaves], the leaf's hash to the tree, adds one to
    [numSignUps], and returns the index of the new leaf. *)
Lemma signUp_one_call this pk b ts h v :
  view h this = Some v ->
  length (leaves (view_tree v)) < capacity (view_tree v) ->
  exists h' v',
    signUp this pk b ts h = (Ok (length (view_leaves v)), h') /\
    view h' this = Some v' /\
    view_leaves v' = view_leaves v ++ [StateLeaf_copy (StateLeaf_new pk b ts)] /\
    leaves (view_tree v') = leaves (view_tree v) ++ [StateLeaf_hash (StateLeaf_new pk b ts)] /\
    numSignUps (view_state v') = numSignUps (view_state v) + 1 /\
    view_polls v' = view_polls v.
Proof.
  intros Hv Hroom. destruct (signUp_view this pk b ts h v Hv Hroom) as (h' & Hrun & Hv').
  eexists _, _. split; [exact Hrun|]. split; [exact Hv'|]. simpl. auto.
Qed.

(** C7: on a well-formed heap, [signUp] on an instance whose tree already
    holds [STATE_TREE_ARITY ^ stateTreeDepth] leaves throws
    [CapacityExceeded] and leaves the tree and [stateLeaves] as they were;
    on an instance whose tree holds fewer it returns. *)
Theorem signUp_capacity (h : Heap) (this : loc) (v : View) (pk : PubKey) (b ts : Z) :
  heap_wf h ->
  view h this = Some v ->
  (length (leaves (view_tree v)) = STATE_TREE_ARITY ^ stateTreeDepth (view_state v) ->
     fst (signUp this pk b ts h) = Err CapacityExceeded /\
     exists v', view (snd (signUp this pk b ts h)) this = Some v' /\
                view_tree v' = view_tree v /\ view_leaves v' = view_leaves v) /\
  (length (leaves (view_tree v)) < STATE_TREE_ARITY ^ stateTreeDepth (view_state v) ->
     exists i, fst (signUp this pk b ts h) = Ok i).
Proof.
  intros Hwf Hv.
  assert (Hcap : capacity (view_tree v) = STATE_TREE_ARITY ^ stateTreeDepth (view_state v)).
  { pose proof Hv as Hv0. apply view_Some in Hv0 as (Hs & Ht & _).
    destruct (wf_tree h Hwf _ _ Hs) as (t & Ht' & Hd & Ha).
    rewrite Ht in Ht'. injection Ht' as <-. unfold capacity. rewrite Hd, Ha. reflexivity. }
  split.
  - intros Hfull.
    destruct (signUp_view_full this pk b ts h v Hv) as (h' & Hrun & Hv'); [lia|].
    rewrite Hrun. simpl. split; [reflexivity|]. eexists. split; [exact Hv'|]. auto.
  - intros Hroom.
    destruct (signUp_view this pk b ts h v Hv) as (h' & Hrun & Hv'); [lia|].
    rewrite Hrun. simpl. eauto.
Qed.

(** C10: when two instances have the same [stateTreeDepth], as many polls
    and as many leaves, and their polls and leaves are pairwise equal by
    their own [equals], [equals] returns [true]; nothing is asked of
    [numSignUps], of the trees, of [pollBeingProcessed] or of
    [currentPollBeingProcessed]. *)
Theorem equals_ignores_bookkeeping (h : Heap) (this m : loc) (vs vm : View) :
  view h this = Some vs ->
  view h m = Some vm ->
  stateTreeDepth (view_state vs) = stateTreeDepth (view_state vm) ->
  Forall2 poll_equal (view_polls vs) (view_polls vm) ->
  Forall2 (fun a b => StateLeaf_equals a b = true) (view_leaves vs) (view_leaves vm) ->
  equals this m h = (Ok true, h).
Proof.
  intros Hs Hm Hd HP HL.
  rewrite (equals_eq _ _ _ _ _ Hs Hm).
  rewrite Hd, (Forall2_length _ _ _ HP), (Forall2_length _ _ _ HL), !Nat.eqb_refl. simpl.
  rewrite polls_loop_true by (rewrite drop_0; exact HP). simpl.
  rewrite leaves_loop_true by (rewrite drop_0; exact HL). reflexivity.
Qed.

(** C6 (as amended): in a freshly constructed [MaciState], and in one that
    [fromJSON] returns for a record whose first leaf is the serialised
    blank leaf, [stateLeaves[0]] is the blank leaf, whose hash is
    [blankStateLeafHash], and the tree's first leaf is [blankStateLeafHash]. *)
Theorem blank_leaf_first :
  StateLeaf_hash blankStateLeaf = blankStateLeafHash ->
  StateLeaf_fromJSON (StateLeaf_toJSON blankStateLeaf) = Ok blankStateLeaf ->
  (forall h d, exists this h' v,
     MaciState_new d h = (Ok this, h') /\ view h' this = Some v /\
     view_leaves v !! 0 = Some blankStateLeaf /\
     StateLeaf_hash <$> view_leaves v !! 0 = Some blankStateLeafHash /\
     leaves (view_tree v) !! 0 = Some blankStateLeafHash) /\
  (forall h json restored h',
     json_stateLeaves json !! 0 = Some (StateLeaf_toJSON blankStateLeaf) ->
     fromJSON json h = (Ok restored, h') ->
     exists v, view h' restored = Some v /\
       view_leaves v !! 0 = Some blankStateLeaf /\
       StateLeaf_hash <$> view_leaves v !! 0 = Some blankStateLeafHash /\
       leaves (view_tree v) !! 0 = Some blankStateLeafHash).
Proof.
  intros Hhash Hblank. split.
  - intros h d. rewrite MaciState_new_eq.
    eexists _, _, _. split; [reflexivity|]. split; [apply MaciState_new_view|].
    simpl. rewrite Hhash. auto.
  - intros h json restored h' H0 Hrun.
    destruct (fromJSON_cases json h) as (hx & Hc). simpl in Hc. rewrite Hc in Hrun.
    destruct (mapRes StateLeaf_fromJSON (json_stateLeaves json)) as [ls|] eqn:Hls;
      [|discriminate].
    destruct (insert_all _ _) as [t'|] eqn:Hins; [|discriminate].
    destruct (mapRes _ (json_polls json)) as [ps|]; [|discriminate].
    injection Hrun as <- <-.
    destruct (mapRes_lookup _ _ _ _ _ Hls H0) as (l & Hl & Hl0).
    rewrite Hblank in Hl. injection Hl as <-.
    destruct (insert_all_inv _ _ _ Hins) as (ls' & _ & ->).
    destruct (heap_built_view h (json_stateTreeDepth json) (json_numSignUps json)
                (Some (json_pollBeingProcessed json))
                (Some (parseInt (json_currentPollBeingProcessed json)))
                {| depth := depth (seeded_tree (json_stateTreeDepth json));
                   zeroValue := zeroValue (seeded_tree (json_stateTreeDepth json));
                   arity := arity (seeded_tree (json_stateTreeDepth json));
                   leaves := leaves (seeded_tree (json_stateTreeDepth json)) ++
                             map StateLeaf_hash ls' |}
                ls (map Some ps)) as (s & Hs & _).
    eexists. split; [exact Hs|]. simpl. rewrite Hl0. simpl. rewrite Hhash. auto.
Qed.


(** *** The count of sign-ups *)

(** [stateLeaves.length == numSignUps] holds of a new instance, ... *)
Lemma count_after_new d h :
  exists v, view (heap_after_new d h) (fresh (dom (states h))) = Some v /\
    length (view_leaves v) = numSignUps (view_state v).
Proof.
  destruct (new_tree_covers d h) as (v & Hv & _ & _ & Hl & _ & _ & Hn).
  exists v. rewrite Hl, Hn. auto.
Qed.

(** ... is kept by every mutator that returns, ... *)
Lemma count_after_op this o h v :
  view h this = Some v ->
  length (view_leaves v) = numSignUps (view_state v) ->
  length (leaves (view_tree v)) < capacity (view_tree v) ->
  exists v', view (exec_op this o h) this = Some v' /\
    length (view_leaves v') = numSignUps (view_state v').
Proof.
  intros Hv Hn Hroom. destruct o as [pk b ts|e mv td mbs kp|]; simpl.
  - destruct (signUp_view this pk b ts h v Hv Hroom) as (h' & -> & Hv').
    eexists. split; [exact Hv'|]. simpl. rewrite length_app. simpl. lia.
  - destruct (deployPoll_view this e mv td mbs kp h v Hv) as (h' & -> & Hv').
    eexists. split; [exact Hv'|]. simpl. exact Hn.
  - destruct (deployNullPoll_view this h v Hv) as (h' & -> & Hv').
    eexists. split; [exact Hv'|]. simpl. exact Hn.
Qed.

(** ... and by [fromJSON], which takes both from the record.  *)
Lemma count_after_fromJSON json h restored h' :
  fromJSON json h = (Ok restored, h') ->
  exists v, view h' restored = Some v /\
    numSignUps (view_state v) = json_numSignUps json /\
    length (view_leaves v) = length (json_stateLeaves json).
Proof.
  intros Hrun. destruct (fromJSON_cases json h) as (hx & Hc). simpl in Hc. rewrite Hc in Hrun.
  destruct (mapRes StateLeaf_fromJSON (json_stateLeaves json)) as [ls|] eqn:Hls;
    [|discriminate].
  destruct (insert_all _ _) as [t'|] eqn:Hins; [|discriminate].
  destruct (mapRes _ (json_polls json)) as [ps|]; [|discriminate].
  injection Hrun as <- <-.
  destruct (heap_built_view h (json_stateTreeDepth json) (json_numSignUps json)
              (Some (json_pollBeingProcessed json))
              (Some (parseInt (json_currentPollBeingProcessed json)))
              t' ls (map Some ps)) as (s & Hs & _ & E & _).
  eexists. split; [exact Hs|]. simpl. split; [exact E|].
  apply (mapRes_length _ _ _ Hls).
Qed.

(** [copy] does not keep it: the copy lists as many leaves as its source
    and counts one sign-up. *)
Lemma count_after_copy this h c h' v :
  view h this = Some v ->
  copy this h = (Ok c, h') ->
  exists vc, view h' c = Some vc /\
    length (view_leaves vc) = length (view_leaves v) /\
    numSignUps (view_state vc) = 1 /\
    leaves (view_tree vc) = [blankStateLeafHash].
Proof.
  intros Hv Hrun.
  destruct (copy_view _ _ _ _ _ Hv Hrun) as (_ & (ps' & s & _ & Hvc & _ & Hn & _) & _).
  eexists. split; [exact Hvc|]. simpl. rewrite length_map. auto.
Qed.


Lemma MaciState_new_wf d h : heap_wf h -> heap_wf (snd (MaciState_new d h)).
Proof. intros Hwf. rewrite MaciState_new_eq. simpl. apply heap_after_new_wf, Hwf. Qed.


(** ** More about the mutators *)

(** The heap methods do to an instance what [after_op] says. *)
Lemma exec_op_after this o h v :
  view h this = Some v -> view (exec_op this o h) this = Some (after_op this o v).
Proof.
  intros Hv. destruct o as [pk b ts|e mv td mbs kp|]; simpl.
  - destruct (length (leaves (view_tree v)) <? capacity (view_tree v)) eqn:E.
    + apply Nat.ltb_lt in E.
      destruct (signUp_view this pk b ts h v Hv E) as (h' & -> & Hv'). exact Hv'.
    + apply Nat.ltb_ge in E.
      destruct (signUp_view_full this pk b ts h v Hv E) as (h' & -> & Hv'). exact Hv'.
  - destruct (deployPoll_view this e mv td mbs kp h v Hv) as (h' & -> & Hv'). exact Hv'.
  - destruct (deployNullPoll_view this h v Hv) as (h' & -> & Hv'). exact Hv'.
Qed.

Lemma exec_ops_after this os : forall h v,
  view h this = Some v ->
  view (exec_ops this os h) this = Some (foldl (fun v o => after_op this o v) v os).
Proof.
  unfold exec_ops. induction os as [|o os IH]; intros h v Hv; simpl; [exact Hv|].
  apply IH, exec_op_after, Hv.
Qed.

Lemma after_op_appends this o v :
  view_leaves v `prefix_of` view_leaves (after_op this o v) /\
  view_polls v `prefix_of` view_polls (after_op this o v) /\
  leaves (view_tree v) `prefix_of` leaves (view_tree (after_op this o v)) /\
  stateTreeDepth (view_state (after_op this o v)) = stateTreeDepth (view_state v) /\
  pollBeingProcessed (view_state (after_op this o v)) = pollBeingProcessed (view_state v) /\
  currentPollBeingProcessed (view_state (after_op this o v)) =
    currentPollBeingProcessed (view_state v).
Proof.
  destruct o as [pk b ts|e mv td mbs kp|]; simpl;
    [destruct (_ <? _); simpl|..]; repeat split; auto using prefix_app_r.
Qed.

(** X1: the mutators only ever append.  Whatever sequence of [signUp],
    [deployPoll] and [deployNullPoll] calls is made on an instance, returning
    or throwing, the [stateLeaves], the [polls] and the tree's leaves it had
    before are still there, in place, at the front of what it has after;
    [stateTreeDepth] and the two processing fields are as they were. *)
Theorem mutators_append_only (this : loc) (os : list Op) (h : Heap) (v : View) :
  view h this = Some v ->
  exists v', view (exec_ops this os h) this = Some v' /\
    view_leaves v `prefix_of` view_leaves v' /\
    view_polls v `prefix_of` view_polls v' /\
    leaves (view_tree v) `prefix_of` leaves (view_tree v') /\
    stateTreeDepth (view_state v') = stateTreeDepth (view_state v) /\
    pollBeingProcessed (view_state v') = pollBeingProcessed (view_state v) /\
    currentPollBeingProcessed (view_state v') = currentPollBeingProcessed (view_state v).
Proof.
  intros Hv. eexists. split; [apply exec_ops_after, Hv|].
  clear Hv h. revert v. induction os as [|o os IH]; intros v; simpl.
  - repeat split; reflexivity.
  - destruct (after_op_appends this o v) as (A1 & A2 & A3 & A4 & A5 & A6).
    destruct (IH (after_op this o v)) as (B1 & B2 & B3 & B4 & B5 & B6).
    repeat split; try (etrans; eassumption); congruence.
Qed.

Lemma polls_after_ops this os : forall v,
  length (view_polls (foldl (fun v o => after_op this o v) v os)) =
  length (view_polls v) + length (List.filter is_deploy os).
Proof.
  induction os as [|o os IH]; intros v; simpl; [lia|].
  rewrite IH.
  destruct o as [pk b ts|e mv td mbs kp|]; simpl.
  - destruct (_ <? _); simpl; lia.
  - rewrite length_app. simpl. lia.
  - rewrite length_app. simpl. lia.
Qed.

(** X2: [deployPoll] returns the number of deployments made before it on
    the instance, null polls counted and sign-ups not: after any sequence
    of mutator calls on a fresh instance, its result is the number of
    [deployPoll] and [deployNullPoll] calls in the sequence, and the poll
    it stores there gets [subsidyBatchSize] and [tallyBatchSize] both
    [STATE_TREE_ARITY ^ intStateTreeDepth]. *)
Theorem deployPoll_index (h0 : Heap) (d : nat) (os : list Op) (this : loc) (h1 : Heap)
    (e : Z) (mv : MaxValues) (td : TreeDepths) (mbs : nat) (kp : Keypair) :
  MaciState_new d h0 = (Ok this, h1) ->
  let n := length (List.filter is_deploy os) in
  let h := exec_ops this os h1 in
  fst (deployPoll this e mv td mbs kp h) = Ok n /\
  exists v', view (snd (deployPoll this e mv td mbs kp h)) this = Some v' /\
    view_polls v' !! n =
      Some (Some (Poll_new e kp td
        {| messageBatchSize := mbs;
           subsidyBatchSize := STATE_TREE_ARITY ^ intStateTreeDepth td;
           tallyBatchSize := STATE_TREE_ARITY ^ intStateTreeDepth td |} mv this)).
Proof.
  rewrite MaciState_new_eq. intros [= <- <-] n h.
  pose proof (exec_ops_after _ os _ _ (MaciState_new_view d h0)) as Hv. fold h in Hv.
  set (v := foldl _ _ os) in Hv.
  assert (Hn : length (view_polls v) = n).
  { unfold v. rewrite polls_after_ops. reflexivity. }
  destruct (deployPoll_view _ e mv td mbs kp h v Hv) as (h' & Hrun & Hv').
  rewrite Hrun. simpl. split; [congruence|].
  eexists. split; [exact Hv'|]. simpl.
  rewrite lookup_app_r by lia. rewrite Hn, Nat.sub_diag. reflexivity.
Qed.


(** ** Null polls *)

Lemma mapRes_poll_copy_None ps :
  In None ps -> mapRes poll_copy ps = Err TypeError.
Proof.
  induction ps as [|p ps IH]; intros Hin; [destruct Hin|].
  destruct p as [p|]; simpl; [|reflexivity].
  destruct Hin as [Hp|Hin]; [discriminate|]. rewrite (IH Hin). reflexivity.
Qed.

Lemma mapRes_poll_toJSON_None ps :
  In None ps -> mapRes poll_toJSON ps = Err TypeError.
Proof.
  induction ps as [|p ps IH]; intros Hin; [destruct Hin|].
  destruct p as [p|]; simpl; [|reflexivity].
  destruct Hin as [Hp|Hin]; [discriminate|]. rewrite (IH Hin). reflexivity.
Qed.

(** X3: an instance that holds a null poll, as [deployNullPoll] leaves
    one, can be neither copied nor serialised: [copy] and [toJSON] throw a
    [TypeError], and [toJSON] changes nothing. *)
Theorem null_poll_blocks_copy_and_toJSON (h : Heap) (this : loc) (v : View) :
  view h this = Some v ->
  In None (view_polls v) ->
  fst (copy this h) = Err TypeError /\
  toJSON this h = (Err TypeError, h).
Proof.
  intros Hv Hnull. split.
  - pose proof (copy_run this h v Hv) as Hc.
    rewrite (mapRes_poll_copy_None _ Hnull) in Hc. destruct Hc as [h' ->]. reflexivity.
  - rewrite (toJSON_eq _ _ _ Hv), (mapRes_poll_toJSON_None _ Hnull). reflexivity.
Qed.

(** ** [equals] *)

Lemma polls_loop_inv ps : forall i mpolls,
  polls_loop ps i mpolls = Ok true ->
  forall k p, ps !! k = Some p -> poll_equal p (mjoin (mpolls !! (i + k))).
Proof.
  induction ps as [|p0 ps IH]; intros i mpolls Hloop k p Hk; [destruct k; discriminate|].
  simpl in Hloop. destruct p0 as [p0|]; [|discriminate].
  destruct (Poll_equals p0 (mjoin (mpolls !! i))) as [[|]|] eqn:E; simpl in Hloop;
    try discriminate.
  destruct k as [|k]; simpl in Hk.
  - injection Hk as <-. rewrite Nat.add_0_r. exists p0. auto.
  - replace (i + S k) with (S i + k) by lia. eapply IH; eauto.
Qed.

Lemma leaves_loop_inv ls : forall i mleaves,
  leaves_loop ls i mleaves = Ok true ->
  forall k l, ls !! k = Some l ->
    exists l', mleaves !! (i + k) = Some l' /\ StateLeaf_equals l l' = true.
Proof.
  induction ls as [|l0 ls IH]; intros i mleaves Hloop k l Hk; [destruct k; discriminate|].
  simpl in Hloop. destruct (mleaves !! i) as [l'|] eqn:Ei; [|discriminate].
  destruct (StateLeaf_equals l0 l') eqn:E; [|discriminate].
  destruct k as [|k]; simpl in Hk.
  - injection Hk as <-. rewrite Nat.add_0_r. eauto.
  - replace (i + S k) with (S i + k) by lia. eapply IH; eauto.
Qed.

(** X4: [equals] answers [true] only for instances of the same
    [stateTreeDepth] whose polls and whose leaves are as many and pairwise
    equal by their own [equals], no poll of the receiver being null. *)
Theorem equals_true_inv (h h' : Heap) (this m : loc) (vs vm : View) :
  view h this = Some vs ->
  view h m = Some vm ->
  equals this m h = (Ok true, h') ->
  stateTreeDepth (view_state vs) = stateTreeDepth (view_state vm) /\
  Forall2 poll_equal (view_polls vs) (view_polls vm) /\
  Forall2 (fun a b => StateLeaf_equals a b = true) (view_leaves vs) (view_leaves vm).
Proof.
  intros Hs Hm Hrun. rewrite (equals_eq _ _ _ _ _ Hs Hm) in Hrun.
  injection Hrun as Hr _.
  destruct (stateTreeDepth (view_state vs) =? stateTreeDepth (view_state vm)) eqn:Ed;
    simpl in Hr; [|discriminate].
  destruct (length (view_polls vs) =? length (view_polls vm)) eqn:Ep;
    simpl in Hr; [|discriminate].
  destruct (length (view_leaves vs) =? length (view_leaves vm)) eqn:El;
    simpl in Hr; [|discriminate].
  apply Nat.eqb_eq in Ed, Ep, El.
  destruct (polls_loop (view_polls vs) 0 (view_polls vm)) as [[|]|] eqn:Hpl;
    simpl in Hr; try discriminate.
  split; [exact Ed|]. split.
  - apply Forall2_same_length_lookup_2; [exact Ep|].
    intros k p q Hp Hq. pose proof (polls_loop_inv _ _ _ Hpl k p Hp) as Hpq.
    simpl in Hpq. rewrite Hq in Hpq. exact Hpq.
  - apply Forall2_same_length_lookup_2; [exact El|].
    intros k a b Ha Hb. destruct (leaves_loop_inv _ _ _ Hr k a Ha) as (b' & Hb' & Hab).
    simpl in Hb'. congruence.
Qed.

(** X5: when the two instances differ in [stateTreeDepth], in the number
    of polls or in the number of leaves, [equals] returns [false] without
    looking at any element, so also when polls are null. *)
Theorem equals_shape_mismatch (h : Heap) (this m : loc) (vs vm : View) :
  view h this = Some vs ->
  view h m = Some vm ->
  stateTreeDepth (view_state vs) <> stateTreeDepth (view_state vm) \/
  length (view_polls vs) <> length (view_polls vm) \/
  length (view_leaves vs) <> length (view_leaves vm) ->
  equals this m h = (Ok false, h).
Proof.
  intros Hs Hm Hne. rewrite (equals_eq _ _ _ _ _ Hs Hm).
  assert (E : (stateTreeDepth (view_state vs) =? stateTreeDepth (view_state vm)) &&
              (length (view_polls vs) =? length (view_polls vm)) &&
              (length (view_leaves vs) =? length (view_leaves vm)) = false).
  { destruct Hne as [H|[H|H]]; apply Nat.eqb_neq in H; rewrite H;
      rewrite ?andb_false_r; reflexivity. }
  rewrite E. reflexivity.
Qed.

(** X6: [equals] and [toJSON] only read.  Whatever they are called on, and
    whether they return or throw, the heap afterwards is the heap before. *)
Theorem observers_change_nothing (h : Heap) (this m : loc) :
  snd (equals this m h) = h /\ snd (toJSON this h) = h.
Proof.
  split.
  - unfold equals. munfold.
    repeat match goal with
    | |- context [@lookup ?K ?A ?M ?I ?l ?m] =>
        destruct (@lookup K A M I l m); simpl
    end; try reflexivity.
    destruct (negb _); simpl; [reflexivity|].
    destruct (polls_loop _ _ _) as [[|]|]; try reflexivity.
  - unfold toJSON. munfold.
    repeat match goal with
    | |- context [@lookup ?K ?A ?M ?I ?l ?m] =>
        destruct (@lookup K A M I l m); simpl
    end; try reflexivity.
    all: destruct (mapRes poll_toJSON _); simpl; try reflexivity.
    all: repeat match goal with
    | |- context [@lookup ?K ?A ?M ?I ?l ?m] =>
        destruct (@lookup K A M I l m); simpl
    end; try reflexivity.

Qed.

(** X7: a copy is [equals] to its source, whatever the source's tree and
    [numSignUps], which the copy does not have: given that the copy of a
    leaf, or of a poll, is equal to the original by its own [equals]. *)
Theorem copy_equals_source (h h' : Heap) (this c : loc) (v : View) :
  (forall l, StateLeaf_equals (StateLeaf_copy l) l = true) ->
  (forall p, Poll_equals (Poll_copy p) (Some p) = Ok true) ->
  view h this = Some v ->
  copy this h = (Ok c, h') ->
  equals c this h' = (Ok true, h').
Proof.
  intros Hleaf Hpoll Hv Hrun.
  destruct (copy_view _ _ _ _ _ Hv Hrun)
    as (_ & (ps' & s & Hps & Hvc & Hd & _) & Hframe & _).
  rewrite (equals_eq _ _ _ _ _ Hvc (Hframe _ _ Hv)). simpl.
  assert (HP : Forall2 poll_equal ps' (view_polls v)).
  { clear -Hps Hpoll. revert ps' Hps.
    induction (view_polls v) as [|p ps IH]; intros ps' Hps; simpl in Hps.
    - injection Hps as <-. constructor.
    - destruct p as [p|]; simpl in Hps; [|discriminate].
      destruct (mapRes poll_copy ps) as [qs|]; simpl in Hps; [|discriminate].
      injection Hps as <-. constructor; [|apply IH; reflexivity].
      exists (Poll_copy p). auto. }
  assert (HL : Forall2 (fun a b => StateLeaf_equals a b = true)
                 (map StateLeaf_copy (view_leaves v)) (view_leaves v)).
  { clear -Hleaf. induction (view_leaves v); simpl; constructor; auto. }
  rewrite Hd, (Forall2_length _ _ _ HP), (Forall2_length _ _ _ HL), !Nat.eqb_refl. simpl.
  rewrite polls_loop_true by (rewrite drop_0; exact HP). simpl.
  rewrite leaves_loop_true by (rewrite drop_0; exact HL). reflexivity.
Qed.


(** ** [fromJSON], whatever the record *)

Lemma fromJSON_inv json h restored h' :
  fromJSON json h = (Ok restored, h') ->
  exists v ls ps,
    mapRes StateLeaf_fromJSON (json_stateLeaves json) = Ok ls /\
    mapRes (fun j => Poll_fromJSON j restored) (json_polls json) = Ok ps /\
    restored = fresh (dom (states h)) /\
    h' = heap_built h (json_stateTreeDepth json) (json_numSignUps json)
           (Some (json_pollBeingProcessed json))
           (Some (parseInt (json_currentPollBeingProcessed json)))
           (view_tree v) ls (map Some ps) /\
    view h' restored = Some v /\
    view_leaves v = ls /\
    view_polls v = map Some ps /\
    leaves (view_tree v) = blankStateLeafHash :: map StateLeaf_hash (drop 1 ls) /\
    depth (view_tree v) = json_stateTreeDepth json /\
    arity (view_tree v) = STATE_TREE_ARITY /\
    stateTreeDepth (view_state v) = json_stateTreeDepth json /\
    numSignUps (view_state v) = json_numSignUps json /\
    pollBeingProcessed (view_state v) = Some (json_pollBeingProcessed json) /\
    currentPollBeingProcessed (view_state v) =
      Some (parseInt (json_currentPollBeingProcessed json)).
Proof.
  intros Hrun. destruct (fromJSON_cases json h) as (hx & Hc). simpl in Hc. rewrite Hc in Hrun.
  destruct (mapRes StateLeaf_fromJSON (json_stateLeaves json)) as [ls|] eqn:Hls;
    [|discriminate].
  destruct (insert_all _ _) as [t'|] eqn:Hins; [|discriminate].
  destruct (mapRes _ (json_polls json)) as [ps|] eqn:Hps; [|discriminate].
  injection Hrun as <- <-.
  destruct (insert_all_inv _ _ _ Hins) as (ls' & Hls' & ->).
  rewrite (mapRes_drop _ 1 _ _ Hls) in Hls'. injection Hls' as <-.
  match goal with |- context [heap_built h ?d ?n ?b ?c ?t ?l ?p] =>
    destruct (heap_built_view h d n b c t l p) as (s & Hs & E1 & E2 & E3 & E4)
  end.
  match type of Hs with _ = Some ?v0 => exists v0, ls, ps end.
  split; [reflexivity|]. split; [exact Hps|]. split; [reflexivity|].
  split; [reflexivity|]. split; [exact Hs|]. simpl. auto 12.
Qed.

(** X8: what [fromJSON] returns is read off the record and nothing else.
    [stateLeaves] are the record's leaves decoded, the first included as
    it is; the tree holds the blank leaf's hash and then the hashes of the
    leaves from index one on, so the record's first leaf is never hashed;
    [numSignUps] is the record's number, not the number of leaves; the
    processing index is what [parseInt] makes of the record's string. *)
Theorem fromJSON_rebuilds (json : IJsonMaciState) (h : Heap) (restored : loc) (h' : Heap) :
  fromJSON json h = (Ok restored, h') ->
  exists v ls ps,
    mapRes StateLeaf_fromJSON (json_stateLeaves json) = Ok ls /\
    mapRes (fun j => Poll_fromJSON j restored) (json_polls json) = Ok ps /\
    view h' restored = Some v /\
    view_leaves v = ls /\
    view_polls v = map Some ps /\
    leaves (view_tree v) = blankStateLeafHash :: map StateLeaf_hash (drop 1 ls) /\
    stateTreeDepth (view_state v) = json_stateTreeDepth json /\
    numSignUps (view_state v) = json_numSignUps json /\
    pollBeingProcessed (view_state v) = Some (json_pollBeingProcessed json) /\
    currentPollBeingProcessed (view_state v) =
      Some (parseInt (json_currentPollBeingProcessed json)).
Proof.
  intros Hrun.
  destruct (fromJSON_inv _ _ _ _ Hrun)
    as (v & ls & ps & A1 & A2 & _ & _ & A3 & A4 & A5 & A6 & _ & _ & A7 & A8 & A9 & A10).
  exists v, ls, ps. auto 12.
Qed.

Lemma parseInt_current_poll_field n :
  exact_index n = true -> parseInt (current_poll_field n) = reread n.
Proof.
  destruct n as [[|z]|]; try reflexivity.
  intros Hsafe. unfold current_poll_field, reread, truthy.
  destruct (z =? 0)%Z; cbn [negb]; [reflexivity|apply parseInt_toString, Hsafe].
Qed.

(** X9: the processing fields do not survive a round trip as they are.
    After [fromJSON] of what [toJSON] wrote, [pollBeingProcessed] is a
    boolean ([false] where it was undefined); and where
    [currentPollBeingProcessed] was undefined, [NaN] or a safe integer, it
    comes back as the same index only if that was not zero: poll [0], like
    undefined, comes back as [NaN]. *)
Theorem processing_fields_after_round_trip (h : Heap) (this : loc) (v : View)
    (json : IJsonMaciState) (restored : loc) (h' : Heap) :
  view h this = Some v ->
  exact_index (currentPollBeingProcessed (view_state v)) = true ->
  toJSON this h = (Ok json, h) ->
  fromJSON json h = (Ok restored, h') ->
  exists v', view h' restored = Some v' /\
    pollBeingProcessed (view_state v') =
      Some (default false (pollBeingProcessed (view_state v))) /\
    currentPollBeingProcessed (view_state v') =
      Some (reread (currentPollBeingProcessed (view_state v))).
Proof.
  intros Hv Hsafe Hto Hfrom.
  rewrite (toJSON_eq _ _ _ Hv) in Hto.
  destruct (mapRes poll_toJSON (view_polls v)) as [jps|]; simpl in Hto; [|discriminate].
  injection Hto as <-.
  destruct (fromJSON_inv _ _ _ _ Hfrom)
    as (v' & ls & ps & _ & _ & _ & _ & A3 & _ & _ & _ & _ & _ & _ & _ & A9 & A10).
  exists v'. split; [exact A3|]. split; [exact A9|].
  rewrite A10. simpl. rewrite parseInt_current_poll_field by exact Hsafe. reflexivity.
Qed.

(** ** Counting *)

Lemma counts_after_ops this cap os : forall v n,
  numSignUps (view_state v) = n ->
  length (view_leaves v) = n `min` cap ->
  length (leaves (view_tree v)) = n `min` cap ->
  capacity (view_tree v) = cap ->
  let v' := foldl (fun v o => after_op this o v) v os in
  numSignUps (view_state v') = n + length (List.filter is_signUp os) /\
  length (view_leaves v') = (n + length (List.filter is_signUp os)) `min` cap /\
  length (leaves (view_tree v')) = (n + length (List.filter is_signUp os)) `min` cap.
Proof.
  induction os as [|o os IH]; intros v n Hn Hl Ht Hc; simpl.
  - rewrite Nat.add_0_r. auto.
  - destruct o as [pk b ts|e mv td mbs kp|]; simpl.
    + replace (n + S (length (List.filter is_signUp os)))
        with (n + 1 + length (List.filter is_signUp os)) by lia.
      destruct (length (leaves (view_tree v)) <? capacity (view_tree v)) eqn:E.
      * apply Nat.ltb_lt in E.
        apply IH; simpl; rewrite ?length_app; simpl; unfold capacity in *; simpl; lia.
      * apply Nat.ltb_ge in E.
        apply IH; simpl; lia.
    + apply IH; auto.
    + apply IH; auto.
Qed.

(** X10: [numSignUps] counts calls, [stateLeaves] counts leaves.  On an
    instance built by the constructor and any sequence of mutator calls,
    [numSignUps] is one more than the number of [signUp] calls made,
    accepted by the tree or not, while [stateLeaves] and the tree hold one
    leaf per accepted call: their length is [numSignUps] capped at
    [STATE_TREE_ARITY ^ stateTreeDepth]. *)
Theorem numSignUps_counts_calls (h0 : Heap) (d : nat) (os : list Op) (this : loc) (h1 : Heap) :
  MaciState_new d h0 = (Ok this, h1) ->
  exists v, view (exec_ops this os h1) this = Some v /\
    numSignUps (view_state v) = 1 + length (List.filter is_signUp os) /\
    length (view_leaves v) = numSignUps (view_state v) `min` (STATE_TREE_ARITY ^ d) /\
    length (leaves (view_tree v)) = length (view_leaves v).
Proof.
  rewrite MaciState_new_eq. intros [= <- <-].
  eexists. split; [apply exec_ops_after, MaciState_new_view|].
  pose proof (arity_pow_pos d) as Hpos.
  match goal with |- context [foldl _ ?v0 os] =>
    pose proof (counts_after_ops (fresh (dom (states h0))) (STATE_TREE_ARITY ^ d) os v0 1)
      as Hcount
  end.
  cbv zeta in Hcount.
  destruct Hcount as (B1 & B2 & B3);
    [reflexivity
    |symmetry; apply Nat.min_l; exact Hpos
    |symmetry; apply Nat.min_l; exact Hpos
    |reflexivity|].
  rewrite B1, B2, B3. auto.
Qed.

Lemma tree_matches_after_ops this os : forall v,
  (forall l, StateLeaf_hash (StateLeaf_copy l) = StateLeaf_hash l) ->
  leaves (view_tree v) = map StateLeaf_hash (view_leaves v) ->
  let v' := foldl (fun v o => after_op this o v) v os in
  leaves (view_tree v') = map StateLeaf_hash (view_leaves v').
Proof.
  induction os as [|o os IH]; intros v Hcopy Hv; simpl; [exact Hv|].
  apply IH; [exact Hcopy|].
  destruct o as [pk b ts|e mv td mbs kp|]; simpl; auto.
  destruct (_ <? _); simpl; auto.
  rewrite map_app, Hv. simpl. rewrite Hcopy. reflexivity.
Qed.

(** X11: the tree and [stateLeaves] stay in step.  Given that the blank
    leaf hashes to [blankStateLeafHash] and that a leaf's copy hashes as
    the leaf does, on every instance built by the constructor and any
    sequence of mutator calls the tree's leaves are exactly the hashes of
    [stateLeaves], in order. *)
Theorem tree_is_hash_of_stateLeaves (h0 : Heap) (d : nat) (os : list Op)
    (this : loc) (h1 : Heap) :
  StateLeaf_hash blankStateLeaf = blankStateLeafHash ->
  (forall l, StateLeaf_hash (StateLeaf_copy l) = StateLeaf_hash l) ->
  MaciState_new d h0 = (Ok this, h1) ->
  exists v, view (exec_ops this os h1) this = Some v /\
    leaves (view_tree v) = map StateLeaf_hash (view_leaves v).
Proof.
  intros Hblank Hcopy. rewrite MaciState_new_eq. intros [= <- <-].
  eexists. split; [apply exec_ops_after, MaciState_new_view|].
  apply tree_matches_after_ops; [exact Hcopy|]. simpl. rewrite Hblank. reflexivity.
Qed.


(** ** Allocation and independence *)

(** X12: making an instance never touches the instances there are.  The
    constructor, [copy] and [fromJSON], when they return, return an
    instance that is none of the existing ones, every existing instance
    reads afterwards as it did before, and a well-formed heap stays
    well formed. *)
Theorem construction_leaves_instances_alone (h : Heap) (other : loc) (w : View) :
  view h other = Some w ->
  (forall d t h', MaciState_new d h = (Ok t, h') ->
     t <> other /\ view h' other = Some w /\ (heap_wf h -> heap_wf h')) /\
  (forall this v c h', view h this = Some v -> copy this h = (Ok c, h') ->
     c <> other /\ view h' other = Some w /\ (heap_wf h -> heap_wf h')) /\
  (forall json r h', fromJSON json h = (Ok r, h') ->
     r <> other /\ view h' other = Some w /\ (heap_wf h -> heap_wf h')).
Proof.
  intros Hw.
  assert (Hfresh : fresh (dom (states h)) <> other).
  { pose proof Hw as Hw'. apply view_Some in Hw' as (Hs & _).
    apply not_eq_sym, fresh_ne. eauto. }
  split; [|split].
  - intros d t h'. rewrite MaciState_new_eq. intros [= <- <-].
    split; [exact Hfresh|]. split; [apply MaciState_new_frame, Hw|apply heap_after_new_wf].
  - intros this v c h' Hv Hrun.
    destruct (copy_view _ _ _ _ _ Hv Hrun) as (-> & _ & Hframe & Hwf). auto.
  - intros json r h' Hrun.
    destruct (fromJSON_inv _ _ _ _ Hrun)
      as (v & ls & ps & _ & _ & -> & -> & _ & _ & _ & _ & Hd & Ha & _).
    split; [exact Hfresh|]. split; [apply heap_built_frame, Hw|].
    intros Hwf. apply heap_built_wf; auto.
Qed.

(** X13: a copy and its source share nothing.  On a well-formed heap,
    after [copy] returns, any sequence of [signUp], [deployPoll] and
    [deployNullPoll] calls on the copy leaves the source reading as it did,
    and any such sequence on the source leaves the copy reading as it
    did. *)
Theorem copy_shares_nothing (h h' : Heap) (this c : loc) (v : View) (os : list Op) :
  heap_wf h ->
  view h this = Some v ->
  copy this h = (Ok c, h') ->
  c <> this /\
  view (exec_ops c os h') this = Some v /\
  exists vc, view h' c = Some vc /\ view (exec_ops this os h') c = Some vc.
Proof.
  intros Hwf Hv Hrun.
  pose proof (copy_fresh _ _ _ _ _ Hv Hrun) as Hne.
  destruct (copy_view _ _ _ _ _ Hv Hrun) as (_ & (ps' & s & _ & Hvc & _) & Hframe & Hwf').
  split; [exact Hne|]. split.
  - apply exec_ops_frame; auto.
  - eexists. split; [exact Hvc|]. apply exec_ops_frame; auto.
Qed.

(** X14: the tree comes back.  Given that the blank leaf hashes to
    [blankStateLeafHash], that a leaf's copy hashes as the leaf does, and
    that decoding an encoded leaf or poll succeeds, the leaf decoding to
    itself: for an instance built by the constructor and any sequence of
    [signUp] and [deployPoll] calls, [fromJSON] of what [toJSON] wrote
    returns an instance with the same [stateLeaves], the same leaves in
    its tree, the same [stateTreeDepth] and the same [numSignUps]. *)
Theorem round_trip_restores_tree (h0 : Heap) (d : nat) (os : list Op)
    (this : loc) (h1 : Heap) :
  StateLeaf_hash blankStateLeaf = blankStateLeafHash ->
  (forall l, StateLeaf_hash (StateLeaf_copy l) = StateLeaf_hash l) ->
  (forall l, StateLeaf_fromJSON (StateLeaf_toJSON l) = Ok l) ->
  (forall p ref, exists p', Poll_fromJSON (Poll_toJSON p) ref = Ok p') ->
  MaciState_new d h0 = (Ok this, h1) ->
  forallb (fun o => negb (is_null_deploy o)) os = true ->
  exists v json restored h' v',
    view (exec_ops this os h1) this = Some v /\
    toJSON this (exec_ops this os h1) = (Ok json, exec_ops this os h1) /\
    fromJSON json (exec_ops this os h1) = (Ok restored, h') /\
    view h' restored = Some v' /\
    view_leaves v' = view_leaves v /\
    leaves (view_tree v') = leaves (view_tree v) /\
    stateTreeDepth (view_state v') = stateTreeDepth (view_state v) /\
    numSignUps (view_state v') = numSignUps (view_state v).
Proof.
  intros Hblank Hcopy Hleaf Hpoll Hnew Hall.
  destruct (built_view h0 d os this h1 Hnew) as (v & Hv & Hc & Hn).
  destruct (Forall_is_Some_map _ (Hn Hall)) as (qs & Hqs).
  assert (Htree : leaves (view_tree v) = map StateLeaf_hash (view_leaves v)).
  { revert Hnew Hv. rewrite MaciState_new_eq. intros [= <- <-] Hv.
    rewrite (exec_ops_after _ os _ _ (MaciState_new_view d h0)) in Hv.
    injection Hv as <-.
    apply tree_matches_after_ops; [exact Hcopy|]. simpl. rewrite Hblank. reflexivity. }
  assert (Hhead : view_leaves v !! 0 = Some blankStateLeaf).
  { destruct (built_first_leaf h0 d os this h1 Hnew) as (v0 & Hv0 & H0 & _). congruence. }
  set (h := exec_ops this os h1) in *.
  destruct (fromJSON_of_toJSON (fun l' l => l' = l) (fun _ _ => True) this h v)
    with (qs := qs)
    as (ls' & ps' & t' & s & Hto & Hfrom & Hview & E1 & E2 & E3 & E4 & Ht & HR & HQ); auto.
  { intros l. exists l. auto. }
  { intros p ref. destruct (Hpoll p ref) as (p' & Hp'). eauto. }
  { apply tree_covers_within, Hc. }
  assert (Hls : ls' = view_leaves v).
  { clear -HR. induction HR; congruence. }
  subst ls'.
  eexists v, _, _, _, _. split; [exact Hv|]. split; [exact Hto|]. split; [exact Hfrom|].
  split; [exact Hview|]. simpl. split; [reflexivity|]. split; [|auto].
  rewrite Ht, Htree.
  destruct (view_leaves v) as [|l0 ls]; [discriminate|].
  simpl in Hhead. injection Hhead as ->. simpl. rewrite drop_0, Hblank. reflexivity.
Qed.

(** ** The index [signUp] returns *)

Lemma capacity_after_ops this os : forall v,
  capacity (view_tree (foldl (fun v o => after_op this o v) v os)) = capacity (view_tree v).
Proof.
  induction os as [|o os IH]; intros v; simpl; [reflexivity|].
  rewrite IH. destruct o as [pk b ts|e mv td mbs kp|]; simpl; auto.
  destruct (_ <? _); reflexivity.
Qed.

(** X23: the index [signUp] returns is the new leaf's index in
    [stateLeaves] and in the state tree alike.  On an instance built by
    the constructor and any sequence of mutator calls, with room left in
    the tree, [signUp] returns one more than the number of [signUp] calls
    made before; afterwards [stateLeaves] holds the copy of the new leaf
    at that index and the tree holds its hash at that index. *)
Theorem signUp_index_is_tree_index (h0 : Heap) (d : nat) (os : list Op)
    (this : loc) (h1 : Heap) (pk : PubKey) (b ts : Z) :
  MaciState_new d h0 = (Ok this, h1) ->
  1 + length (List.filter is_signUp os) < STATE_TREE_ARITY ^ d ->
  let h := exec_ops this os h1 in
  let i := 1 + length (List.filter is_signUp os) in
  fst (signUp this pk b ts h) = Ok i /\
  exists v', view (snd (signUp this pk b ts h)) this = Some v' /\
    view_leaves v' !! i = Some (StateLeaf_copy (StateLeaf_new pk b ts)) /\
    leaves (view_tree v') !! i = Some (StateLeaf_hash (StateLeaf_new pk b ts)).
Proof.
  rewrite MaciState_new_eq. intros [= <- <-] Hroom. cbv zeta.
  pose proof (exec_ops_after (fresh (dom (states h0))) os _ _ (MaciState_new_view d h0)) as Hv.
  pose proof (arity_pow_pos d) as Hpos.
  match type of Hv with _ = Some (foldl _ ?v0 os) =>
    pose proof (counts_after_ops (fresh (dom (states h0))) (STATE_TREE_ARITY ^ d) os v0 1)
      as Hcount;
    pose proof (capacity_after_ops (fresh (dom (states h0))) os v0) as Hcap
  end.
  cbv zeta in Hcount.
  destruct Hcount as (_ & B2 & B3);
    [reflexivity
    |symmetry; apply Nat.min_l; exact Hpos
    |symmetry; apply Nat.min_l; exact Hpos
    |reflexivity|].
  rewrite Nat.min_l in B2, B3 by lia.
  change (capacity _) with (STATE_TREE_ARITY ^ d) in Hcap at 2.
  destruct (signUp_view _ pk b ts _ _ Hv) as (h' & Hrun & Hv'); [rewrite B3, Hcap; exact Hroom|].
  rewrite Hrun, B2. simpl. split; [reflexivity|].
  eexists. split; [exact Hv'|]. simpl. split.
  - rewrite lookup_app_r by lia. rewrite B2, Nat.sub_diag. reflexivity.
  - rewrite lookup_app_r by lia. rewrite B3, Nat.sub_diag. reflexivity.
Qed.

(** ** Records [fromJSON] refuses *)

Lemma insert_all_full js : forall t ls,
  mapRes StateLeaf_fromJSON js = Ok ls ->
  length (leaves t) <= capacity t ->
  capacity t < length (leaves t) + length js ->
  insert_all t js = Err CapacityExceeded.
Proof.
  induction js as [|j js IH]; intros t ls Hls Hle Hcap; simpl in *; [lia|].
  destruct (StateLeaf_fromJSON j) as [l|]; simpl in *; [|discriminate].
  destruct (mapRes StateLeaf_fromJSON js) as [ls'|]; simpl in *; [|discriminate].
  unfold insert. destruct (length (leaves t) <? capacity t) eqn:E; simpl; [|reflexivity].
  apply Nat.ltb_lt in E.
  apply (IH _ ls' eq_refl); unfold capacity in *; simpl; rewrite ?length_app; simpl; lia.
Qed.

(** X24: [fromJSON] refuses a record with more leaves than the tree of its
    depth can hold.  When every leaf of the record decodes and there are
    more than [STATE_TREE_ARITY ^ stateTreeDepth] of them, [fromJSON]
    throws the tree's capacity error, whatever the polls of the record. *)
Theorem fromJSON_overfull_record_throws (json : IJsonMaciState) (h : Heap)
    (ls : list StateLeaf) :
  mapRes StateLeaf_fromJSON (json_stateLeaves json) = Ok ls ->
  STATE_TREE_ARITY ^ json_stateTreeDepth json < length (json_stateLeaves json) ->
  fst (fromJSON json h) = Err CapacityExceeded.
Proof.
  intros Hls Hlen.
  destruct (fromJSON_cases json h) as (hx & Hc). simpl in Hc. rewrite Hc, Hls.
  pose proof (arity_pow_pos (json_stateTreeDepth json)) as Hpos.
  rewrite (insert_all_full _ (seeded_tree (json_stateTreeDepth json)) (drop 1 ls)).
  - reflexivity.
  - apply mapRes_drop, Hls.
  - unfold capacity. simpl. lia.
  - unfold capacity. simpl. rewrite length_drop. lia.
Qed.

(** ** [equals] on null polls *)

Lemma polls_loop_null ps : forall i mpolls k,
  ps !! k = Some None ->
  (forall j, j < k -> exists p,
     ps !! j = Some (Some p) /\ Poll_equals p (mjoin (mpolls !! (i + j))) = Ok true) ->
  polls_loop ps i mpolls = Err TypeError.
Proof.
  induction ps as [|p0 ps IH]; intros i mpolls k Hk Hbefore; [destruct k; discriminate|].
  destruct k as [|k]; simpl in Hk.
  - injection Hk as ->. reflexivity.
  - destruct (Hbefore 0) as (p & Hp & Heq); [lia|]. simpl in Hp. injection Hp as ->.
    simpl. rewrite Nat.add_0_r in Heq. rewrite Heq. simpl.
    apply (IH _ _ k Hk). intros j Hj.
    destruct (Hbefore (S j)) as (q & Hq & Hqe); [lia|].
    exists q. split; [exact Hq|]. replace (S i + j) with (i + S j) by lia. exact Hqe.
Qed.

(** X25: [equals] throws where it meets a null poll of the receiver.  When
    the two instances agree in [stateTreeDepth] and in the numbers of
    polls and leaves, and the receiver's polls are equal to the
    argument's up to an index at which the receiver holds a null poll,
    [equals] throws a [TypeError]; so it does when an instance with a null
    poll is compared with itself. *)
Theorem equals_throws_on_null_poll (h : Heap) (this m : loc) (vs vm : View) (k : nat) :
  view h this = Some vs ->
  view h m = Some vm ->
  stateTreeDepth (view_state vs) = stateTreeDepth (view_state vm) ->
  length (view_polls vs) = length (view_polls vm) ->
  length (view_leaves vs) = length (view_leaves vm) ->
  view_polls vs !! k = Some None ->
  (forall i, i < k -> exists p,
     view_polls vs !! i = Some (Some p) /\
     Poll_equals p (mjoin (view_polls vm !! i)) = Ok true) ->
  equals this m h = (Err TypeError, h).
Proof.
  intros Hs Hm Hd Hp Hl Hk Hbefore.
  rewrite (equals_eq _ _ _ _ _ Hs Hm), Hd, Hp, Hl, !Nat.eqb_refl. simpl.
  rewrite (polls_loop_null _ 0 _ k Hk Hbefore). reflexivity.
Qed.

End Facts.

(** ** The claims about the proof generator service *)

Section ServiceFacts.
Context {D : DomainObjs}.

Lemma sbind_call {A B} (c : Call A) (k : A -> Svc B) w tr :
  sbind (call c) k w tr =
    match w tr A c with
    | Ok a => k a w (tr ++ [ECall c (Ok a)])
    | Err e => (Err e, tr ++ [ECall c (Err e)])
    end.
Proof. unfold sbind, call. destruct (w tr A c); reflexivity. Qed.

Lemma sbind_call_all2 {A B C} (c1 : Call A) (c2 : Call B) (k : A * B -> Svc C) w tr :
  sbind (call_all2 c1 c2) k w tr =
    match w tr A c1 with
    | Ok a =>
        match w (tr ++ [ECall c1 (Ok a)]) B c2 with
        | Ok b => k (a, b) w ((tr ++ [ECall c1 (Ok a)]) ++ [ECall c2 (Ok b)])
        | Err e => (Err e, (tr ++ [ECall c1 (Ok a)]) ++ [ECall c2 (Err e)])
        end
    | Err e =>
        (Err e, (tr ++ [ECall c1 (Err e)]) ++
                [ECall c2 (w (tr ++ [ECall c1 (Err e)]) B c2)])
    end.
Proof.
  unfold sbind, call_all2. destruct (w tr A c1); simpl; [|reflexivity].
  destruct (w _ B c2); reflexivity.
Qed.

Lemma sbind_slift {A B} (r : Res A) (k : A -> Svc B) w tr :
  sbind (slift r) k w tr =
    match r with
    | Ok a => k a w tr
    | Err e => (Err e, tr)
    end.
Proof. unfold sbind, slift. destruct r; reflexivity. Qed.

Lemma sbind_log {B} code text (k : unit -> Svc B) w tr :
  sbind (logger_error code text) k w tr = k tt w (tr ++ [ELog code text]).
Proof. reflexivity. Qed.

(** One more call made and answered. *)
Ltac svc_call :=
  rewrite sbind_call;
  match goal with
  | |- context [match ?w ?tr ?A ?c with _ => _ end] =>
      destruct (w tr A c); cbn [app]
  end.

Ltac svc_done := cbn; intuition (try discriminate; try congruence).

(** C8: in an invocation of [generate] in which the poll contract answers
    [stateMerged()] with [false], [generate] throws
    [ErrorCodes.NOT_MERGED_STATE_TREE], and neither the proof backend (the
    [ProofGenerator] and its two proof runs) nor the event scan was
    called. *)
Theorem state_not_merged_stops (w : World) (args : IGenerateArgs) :
  existsb (state_merged_reported false) (snd (generate args w [])) = true ->
  fst (generate args w []) = Err (ServiceError NOT_MERGED_STATE_TREE) /\
  existsb is_backend_call (snd (generate args w [])) = false /\
  existsb is_event_scan (snd (generate args w [])) = false.
Proof.
  unfold generate.
  svc_call; [|svc_done]. svc_call; [|svc_done]. svc_call; [|svc_done].
  destruct (String.eqb _ _); [rewrite sbind_log; svc_done|].
  svc_call; [|svc_done].
  rewrite sbind_call_all2.
  match goal with |- context [match ?w ?tr ?A ?c with _ => _ end] => destruct (w tr A c) end;
    cbn [app]; [|svc_done].
  match goal with |- context [match ?w ?tr ?A ?c with _ => _ end] => destruct (w tr A c) end;
    cbn [app]; [|svc_done].
  cbn [fst snd].
  svc_call; [|svc_done].
  rewrite sbind_call.
  match goal with |- context [match ?w ?tr ?A ?c with _ => _ end] =>
    destruct (w tr A c) as [[|]|]; cbn [app negb] end; [|rewrite sbind_log; svc_done|svc_done].
  svc_call; [|svc_done]. svc_call; [|svc_done].
  destruct (_ =? _)%Z; [rewrite sbind_log; svc_done|].
  svc_call; [|svc_done]. svc_call; [|svc_done].
  rewrite sbind_slift. destruct (PrivKey_deserialize _); [|svc_done].
  rewrite sbind_slift. destruct (PubKey_new _ _); [|svc_done].
  destruct (negb _); [rewrite sbind_log; svc_done|].
  svc_call; [|svc_done].
  destruct (_ !! _); [|rewrite sbind_log; svc_done].
  svc_call; [|svc_done]. svc_call; [|svc_done]. svc_call; [|svc_done].
  svc_call; [|svc_done]. svc_call; [|svc_done].
  svc_done.
Qed.


Ltac svc_end :=
  cbn; intros;
  repeat match goal with
  | H : _ \/ _ |- _ => destruct H
  | H : False |- _ => destruct H
  | H : None = Some _ |- _ => discriminate H
  | H : Some _ = Some _ |- _ => injection H as H; subst
  end;
  try congruence;
  try (split; [congruence|split; reflexivity]).

(** C9: in an invocation of [generate] in which [cryptoService.decrypt]
    returns a plaintext that deserialises to a private key, and the public
    key of the keypair made from it is not [equals] to the key the poll
    contract reported, [generate] throws [ErrorCodes.PRIVATE_KEY_MISMATCH],
    and [ProofGenerator.prepareState], the scan of the chain's events, was
    not called (nor was the proof backend). *)
Theorem key_mismatch_stops (w : World) (args : IGenerateArgs)
    (plain : string) (sk : PrivKey) (xy : Z * Z) (pk : PubKey) :
  In (Some plain) (map decrypted (snd (generate args w []))) ->
  In (Some xy) (map committed_key (snd (generate args w []))) ->
  PrivKey_deserialize plain = Ok sk ->
  PubKey_new (fst xy) (snd xy) = Ok pk ->
  PubKey_equals (pubKey (Keypair_new sk)) pk = false ->
  fst (generate args w []) = Err (ServiceError PRIVATE_KEY_MISMATCH) /\
  existsb is_event_scan (snd (generate args w [])) = false /\
  existsb is_backend_call (snd (generate args w [])) = false.
Proof.
  unfold generate.
  svc_call; [|svc_end]. svc_call; [|svc_end]. svc_call; [|svc_end].
  destruct (String.eqb _ _); [rewrite sbind_log; svc_end|].
  svc_call; [|svc_end].
  rewrite sbind_call_all2.
  match goal with |- context [match ?w ?tr ?A ?c with _ => _ end] => destruct (w tr A c) end;
    cbn [app]; [|svc_end].
  match goal with |- context [match ?w ?tr ?A ?c with _ => _ end] => destruct (w tr A c) end;
    cbn [app]; [|svc_end].
  cbn [fst snd].
  svc_call; [|svc_end].
  rewrite sbind_call.
  match goal with |- context [match ?w ?tr ?A ?c with _ => _ end] =>
    destruct (w tr A c) as [[|]|]; cbn [app negb] end; [|rewrite sbind_log; svc_end|svc_end].
  svc_call; [|svc_end]. svc_call; [|svc_end].
  destruct (_ =? _)%Z; [rewrite sbind_log; svc_end|].
  svc_call; [|svc_end]. svc_call; [|svc_end].
  rewrite sbind_slift. destruct (PrivKey_deserialize _) eqn:Esk; [|svc_end].
  rewrite sbind_slift. destruct (PubKey_new _ _) eqn:Epk; [|svc_end].
  destruct (PubKey_equals _ _) eqn:Eeq; cbn [negb]; [|rewrite sbind_log; svc_end].
  svc_call; [|svc_end].
  destruct (_ !! _); [|rewrite sbind_log; svc_end].
  svc_call; [|svc_end]. svc_call; [|svc_end]. svc_call; [|svc_end].
  svc_call; [|svc_end]. svc_call; [|svc_end].
  svc_end.
Qed.

(** ** More about [generate] *)

Ltac svc_step fin :=
  rewrite sbind_call;
  match goal with
  | |- context [match ?w ?tr ?A ?c with _ => _ end] =>
      destruct (w tr A c) eqn:?; cbn [app]
  end; [|solve [fin]].

(** All the ways through [generate], [fin] closing each. *)
Ltac svc_walk fin0 :=
  let fin := (solve [fin0]) in
  unfold generate;
  svc_step fin; svc_step fin; svc_step fin;
  destruct (String.eqb _ _) eqn:?; [rewrite sbind_log; fin|];
  svc_step fin;
  rewrite sbind_call_all2;
  match goal with |- context [match ?w ?tr ?A ?c with _ => _ end] =>
    destruct (w tr A c) eqn:? end; cbn [app]; [|fin];
  match goal with |- context [match ?w ?tr ?A ?c with _ => _ end] =>
    destruct (w tr A c) eqn:? end; cbn [app]; [|fin];
  cbn [fst snd];
  svc_step fin;
  rewrite sbind_call;
  match goal with |- context [match ?w ?tr ?A ?c with _ => _ end] =>
    destruct (w tr A c) as [[|]|] eqn:?; cbn [app negb] end;
    [|rewrite sbind_log; fin|fin];
  svc_step fin; svc_step fin;
  destruct (_ =? _)%Z eqn:?; [rewrite sbind_log; fin|];
  svc_step fin; svc_step fin;
  rewrite sbind_slift; destruct (PrivKey_deserialize _) eqn:?; [|fin];
  rewrite sbind_slift; destruct (PubKey_new _ _) eqn:?; [|fin];
  destruct (PubKey_equals _ _) eqn:?; cbn [negb]; [|rewrite sbind_log; fin];
  svc_step fin;
  match goal with |- context [match ?m !! ?k with _ => _ end] =>
    destruct (m !! k) eqn:? end; [|rewrite sbind_log; fin];
  svc_step fin; svc_step fin; svc_step fin; svc_step fin; svc_step fin;
  fin.

(** What a hypothesis on the trace says, once the trace is known. *)
Ltac svc_hyps :=
  cbn; intros;
  repeat match goal with
  | H : _ \/ _ |- _ => destruct H
  | H : _ /\ _ |- _ => destruct H
  | H : False |- _ => destruct H
  | H : None = Some _ |- _ => discriminate H
  | H : Some _ = None |- _ => discriminate H
  | H : ECall _ _ = ELog _ _ |- _ => discriminate H
  | H : Some _ = Some _ |- _ => injection H as H; subst
  | H : ELog _ _ = ELog _ _ |- _ => injection H as H; subst
  | H : Ok _ = Err _ |- _ => discriminate H
  | H : Err _ = Ok _ |- _ => discriminate H
  | H : Ok _ = Ok _ |- _ => injection H as H; subst
  | H : Err _ = Err _ |- _ => injection H as H; subst
  | H : true = false |- _ => discriminate H
  | H : false = true |- _ => discriminate H
  end.

Ltac in_here := cbn; repeat first [left; reflexivity | right].

(** X15: when the MACI contract answers [polls(poll)] with the zero
    address, in whatever letter case, [generate] throws
    [ErrorCodes.POLL_NOT_FOUND] after three calls and one logged line: the
    two lookups, [polls(poll)] itself, and nothing on the poll contract. *)
Theorem zero_poll_address_stops (w : World) (args : IGenerateArgs) (a : string) :
  toLowerCase a = toLowerCase ZeroAddress ->
  In (Some a) (map poll_address (snd (generate args w []))) ->
  fst (generate args w []) = Err (ServiceError POLL_NOT_FOUND) /\
  exists maciContract signer,
    snd (generate args w []) =
      [ECall (Deployment_getContract EContracts_MACI (maciContractAddress args))
         (Ok maciContract);
       ECall Deployment_getDeployer (Ok signer);
       ECall (MACI_polls maciContract (poll args)) (Ok a);
       ELog POLL_NOT_FOUND "Poll not found"].
Proof.
  intros Hzero.
  svc_walk ltac:(svc_hyps;
    try match goal with
    | E : String.eqb _ _ = false |- _ =>
        rewrite Hzero, String.eqb_refl in E; discriminate E
    end;
    try (split; [reflexivity|eexists _, _; reflexivity])).
Qed.

(** X16: when the message accumulator answers [getMainRoot] with zero,
    [generate] throws [ErrorCodes.NOT_MERGED_MESSAGE_TREE]; the
    coordinator's key was neither read nor decrypted, and neither the event
    scan nor the proof backend was called. *)
Theorem message_tree_not_merged_stops (w : World) (args : IGenerateArgs) :
  In (Some 0%Z) (map main_root (snd (generate args w []))) ->
  fst (generate args w []) = Err (ServiceError NOT_MERGED_MESSAGE_TREE) /\
  existsb is_key_use (snd (generate args w [])) = false /\
  existsb is_event_scan (snd (generate args w [])) = false /\
  existsb is_backend_call (snd (generate args w [])) = false.
Proof.
  svc_walk ltac:(svc_hyps;
    try match goal with
    | E : (0 =? 0)%Z = false |- _ => discriminate E
    end;
    try (repeat split; reflexivity)).
Qed.

(** X17: when the state [prepareState] rebuilt holds no poll under the
    requested id, [generate] throws [ErrorCodes.POLL_NOT_FOUND], and the
    proof backend was not called. *)
Theorem poll_missing_from_state_stops (w : World) (args : IGenerateArgs)
    (st : gmap Z PollHandle) :
  st !! Z.of_nat (poll args) = None ->
  In (Some st) (map prepared (snd (generate args w []))) ->
  fst (generate args w []) = Err (ServiceError POLL_NOT_FOUND) /\
  existsb is_backend_call (snd (generate args w [])) = false.
Proof.
  intros Hnone.
  svc_walk ltac:(svc_hyps; try congruence; try (split; reflexivity)).
Qed.

(** X18: a line is given to [logger.error] only on the way out: if the
    trace of [generate] holds a logged line with code [code], then that
    line is the last thing that happened, [generate] threw the error with
    that same code, and the proof backend was not called. *)
Theorem logged_code_is_thrown (w : World) (args : IGenerateArgs)
    (code : ErrorCodes) (text : string) :
  In (ELog code text) (snd (generate args w [])) ->
  fst (generate args w []) = Err (ServiceError code) /\
  last (snd (generate args w [])) = Some (ELog code text) /\
  existsb is_backend_call (snd (generate args w [])) = false.
Proof.
  svc_walk ltac:(svc_hyps; try (repeat split; reflexivity)).
Qed.

(** X19: [generate] catches nothing: if a call it made was rejected, it
    rejects, and with the error of a call that was rejected. *)
Theorem rejection_propagates (w : World) (args : IGenerateArgs) :
  omap rejected (snd (generate args w [])) <> [] ->
  exists e, fst (generate args w []) = Err e /\
    In e (omap rejected (snd (generate args w []))).
Proof.
  svc_walk ltac:(svc_hyps; try congruence; (eexists; split; [reflexivity|in_here])).
Qed.

(** X20: the three ways [generate] can throw.  If it throws [e], then
    either a call was rejected with [e], or a check failed, [e] carrying
    the code of the last line logged, or decoding a key threw [e]: the
    decrypted private key, or the public key the poll contract
    committed to. *)
Theorem throw_has_a_cause (w : World) (args : IGenerateArgs) (e : Error) :
  fst (generate args w []) = Err e ->
  In e (omap rejected (snd (generate args w []))) \/
  (exists code text,
     e = ServiceError code /\ last (snd (generate args w [])) = Some (ELog code text)) \/
  (exists plain,
     In (Some plain) (map decrypted (snd (generate args w []))) /\
     PrivKey_deserialize plain = Err e) \/
  (exists xy,
     In (Some xy) (map committed_key (snd (generate args w []))) /\
     PubKey_new (fst xy) (snd xy) = Err e).
Proof.
  svc_walk ltac:(svc_hyps;
    first
      [ left; solve [in_here]
      | right; left; eexists _, _; split; reflexivity
      | right; right; left; eexists; split; [in_here|eassumption]
      | right; right; right; eexists; split; [in_here|eassumption] ]).
Qed.

(** X21: the proof backend is reached only when every check has passed.
    If the [ProofGenerator] was made or asked for proofs, then the poll
    address was not the zero address, the state tree was reported merged,
    the main root was not zero, the decrypted key decoded to a private key
    whose public key [equals] the one the poll contract committed to, and
    the generator was made of the poll found under the requested id in the
    rebuilt state, with the caller's two addresses and voting mode. *)
Theorem backend_only_after_checks (w : World) (args : IGenerateArgs) :
  existsb is_backend_call (snd (generate args w [])) = true ->
  (exists a, In (Some a) (map poll_address (snd (generate args w []))) /\
     toLowerCase a <> toLowerCase ZeroAddress) /\
  existsb (state_merged_reported true) (snd (generate args w [])) = true /\
  (exists r, In (Some r) (map main_root (snd (generate args w []))) /\ r <> 0%Z) /\
  (exists plain sk xy pk,
     In (Some plain) (map decrypted (snd (generate args w []))) /\
     In (Some xy) (map committed_key (snd (generate args w []))) /\
     PrivKey_deserialize plain = Ok sk /\
     PubKey_new (fst xy) (snd xy) = Ok pk /\
     PubKey_equals (pubKey (Keypair_new sk)) pk = true) /\
  (exists st foundPoll,
     In (Some st) (map prepared (snd (generate args w []))) /\
     st !! Z.of_nat (poll args) = Some foundPoll /\
     In (Some (foundPoll, maciContractAddress args, tallyContractAddress args,
               useQuadraticVoting args))
        (map generator_made (snd (generate args w [])))).
Proof.
  svc_walk ltac:(svc_hyps;
    match goal with
    | Ea : String.eqb _ _ = false, Er : (_ =? 0)%Z = false |- _ =>
        apply String.eqb_neq in Ea; apply Z.eqb_neq in Er;
        split; [eexists; split; [in_here|exact Ea]|];
        split; [reflexivity|];
        split; [eexists; split; [in_here|exact Er]|];
        split; [eexists _, _, _, _; split; [in_here|]; split; [in_here|];
                split; [eassumption|]; split; [eassumption|eassumption]|];
        eexists _, _; split; [in_here|]; split; [eassumption|in_here]
    end).
Qed.

(** X22: when [generate] returns, it returns what the backend produced,
    the message-processing proofs of [generateMpProofs] and the proofs and
    tally of [generateTallyProofs]; no call was rejected and nothing was
    logged. *)
Theorem success_returns_backend_output (w : World) (args : IGenerateArgs)
    (data : IGenerateData) :
  fst (generate args w []) = Ok data ->
  In (Some (processProofs data)) (map mp_proofs (snd (generate args w []))) /\
  In (Some (tallyProofs data, tallyData data))
     (map tally_proofs (snd (generate args w []))) /\
  omap rejected (snd (generate args w [])) = [] /\
  omap logged (snd (generate args w [])) = [].
Proof.
  svc_walk ltac:(svc_hyps;
    try (split; [in_here|]; split; [cbn; match goal with |- context [Some (fst ?p, snd ?p)] => destruct p end; in_here|]; split; reflexivity)).
Qed.

(** X26: the event scan is run with the key that was checked.  If
    [prepareState] was called, then the private key it was given is the
    one decoded from what [decrypt] returned, the keypair is the one made
    from that key, whose public key [equals] the one the poll contract
    committed to; the poll id and the block options are the caller's, and
    the signer is the one [getDeployer] returned. *)
Theorem scan_uses_checked_key (w : World) (args : IGenerateArgs)
    (sk : PrivKey) (kp : Keypair) (pollId : nat) (signer : Signer)
    (options : option nat * option nat * option nat) :
  In (Some (sk, kp, pollId, signer, options))
     (map scan_args (snd (generate args w []))) ->
  kp = Keypair_new sk /\
  pollId = poll args /\
  options = (startBlock args, endBlock args, blocksPerBatch args) /\
  In (Some signer) (map deployer (snd (generate args w []))) /\
  exists plain xy pk,
    In (Some plain) (map decrypted (snd (generate args w []))) /\
    PrivKey_deserialize plain = Ok sk /\
    In (Some xy) (map committed_key (snd (generate args w []))) /\
    PubKey_new (fst xy) (snd xy) = Ok pk /\
    PubKey_equals (pubKey kp) pk = true.
Proof.
  svc_walk ltac:(svc_hyps;
    simplify_eq;
    (split; [reflexivity|]; split; [reflexivity|]; split; [reflexivity|];
     split; [in_here|];
     eexists _, _, _; split; [in_here|]; split; [eassumption|];
     split; [in_here|]; split; [eassumption|eassumption])).
Qed.

End ServiceFacts.

(** * The claims on concrete inputs *)

Import Toy.

Lemma toy_leaf_eqb_refl (l : Toy.leaf) : Toy.leaf_eqb l l = true.
Proof. unfold Toy.leaf_eqb. rewrite !Z.eqb_refl. reflexivity. Qed.



Lemma toy_full_state_wf : heap_wf Toy.full_state.
Proof.
  unfold Toy.full_state. apply MaciState_new_wf, heap_wf_empty.
Qed.

Lemma toy_fresh_state_wf : heap_wf Toy.fresh_state.
Proof.
  unfold Toy.fresh_state. apply MaciState_new_wf, heap_wf_empty.
Qed.

(** C1, on the failing input: after [new MaciState(1)] and one [signUp],
    the tree of the instance holds the blank leaf's hash and the new
    leaf's hash; the tree of its [copy()] holds the blank leaf's hash
    only, though the copy lists both leaves. *)
Theorem copy_does_not_reseed_accumulator :
  fst Toy.one_signup_copied = Ok 1 /\
  leaves <$> (view_tree <$> view (snd Toy.one_signup_copied) 0) = Some [1; 5275]%Z /\
  leaves <$> (view_tree <$> view (snd Toy.one_signup_copied) 1) = Some [1]%Z /\
  view_leaves <$> view (snd Toy.one_signup_copied) 0 =
    Some [((0, 0), 0, 0); ((3, 4), 100, 1)]%Z /\
  view_leaves <$> view (snd Toy.one_signup_copied) 1 =
    Some [((0, 0), 0, 0); ((3, 4), 100, 1)]%Z.
Proof. repeat split; reflexivity. Qed.

(** On an instance that holds a null poll, [copy()] (like [toJSON()])
    throws: it calls a method on [null]. *)
Example copy_of_null_poll_throws :
  fst (copy 0 Toy.null_poll_state) = Err TypeError /\
  fst (toJSON 0 Toy.null_poll_state) = Err TypeError.
Proof. split; reflexivity. Qed.

(** C3, on the failing input: the [copy()] of an instance with one voter
    signed up has two state leaves and [numSignUps = 1]. *)
Theorem copy_resets_numSignUps :
  fst Toy.one_signup_copied = Ok 1 /\
  length <$> (view_leaves <$> view (snd Toy.one_signup_copied) 1) = Some 2 /\
  numSignUps <$> (view_state <$> view (snd Toy.one_signup_copied) 1) = Some 1.
Proof. repeat split; reflexivity. Qed.



(** C4 at two sign-ups on a tree of depth one. *)
Lemma signUps_on_fresh_state_witness :
  exists this h1 h2 v,
    MaciState_new 1 empty_heap = (Ok this, h1) /\
    signUps this [((3, 4), 100, 1); ((5, 6), 100, 2)]%Z h1 = (Ok [1; 2], h2) /\
    view h2 this = Some v /\
    view_leaves v = [((0, 0), 0, 0); ((3, 4), 100, 1); ((5, 6), 100, 2)]%Z /\
    leaves (view_tree v) = [1; 5275; 5634]%Z /\
    numSignUps (view_state v) = 3.
Proof.
  apply (signUps_on_fresh_state (D := Toy.domainobjs) (P := Toy.pollimpl)
           empty_heap 1 [((3, 4), 100, 1); ((5, 6), 100, 2)]%Z).
  vm_compute. lia.
Defined.

(** C4 as stated fails where the tree has no room: on a fresh instance of
    depth zero the tree is full with the blank leaf, and the first
    [signUp] throws instead of returning [1]; no leaf is appended. *)
Lemma signUp_on_full_tree_throws :
  fst (MaciState_new 0 empty_heap) = Ok 0 /\
  fst (signUp 0 (3, 4)%Z 100%Z 1%Z Toy.full_state) = Err CapacityExceeded /\
  fst (signUp 0 (3, 4)%Z 100%Z 1%Z Toy.full_state) <> Ok 1 /\
  view_leaves <$> view (snd (signUp 0 (3, 4)%Z 100%Z 1%Z Toy.full_state)) 0 =
    Some [blankStateLeaf].
Proof.
  assert (E : fst (signUp 0 (3, 4)%Z 100%Z 1%Z Toy.full_state) = Err CapacityExceeded)
    by reflexivity.
  split; [reflexivity|]. split; [exact E|]. split; [rewrite E; discriminate|]. reflexivity.
Qed.



(** C6 at a fresh instance and at the record of the instance with one
    voter signed up. *)
Lemma blank_leaf_first_witness :
  (exists this h' v,
     MaciState_new 1 empty_heap = (Ok this, h') /\ view h' this = Some v /\
     view_leaves v !! 0 = Some blankStateLeaf /\
     StateLeaf_hash <$> view_leaves v !! 0 = Some blankStateLeafHash /\
     leaves (view_tree v) !! 0 = Some blankStateLeafHash) /\
  (exists v, view (snd (fromJSON Toy.one_signup_json Toy.one_signup)) 1 = Some v /\
     view_leaves v !! 0 = Some blankStateLeaf /\
     StateLeaf_hash <$> view_leaves v !! 0 = Some blankStateLeafHash /\
     leaves (view_tree v) !! 0 = Some blankStateLeafHash).
Proof.
  destruct (blank_leaf_first (D := Toy.domainobjs) (P := Toy.pollimpl) eq_refl eq_refl)
    as [Hnew Hfrom].
  split.
  - apply (Hnew empty_heap 1).
  - apply (Hfrom Toy.one_signup Toy.one_signup_json 1
             (snd (fromJSON Toy.one_signup_json Toy.one_signup))).
    + reflexivity.
    + vm_compute. reflexivity.
Defined.

(** C6 as stated fails for a record that is not [toJSON]'s own: [fromJSON]
    takes [stateLeaves] from the record as it is, so the instance it
    returns for [no_blank_json] has a voter's leaf at index [0]. *)
Lemma fromJSON_keeps_first_leaf_of_record :
  fst (fromJSON Toy.no_blank_json empty_heap) = Ok 0 /\
  view_leaves <$> view (snd (fromJSON Toy.no_blank_json empty_heap)) 0 =
    Some [((3, 4), 100, 1)%Z] /\
  (view_leaves <$> view (snd (fromJSON Toy.no_blank_json empty_heap)) 0) ≫= (.!! 0)
    <> Some blankStateLeaf.
Proof.
  assert (E : view_leaves <$> view (snd (fromJSON Toy.no_blank_json empty_heap)) 0 =
              Some [((3, 4), 100, 1)%Z]) by reflexivity.
  split; [reflexivity|]. split; [exact E|]. rewrite E. discriminate.
Qed.

(** C7 at a full tree (depth zero) and at a tree with room (depth one). *)
Lemma signUp_capacity_witness :
  fst (signUp 0 (3, 4)%Z 100%Z 1%Z Toy.full_state) = Err CapacityExceeded /\
  exists i, fst (signUp 0 (3, 4)%Z 100%Z 1%Z Toy.fresh_state) = Ok i.
Proof.
  split.
  - eapply (signUp_capacity Toy.full_state 0 _ (3, 4)%Z 100%Z 1%Z toy_full_state_wf).
    + reflexivity.
    + reflexivity.
  - eapply (signUp_capacity Toy.fresh_state 0 _ (3, 4)%Z 100%Z 1%Z toy_fresh_state_wf).
    + reflexivity.
    + vm_compute. lia.
Defined.

(** C8 in a world where the poll contract reports the state as not merged. *)
Lemma state_not_merged_stops_witness :
  fst (generate Toy.args (Toy.world false (1, 2)%Z) []) =
    Err (ServiceError NOT_MERGED_STATE_TREE) /\
  existsb is_backend_call (snd (generate Toy.args (Toy.world false (1, 2)%Z) [])) = false /\
  existsb is_event_scan (snd (generate Toy.args (Toy.world false (1, 2)%Z) [])) = false.
Proof.
  apply (state_not_merged_stops (Toy.world false (1, 2)%Z) Toy.args).
  vm_compute. reflexivity.
Defined.

(** C9 in a world where the ciphertext decrypts to the private key [1],
    whose public key is [(1, 2)], and the poll contract committed to
    [(1, 3)]. *)
Lemma key_mismatch_stops_witness :
  fst (generate Toy.args (Toy.world true (1, 3)%Z) []) =
    Err (ServiceError PRIVATE_KEY_MISMATCH) /\
  existsb is_event_scan (snd (generate Toy.args (Toy.world true (1, 3)%Z) [])) = false /\
  existsb is_backend_call (snd (generate Toy.args (Toy.world true (1, 3)%Z) [])) = false.
Proof.
  apply (key_mismatch_stops (Toy.world true (1, 3)%Z) Toy.args "5" 1%Z (1, 3)%Z (1, 3)%Z).
  - vm_compute. tauto.
  - vm_compute. tauto.
  - reflexivity.
  - reflexivity.
  - reflexivity.
Defined.

(** C10 at two instances that differ in [numSignUps], in their trees, in
    [pollBeingProcessed] and in [currentPollBeingProcessed]. *)
Lemma equals_ignores_bookkeeping_witness :
  equals 0 1 Toy.two_states = (Ok true, Toy.two_states) /\
  (numSignUps <$> states Toy.two_states !! 0) = Some 2 /\
  (numSignUps <$> states Toy.two_states !! 1) = Some 1 /\
  (pollBeingProcessed <$> states Toy.two_states !! 0) = Some None /\
  (pollBeingProcessed <$> states Toy.two_states !! 1) = Some (Some true) /\
  (currentPollBeingProcessed <$> states Toy.two_states !! 0) = Some None /\
  (currentPollBeingProcessed <$> states Toy.two_states !! 1) = Some (Some (Num 3)) /\
  (leaves <$> trees Toy.two_states !! 0) = Some [1; 5275]%Z /\
  (leaves <$> trees Toy.two_states !! 1) = Some [1]%Z.
Proof.
  split; [|repeat split; reflexivity].
  eapply (equals_ignores_bookkeeping Toy.two_states 0 1).
  - reflexivity.
  - reflexivity.
  - reflexivity.
  - constructor.
  - repeat constructor.
Defined.

(** The happy path of [generate], for comparison: all checks pass and the
    three artefacts come back. *)
Example generate_returns_proofs :
  fst (generate Toy.args (Toy.world true (1, 2)%Z) []) =
    Ok {| processProofs := ["mp"]; tallyProofs := ["tally"]; tallyData := "data" |}.
Proof. vm_compute. reflexivity. Qed.

(** * More on concrete inputs *)

Lemma toy_poll_copy_equal (p : Poll) : Poll_equals (Poll_copy p) (Some p) = Ok true.
Proof. simpl. rewrite Z.eqb_refl, Nat.eqb_refl. reflexivity. Qed.

Lemma toy_poll_decodes (p : Poll) (ref : loc) :
  exists p', Poll_fromJSON (Poll_toJSON p) ref = Ok p'.
Proof. exists p. reflexivity. Qed.

Lemma run_is_pair {A B} (x : A * B) (a : A) : fst x = a -> x = (a, snd x).
Proof. intros <-. destruct x; reflexivity. Qed.

Lemma toy_some_ops_wf : heap_wf (exec_ops 0 Toy.some_ops Toy.fresh_state).
Proof. apply exec_ops_wf, toy_fresh_state_wf. Qed.

(** X1 at one sign-up and one poll on a fresh instance of depth one. *)
Lemma mutators_append_only_witness :
  exists v, view Toy.fresh_state 0 = Some v /\
  exists v', view (exec_ops 0 Toy.some_ops Toy.fresh_state) 0 = Some v' /\
    view_leaves v `prefix_of` view_leaves v' /\
    view_polls v `prefix_of` view_polls v' /\
    leaves (view_tree v) `prefix_of` leaves (view_tree v') /\
    stateTreeDepth (view_state v') = stateTreeDepth (view_state v) /\
    pollBeingProcessed (view_state v') = pollBeingProcessed (view_state v) /\
    currentPollBeingProcessed (view_state v') = currentPollBeingProcessed (view_state v).
Proof.
  eexists. split; [reflexivity|].
  apply (mutators_append_only 0 Toy.some_ops Toy.fresh_state). reflexivity.
Defined.

(** X2 at a second poll, deployed after one sign-up and one poll. *)
Lemma deployPoll_index_witness :
  fst (deployPoll 0 2000%Z tt 2 5 9%Z (exec_ops 0 Toy.some_ops Toy.fresh_state)) = Ok 1 /\
  exists v',
    view (snd (deployPoll 0 2000%Z tt 2 5 9%Z (exec_ops 0 Toy.some_ops Toy.fresh_state))) 0 =
      Some v' /\
    view_polls v' !! 1 = Some (Some (2000%Z, 25)).
Proof.
  apply (deployPoll_index (D := Toy.domainobjs) (P := Toy.pollimpl)
           empty_heap 1 Toy.some_ops 0 Toy.fresh_state 2000%Z tt 2 5 9%Z).
  reflexivity.
Defined.

(** X3 at the instance with a null poll. *)
Lemma null_poll_blocks_copy_and_toJSON_witness :
  fst (copy 0 Toy.null_poll_state) = Err TypeError /\
  toJSON 0 Toy.null_poll_state = (Err TypeError, Toy.null_poll_state).
Proof.
  eapply (null_poll_blocks_copy_and_toJSON Toy.null_poll_state 0).
  - reflexivity.
  - left. reflexivity.
Defined.

(** X4 at an instance and its copy. *)
Lemma equals_true_inv_witness :
  exists vs vm,
    view Toy.two_states 0 = Some vs /\ view Toy.two_states 1 = Some vm /\
    stateTreeDepth (view_state vs) = stateTreeDepth (view_state vm) /\
    Forall2 poll_equal (view_polls vs) (view_polls vm) /\
    Forall2 (fun a b => StateLeaf_equals a b = true) (view_leaves vs) (view_leaves vm).
Proof.
  eexists _, _. split; [reflexivity|]. split; [reflexivity|].
  eapply (equals_true_inv Toy.two_states Toy.two_states 0 1); reflexivity.
Defined.

(** X5 at an instance that got a second sign-up and a poll after it was
    copied, against the copy. *)
Lemma equals_shape_mismatch_witness :
  equals 0 1 (exec_ops 0 Toy.some_ops (snd Toy.one_signup_copied)) =
    (Ok false, exec_ops 0 Toy.some_ops (snd Toy.one_signup_copied)).
Proof.
  eapply (equals_shape_mismatch (exec_ops 0 Toy.some_ops (snd Toy.one_signup_copied)) 0 1).
  - reflexivity.
  - reflexivity.
  - right. left. simpl. lia.
Defined.

(** X7 at the instance with one voter signed up. *)
Lemma copy_equals_source_witness :
  equals 1 0 (snd Toy.one_signup_copied) = (Ok true, snd Toy.one_signup_copied).
Proof.
  eapply (copy_equals_source Toy.one_signup (snd Toy.one_signup_copied) 0 1 _
            toy_leaf_eqb_refl toy_poll_copy_equal).
  - reflexivity.
  - reflexivity.
Defined.

(** X8 at the record of the instance with one voter signed up. *)
Lemma fromJSON_rebuilds_witness :
  exists v ls ps,
    mapRes StateLeaf_fromJSON (json_stateLeaves Toy.one_signup_json) = Ok ls /\
    mapRes (fun j => Poll_fromJSON j 1) (json_polls Toy.one_signup_json) = Ok ps /\
    view (snd (fromJSON Toy.one_signup_json Toy.one_signup)) 1 = Some v /\
    view_leaves v = ls /\
    view_polls v = map Some ps /\
    leaves (view_tree v) = blankStateLeafHash :: map StateLeaf_hash (drop 1 ls) /\
    stateTreeDepth (view_state v) = json_stateTreeDepth Toy.one_signup_json /\
    numSignUps (view_state v) = json_numSignUps Toy.one_signup_json /\
    pollBeingProcessed (view_state v) = Some (json_pollBeingProcessed Toy.one_signup_json) /\
    currentPollBeingProcessed (view_state v) =
      Some (parseInt (json_currentPollBeingProcessed Toy.one_signup_json)).
Proof.
  apply (fromJSON_rebuilds Toy.one_signup_json Toy.one_signup 1
           (snd (fromJSON Toy.one_signup_json Toy.one_signup))).
  apply run_is_pair. reflexivity.
Defined.

(** X9 at the copy marked as processing poll [3]. *)
Lemma processing_fields_after_round_trip_witness :
  exists v, view Toy.two_states 1 = Some v /\
  exists v', view (snd (fromJSON Toy.processing_json Toy.two_states)) 2 = Some v' /\
    pollBeingProcessed (view_state v') =
      Some (default false (pollBeingProcessed (view_state v))) /\
    currentPollBeingProcessed (view_state v') =
      Some (reread (currentPollBeingProcessed (view_state v))).
Proof.
  eexists. split; [reflexivity|].
  apply (processing_fields_after_round_trip Toy.two_states 1 _ Toy.processing_json 2
           (snd (fromJSON Toy.processing_json Toy.two_states))).
  - reflexivity.
  - reflexivity.
  - reflexivity.
  - apply run_is_pair. reflexivity.
Defined.

(** X10 at one sign-up and one poll on a fresh instance of depth one. *)
Lemma numSignUps_counts_calls_witness :
  exists v, view (exec_ops 0 Toy.some_ops Toy.fresh_state) 0 = Some v /\
    numSignUps (view_state v) = 1 + length (List.filter is_signUp Toy.some_ops) /\
    length (view_leaves v) = numSignUps (view_state v) `min` (STATE_TREE_ARITY ^ 1) /\
    length (leaves (view_tree v)) = length (view_leaves v).
Proof.
  apply (numSignUps_counts_calls (D := Toy.domainobjs) (P := Toy.pollimpl)
           empty_heap 1 Toy.some_ops 0 Toy.fresh_state).
  reflexivity.
Defined.

(** X11 at the same instance. *)
Lemma tree_is_hash_of_stateLeaves_witness :
  exists v, view (exec_ops 0 Toy.some_ops Toy.fresh_state) 0 = Some v /\
    leaves (view_tree v) = map StateLeaf_hash (view_leaves v).
Proof.
  apply (tree_is_hash_of_stateLeaves (D := Toy.domainobjs) (P := Toy.pollimpl)
           empty_heap 1 Toy.some_ops 0 Toy.fresh_state).
  - reflexivity.
  - intros l. reflexivity.
  - reflexivity.
Defined.

(** X12 at the heap that holds the instance with one voter signed up. *)
Lemma construction_leaves_instances_alone_witness :
  exists w, view Toy.one_signup 0 = Some w /\
  (forall d t h', MaciState_new d Toy.one_signup = (Ok t, h') ->
     t <> 0 /\ view h' 0 = Some w /\ (heap_wf Toy.one_signup -> heap_wf h')) /\
  (forall this v c h', view Toy.one_signup this = Some v ->
     copy this Toy.one_signup = (Ok c, h') ->
     c <> 0 /\ view h' 0 = Some w /\ (heap_wf Toy.one_signup -> heap_wf h')) /\
  (forall json r h', fromJSON json Toy.one_signup = (Ok r, h') ->
     r <> 0 /\ view h' 0 = Some w /\ (heap_wf Toy.one_signup -> heap_wf h')).
Proof.
  eexists. split; [reflexivity|].
  apply (construction_leaves_instances_alone Toy.one_signup 0). reflexivity.
Defined.

(** X13 at an instance with one sign-up and one poll, and its copy. *)
Lemma copy_shares_nothing_witness :
  exists v, view (exec_ops 0 Toy.some_ops Toy.fresh_state) 0 = Some v /\
  1 <> 0 /\
  view (exec_ops 1 Toy.some_ops (snd (copy 0 (exec_ops 0 Toy.some_ops Toy.fresh_state)))) 0 =
    Some v /\
  exists vc,
    view (snd (copy 0 (exec_ops 0 Toy.some_ops Toy.fresh_state))) 1 = Some vc /\
    view (exec_ops 0 Toy.some_ops (snd (copy 0 (exec_ops 0 Toy.some_ops Toy.fresh_state)))) 1 =
      Some vc.
Proof.
  eexists. split; [reflexivity|].
  apply (copy_shares_nothing (exec_ops 0 Toy.some_ops Toy.fresh_state)
           (snd (copy 0 (exec_ops 0 Toy.some_ops Toy.fresh_state))) 0 1 _ Toy.some_ops
           toy_some_ops_wf).
  - reflexivity.
  - reflexivity.
Defined.

(** X14 at the same instance. *)
Lemma round_trip_restores_tree_witness :
  exists v json restored h' v',
    view (exec_ops 0 Toy.some_ops Toy.fresh_state) 0 = Some v /\
    toJSON 0 (exec_ops 0 Toy.some_ops Toy.fresh_state) =
      (Ok json, exec_ops 0 Toy.some_ops Toy.fresh_state) /\
    fromJSON json (exec_ops 0 Toy.some_ops Toy.fresh_state) = (Ok restored, h') /\
    view h' restored = Some v' /\
    view_leaves v' = view_leaves v /\
    leaves (view_tree v') = leaves (view_tree v) /\
    stateTreeDepth (view_state v') = stateTreeDepth (view_state v) /\
    numSignUps (view_state v') = numSignUps (view_state v).
Proof.
  apply (round_trip_restores_tree (D := Toy.domainobjs) (P := Toy.pollimpl)
           empty_heap 1 Toy.some_ops 0 Toy.fresh_state).
  - reflexivity.
  - intros l. reflexivity.
  - intros l. reflexivity.
  - exact toy_poll_decodes.
  - reflexivity.
  - reflexivity.
Defined.

(** X15 in a world where the MACI contract reports the zero address,
    written with a capital [X]. *)
Lemma zero_poll_address_stops_witness :
  fst (generate Toy.args
         (Toy.world_with "0X0000000000000000000000000000000000000000" 99 {[0%Z := 5]}
            (Ok "rsa")) []) = Err (ServiceError POLL_NOT_FOUND) /\
  exists maciContract signer,
    snd (generate Toy.args
           (Toy.world_with "0X0000000000000000000000000000000000000000" 99 {[0%Z := 5]}
              (Ok "rsa")) []) =
      [ECall (Deployment_getContract EContracts_MACI (maciContractAddress Toy.args))
         (Ok maciContract);
       ECall Deployment_getDeployer (Ok signer);
       ECall (MACI_polls maciContract (poll Toy.args))
         (Ok "0X0000000000000000000000000000000000000000");
       ELog POLL_NOT_FOUND "Poll not found"].
Proof.
  apply (zero_poll_address_stops
           (Toy.world_with "0X0000000000000000000000000000000000000000" 99 {[0%Z := 5]}
              (Ok "rsa")) Toy.args "0X0000000000000000000000000000000000000000").
  - reflexivity.
  - repeat first [left; reflexivity | right].
Defined.

(** X16 in a world where the message accumulator reports the root zero. *)
Lemma message_tree_not_merged_stops_witness :
  fst (generate Toy.args
         (Toy.world_with "0x00000000000000000000000000000000000000Aa" 0 {[0%Z := 5]}
            (Ok "rsa")) []) = Err (ServiceError NOT_MERGED_MESSAGE_TREE) /\
  existsb is_key_use
    (snd (generate Toy.args
            (Toy.world_with "0x00000000000000000000000000000000000000Aa" 0 {[0%Z := 5]}
               (Ok "rsa")) [])) = false /\
  existsb is_event_scan
    (snd (generate Toy.args
            (Toy.world_with "0x00000000000000000000000000000000000000Aa" 0 {[0%Z := 5]}
               (Ok "rsa")) [])) = false /\
  existsb is_backend_call
    (snd (generate Toy.args
            (Toy.world_with "0x00000000000000000000000000000000000000Aa" 0 {[0%Z := 5]}
               (Ok "rsa")) [])) = false.
Proof.
  apply (message_tree_not_merged_stops
           (Toy.world_with "0x00000000000000000000000000000000000000Aa" 0 {[0%Z := 5]}
              (Ok "rsa")) Toy.args).
  repeat first [left; reflexivity | right].
Defined.

(** X17 in a world where the rebuilt state holds poll [1] only, and poll
    [0] is asked for. *)
Lemma poll_missing_from_state_stops_witness :
  fst (generate Toy.args
         (Toy.world_with "0x00000000000000000000000000000000000000Aa" 99 {[1%Z := 5]}
            (Ok "rsa")) []) = Err (ServiceError POLL_NOT_FOUND) /\
  existsb is_backend_call
    (snd (generate Toy.args
            (Toy.world_with "0x00000000000000000000000000000000000000Aa" 99 {[1%Z := 5]}
               (Ok "rsa")) [])) = false.
Proof.
  apply (poll_missing_from_state_stops
           (Toy.world_with "0x00000000000000000000000000000000000000Aa" 99 {[1%Z := 5]}
              (Ok "rsa")) Toy.args {[1%Z := 5]}).
  - reflexivity.
  - vm_compute. do 12 right. left. reflexivity.
Defined.

(** X18 in a world where the state tree is reported as not merged. *)
Lemma logged_code_is_thrown_witness :
  fst (generate Toy.args (Toy.world false (1, 2)%Z) []) =
    Err (ServiceError NOT_MERGED_STATE_TREE) /\
  last (snd (generate Toy.args (Toy.world false (1, 2)%Z) [])) =
    Some (ELog NOT_MERGED_STATE_TREE "state tree is not merged") /\
  existsb is_backend_call (snd (generate Toy.args (Toy.world false (1, 2)%Z) [])) = false.
Proof.
  apply (logged_code_is_thrown (Toy.world false (1, 2)%Z) Toy.args
           NOT_MERGED_STATE_TREE "state tree is not merged").
  repeat first [left; reflexivity | right].
Defined.

(** X19 in a world where the key file cannot be read. *)
Lemma rejection_propagates_witness :
  exists e,
    fst (generate Toy.args
           (Toy.world_with "0x00000000000000000000000000000000000000Aa" 99 {[0%Z := 5]}
              (Err (External "no key file"))) []) = Err e /\
    In e (omap rejected
            (snd (generate Toy.args
                    (Toy.world_with "0x00000000000000000000000000000000000000Aa" 99
                       {[0%Z := 5]} (Err (External "no key file"))) []))).
Proof.
  apply (rejection_propagates
           (Toy.world_with "0x00000000000000000000000000000000000000Aa" 99 {[0%Z := 5]}
              (Err (External "no key file"))) Toy.args).
  vm_compute. discriminate.
Defined.

(** X20 in a world where the poll contract committed to another key. *)
Lemma throw_has_a_cause_witness :
  In (ServiceError PRIVATE_KEY_MISMATCH)
     (omap rejected (snd (generate Toy.args (Toy.world true (1, 3)%Z) []))) \/
  (exists code text,
     ServiceError PRIVATE_KEY_MISMATCH = ServiceError code /\
     last (snd (generate Toy.args (Toy.world true (1, 3)%Z) [])) = Some (ELog code text)) \/
  (exists plain,
     In (Some plain) (map decrypted (snd (generate Toy.args (Toy.world true (1, 3)%Z) []))) /\
     PrivKey_deserialize plain = Err (ServiceError PRIVATE_KEY_MISMATCH)) \/
  (exists xy,
     In (Some xy)
        (map committed_key (snd (generate Toy.args (Toy.world true (1, 3)%Z) []))) /\
     PubKey_new (fst xy) (snd xy) = Err (ServiceError PRIVATE_KEY_MISMATCH)).
Proof.
  apply (throw_has_a_cause (Toy.world true (1, 3)%Z) Toy.args
           (ServiceError PRIVATE_KEY_MISMATCH)).
  vm_compute. reflexivity.
Defined.

(** X21 in a world where every check passes. *)
Lemma backend_only_after_checks_witness :
  (exists a,
     In (Some a) (map poll_address (snd (generate Toy.args (Toy.world true (1, 2)%Z) []))) /\
     toLowerCase a <> toLowerCase ZeroAddress) /\
  existsb (state_merged_reported true)
    (snd (generate Toy.args (Toy.world true (1, 2)%Z) [])) = true /\
  (exists r,
     In (Some r) (map main_root (snd (generate Toy.args (Toy.world true (1, 2)%Z) []))) /\
     r <> 0%Z) /\
  (exists plain sk xy pk,
     In (Some plain) (map decrypted (snd (generate Toy.args (Toy.world true (1, 2)%Z) []))) /\
     In (Some xy)
        (map committed_key (snd (generate Toy.args (Toy.world true (1, 2)%Z) []))) /\
     PrivKey_deserialize plain = Ok sk /\
     PubKey_new (fst xy) (snd xy) = Ok pk /\
     PubKey_equals (pubKey (Keypair_new sk)) pk = true) /\
  (exists st foundPoll,
     In (Some st) (map prepared (snd (generate Toy.args (Toy.world true (1, 2)%Z) []))) /\
     st !! Z.of_nat (poll Toy.args) = Some foundPoll /\
     In (Some (foundPoll, maciContractAddress Toy.args, tallyContractAddress Toy.args,
               useQuadraticVoting Toy.args))
        (map generator_made (snd (generate Toy.args (Toy.world true (1, 2)%Z) [])))).
Proof.
  apply (backend_only_after_checks (Toy.world true (1, 2)%Z) Toy.args).
  vm_compute. reflexivity.
Defined.

(** X22 in the same world. *)
Lemma success_returns_backend_output_witness :
  In (Some ["mp"]) (map mp_proofs (snd (generate Toy.args (Toy.world true (1, 2)%Z) []))) /\
  In (Some (["tally"], "data"))
     (map tally_proofs (snd (generate Toy.args (Toy.world true (1, 2)%Z) []))) /\
  omap rejected (snd (generate Toy.args (Toy.world true (1, 2)%Z) [])) = [] /\
  omap logged (snd (generate Toy.args (Toy.world true (1, 2)%Z) [])) = [].
Proof.
  apply (success_returns_backend_output (Toy.world true (1, 2)%Z) Toy.args
           {| processProofs := ["mp"]; tallyProofs := ["tally"]; tallyData := "data" |}).
  vm_compute. reflexivity.
Defined.

(** X23 at a second sign-up on an instance of depth one. *)
Lemma signUp_index_is_tree_index_witness :
  fst (signUp 0 (5, 6)%Z 100%Z 2%Z (exec_ops 0 Toy.some_ops Toy.fresh_state)) = Ok 2 /\
  exists v',
    view (snd (signUp 0 (5, 6)%Z 100%Z 2%Z (exec_ops 0 Toy.some_ops Toy.fresh_state))) 0 =
      Some v' /\
    view_leaves v' !! 2 = Some ((5, 6), 100, 2)%Z /\
    leaves (view_tree v') !! 2 = Some 5634%Z.
Proof.
  apply (signUp_index_is_tree_index (D := Toy.domainobjs) (P := Toy.pollimpl)
           empty_heap 1 Toy.some_ops 0 Toy.fresh_state (5, 6)%Z 100%Z 2%Z).
  - reflexivity.
  - vm_compute. lia.
Defined.

(** X24 at a record of depth zero with two leaves. *)
Lemma fromJSON_overfull_record_throws_witness :
  fst (fromJSON Toy.overfull_json empty_heap) = Err CapacityExceeded.
Proof.
  eapply (fromJSON_overfull_record_throws Toy.overfull_json empty_heap).
  - reflexivity.
  - vm_compute. lia.
Defined.

(** X25 at the instance with a null poll, compared with itself. *)
Lemma equals_throws_on_null_poll_witness :
  equals 0 0 Toy.null_poll_state = (Err TypeError, Toy.null_poll_state).
Proof.
  eapply (equals_throws_on_null_poll Toy.null_poll_state 0 0 _ _ 0).
  - reflexivity.
  - reflexivity.
  - reflexivity.
  - reflexivity.
  - reflexivity.
  - reflexivity.
  - intros i Hi. lia.
Defined.

(** X26 in a world where every check passes. *)
Lemma scan_uses_checked_key_witness :
  1%Z = Keypair_new 1%Z /\
  0 = poll Toy.args /\
  (Some 0, Some 100, Some 50) =
    (startBlock Toy.args, endBlock Toy.args, blocksPerBatch Toy.args) /\
  In (Some 7) (map deployer (snd (generate Toy.args (Toy.world true (1, 2)%Z) []))) /\
  exists plain xy pk,
    In (Some plain) (map decrypted (snd (generate Toy.args (Toy.world true (1, 2)%Z) []))) /\
    PrivKey_deserialize plain = Ok 1%Z /\
    In (Some xy)
       (map committed_key (snd (generate Toy.args (Toy.world true (1, 2)%Z) []))) /\
    PubKey_new (fst xy) (snd xy) = Ok pk /\
    PubKey_equals (pubKey 1%Z) pk = true.
Proof.
  apply (scan_uses_checked_key (Toy.world true (1, 2)%Z) Toy.args
           1%Z 1%Z 0 7 (Some 0, Some 100, Some 50)).
  vm_compute. do 12 right. left. reflexivity.
Defined.
